(** * Mini Gantt: the scheduling engine of [src/App.tsx]

    A shallow embedding of the date helpers, the topological sort, the
    violation detector, the drag reducer, the dependency toggle, the
    auto-scheduler and the editing commands of [App.tsx], followed by the
    properties proved about them.

    Conventions of the embedding.
    - A date string is a [string], as in the source ([DateStr]).
      [dayStr n] is the text [fmt] writes for the day number [n] (days
      since 1970-01-01 in the proleptic Gregorian calendar); [isoDay]
      reads the date forms of the ECMAScript date-time string format.
    - A JavaScript [Date] is its time value: milliseconds since the epoch,
      or [None] for an Invalid Date ([JsDate]).  A number that can be [NaN]
      is an [option Z] with [None] for [NaN]; comparisons with [NaN] are
      false.
    - The time zone of the host is a [Zone]: the two functions [LocalTime]
      and [UTC] of ECMA-262, 21.4.1, from an instant to its local time
      value and back.  Nothing is assumed of them in the definitions; the
      statements that need it ask for a [regularZone].
    - [Math.round (p / q)] is [Math_round_div p q]; pointer positions are
      whole pixels, and numbers stay within the range where JavaScript
      arithmetic on them is exact.
    - A JavaScript [Map] is an association list kept in insertion order
      ([JsMap]); a [Set] is a list without repetition in insertion order. *)

From Stdlib Require Import ZArith List String Ascii Bool Lia Permutation Arith.
Import ListNotations.

Local Open Scope Z_scope.

(** ** Numbers *)

(** Comparison of two numbers either of which can be [NaN]. *)
Definition num_lt (a b : option Z) : bool :=
  match a, b with Some x, Some y => x <? y | _, _ => false end.
Definition num_gt (a b : option Z) : bool :=
  match a, b with Some x, Some y => x >? y | _, _ => false end.
Definition num_le (a b : option Z) : bool :=
  match a, b with Some x, Some y => x <=? y | _, _ => false end.
Definition num_ge (a b : option Z) : bool :=
  match a, b with Some x, Some y => x >=? y | _, _ => false end.

Definition num_add (a b : option Z) : option Z :=
  match a, b with Some x, Some y => Some (x + y) | _, _ => None end.
Definition num_sub (a b : option Z) : option Z :=
  match a, b with Some x, Some y => Some (x - y) | _, _ => None end.
Definition num_mul (a b : option Z) : option Z :=
  match a, b with Some x, Some y => Some (x * y) | _, _ => None end.

(** [Math.max(1, x)] *)
Definition Math_max_1 (x : option Z) : option Z :=
  match x with Some v => Some (Z.max 1 v) | None => None end.

(** [Math.round (p / q)] for [q > 0]: the nearest integer, halves upwards. *)
Definition Math_round_div (p q : Z) : Z := (2 * p + q) / (2 * q).

(** [Math.round (x / q)] for a number [x] that can be [NaN]. *)
Definition Math_round_num (x : option Z) (q : Z) : option Z :=
  match x with Some p => Some (Math_round_div p q) | None => None end.

(** ** Calendar *)

Definition MS_PER_DAY : Z := 1000 * 60 * 60 * 24.
Definition MS_PER_MINUTE : Z := 60000.

(** [Day(t)] of ECMA-262: the day number a time value falls in. *)
Definition Day (t : Z) : Z := t / MS_PER_DAY.

(** [MakeDay]: the day number of the day [d] of the month [m] (1 to 12) of
    the year [y]; a [d] past the end of the month runs into the next. *)
Definition ymd (y m d : Z) : Z :=
  let y' := if m <=? 2 then y - 1 else y in
  let era := y' / 400 in
  let yoe := y' - era * 400 in
  let mp := if m <=? 2 then m + 9 else m - 3 in
  let doy := (153 * mp + 2) / 5 + d - 1 in
  let doe := yoe * 365 + yoe / 4 - yoe / 100 + doy in
  era * 146097 + doe - 719468.

(** [YearFromTime], [MonthFromTime + 1] and [DateFromTime] of a day
    number. *)
Definition civil (n : Z) : Z * Z * Z :=
  let z := n + 719468 in
  let era := z / 146097 in
  let doe := z - era * 146097 in
  let yoe := (doe - doe / 1460 + doe / 36524 - doe / 146096) / 365 in
  let doy := doe - (365 * yoe + yoe / 4 - yoe / 100) in
  let mp := (5 * doy + 2) / 153 in
  let d := doy - (153 * mp + 2) / 5 + 1 in
  let m := if mp <? 10 then mp + 3 else mp - 9 in
  (if m <=? 2 then yoe + era * 400 + 1 else yoe + era * 400, m, d).

(** [TimeClip]: a time value is at most 8.64e15 ms from the epoch. *)
Definition timeClip (t : Z) : option Z :=
  if Z.abs t <=? 8640000000000000 then Some t else None.

(** ** Date strings *)

Abbreviation DateStr := string (only parsing).
Abbreviation JsDate := (option Z) (only parsing).

Local Open Scope string_scope.
Local Open Scope Z_scope.

Definition isDigit (c : ascii) : bool :=
  (48 <=? nat_of_ascii c)%nat && (nat_of_ascii c <=? 57)%nat.

Definition digitChar (d : Z) : ascii := ascii_of_nat (48 + Z.to_nat d).

Definition digitValue (c : ascii) : Z := Z.of_nat (nat_of_ascii c) - 48.

(** The decimal digits of [n >= 0] in front of [acc]. *)
Fixpoint digitsOf (fuel : nat) (n : Z) (acc : string) : string :=
  match fuel with
  | O => acc
  | S fuel' =>
      if n <? 10 then String (digitChar n) acc
      else digitsOf fuel' (n / 10) (String (digitChar (n mod 10)) acc)
  end.

(** [Number.prototype.toString] on an integer. *)
Definition Number_toString (n : Z) : string :=
  if n <? 0
  then String "-" (digitsOf (S (Z.to_nat (Z.log2 (- n)))) (- n) "")
  else digitsOf (S (Z.to_nat (Z.log2 n))) n "".

(** [s.padStart(2, "0")] *)
Definition padStart2 (s : string) : string :=
  match String.length s with
  | O => ("00" ++ s)%string
  | S O => ("0" ++ s)%string
  | _ => s
  end.

(** The text [`${y}-${m}-${day}`] of [fmt] for an instant of the local day
    [n]: the year as it is, month and day on two digits. *)
Definition dayStr (n : Z) : DateStr :=
  let '(y, m, d) := civil n in
  (Number_toString y ++ "-" ++ padStart2 (Number_toString m)
                     ++ "-" ++ padStart2 (Number_toString d))%string.

(** The digits a string starts with, and what follows them. *)
Fixpoint digitRun (s : string) : string * string :=
  match s with
  | String c s' =>
      if isDigit c
      then let (ds, r) := digitRun s' in (String c ds, r)
      else (EmptyString, s)
  | EmptyString => (EmptyString, EmptyString)
  end.

Fixpoint valueOf (acc : Z) (ds : string) : Z :=
  match ds with
  | String c ds' => valueOf (acc * 10 + digitValue c) ds'
  | EmptyString => acc
  end.

(** A number written on exactly [k] digits at the head of [s]. *)
Definition fixedNumber (k : nat) (s : string) : option (Z * string) :=
  let (ds, r) := digitRun s in
  if Nat.eqb (String.length ds) k then Some (valueOf 0 ds, r) else None.

(** What follows the year in a date: nothing, [-MM] or [-MM-DD], with the
    month from 01 to 12 and the day from 01 to 31; month and day are 1
    where absent. *)
Definition monthDay (s : string) : option (Z * Z) :=
  match s with
  | EmptyString => Some (1, 1)
  | String c s1 =>
      if Ascii.eqb c "-" then
        match fixedNumber 2 s1 with
        | Some (m, s2) =>
            if (1 <=? m) && (m <=? 12) then
              match s2 with
              | EmptyString => Some (m, 1)
              | String c2 s3 =>
                  if Ascii.eqb c2 "-" then
                    match fixedNumber 2 s3 with
                    | Some (d, EmptyString) =>
                        if (1 <=? d) && (d <=? 31) then Some (m, d) else None
                    | _ => None
                    end
                  else None
              end
            else None
        | None => None
        end
      else None
  end.

(** The day number a date string denotes.  The dates read are those of the
    date-time string format of ECMA-262 (21.4.1.32): [YYYY], [YYYY-MM] or
    [YYYY-MM-DD], the year also as a sign and six digits other than
    [-000000]; a day of the month up to 31 is taken as [MakeDay] counts it.
    Every other string is unreadable: followed by ["T00:00:00"] it is not a
    date-time of the format, and the engine gives an Invalid Date for it. *)
Definition isoDay (s : DateStr) : option Z :=
  match s with
  | EmptyString => None
  | String c s' =>
      if Ascii.eqb c "+" || Ascii.eqb c "-" then
        match fixedNumber 6 s' with
        | Some (y, r) =>
            if Ascii.eqb c "-" && (y =? 0) then None
            else match monthDay r with
                 | Some (m, d) =>
                     Some (ymd (if Ascii.eqb c "-" then - y else y) m d)
                 | None => None
                 end
        | None => None
        end
      else
        match fixedNumber 4 s with
        | Some (y, r) =>
            match monthDay r with
            | Some (m, d) => Some (ymd y m d)
            | None => None
            end
        | None => None
        end
  end.

(** ** Time zone and the date helpers *)

(** The host's [LocalTime(t)] (an instant to its local time value) and
    [UTC(t)] (a local time value to the instant it stands for). *)
Record Zone := mkZone {
  LocalTime : Z -> Z;
  UTC : Z -> Z
}.

Section DateHelpers.

Variable z : Zone.

(** [new Date(d + "T00:00:00")]: the instant of local midnight of the day
    [d] denotes, or an Invalid Date. *)
Definition parseDate (d : DateStr) : JsDate :=
  match isoDay d with
  | Some n => timeClip (UTC z (n * MS_PER_DAY))
  | None => None
  end.

(** [fmt]: year, month and day of the local time of [d]; on an Invalid
    Date the three getters give [NaN]. *)
Definition fmt (d : JsDate) : DateStr :=
  match d with
  | Some t => dayStr (Day (LocalTime z t))
  | None => "NaN-NaN-NaN"
  end.

(** [addDays]: [setDate(getDate() + n)] keeps the local time of day and
    moves the local day by [n]. *)
Definition addDays (d : JsDate) (n : option Z) : JsDate :=
  match d, n with
  | Some t, Some k => timeClip (UTC z (LocalTime z t + k * MS_PER_DAY))
  | _, _ => None
  end.

Definition diffInDays (a b : JsDate) : option Z :=
  let ms := num_sub (parseDate (fmt a)) (parseDate (fmt b)) in
  Math_round_num ms MS_PER_DAY.

Definition clampDateStr (s min max : DateStr) : DateStr :=
  let d := parseDate s in
  let lo := parseDate min in
  let hi := parseDate max in
  if num_lt d lo then min
  else if num_gt d hi then max
  else s.

End DateHelpers.

(** A zone that keeps one offset from UTC; [tzOffset] is in minutes, with
    the sign of [Date.prototype.getTimezoneOffset] (UTC minus local: -540
    in Tokyo). *)
Definition fixedZone (tzOffset : Z) : Zone :=
  mkZone (fun t => t - tzOffset * MS_PER_MINUTE)
         (fun l => l + tzOffset * MS_PER_MINUTE).

(** A zone that skips a whole local day, as Pacific/Apia did at the end of
    2011: UTC-10 up to 2011-12-30T10:00Z, UTC+14 from then on.  A local time
    of the day skipped is read with the offset before the change. *)
Definition skippingZone : Zone :=
  mkZone (fun t => if t <? ymd 2011 12 30 * MS_PER_DAY + 10 * 3600000
                   then t - 10 * 3600000 else t + 14 * 3600000)
         (fun l => if l <? ymd 2011 12 31 * MS_PER_DAY
                   then l + 10 * 3600000 else l - 14 * 3600000).

(** ** Tasks, drag state, zoom *)

Local Open Scope string_scope.
Local Open Scope list_scope.

Record Task := mkTask {
  id : string;
  name : string;
  start : DateStr;
  end_ : DateStr;
  color : option string;
  deps : list string
}.

Definition set_start (t : Task) (s : DateStr) : Task :=
  mkTask (id t) (name t) s (end_ t) (color t) (deps t).
Definition set_end (t : Task) (e : DateStr) : Task :=
  mkTask (id t) (name t) (start t) e (color t) (deps t).
Definition set_start_end (t : Task) (s e : DateStr) : Task :=
  mkTask (id t) (name t) s e (color t) (deps t).
Definition set_deps (t : Task) (ds : list string) : Task :=
  mkTask (id t) (name t) (start t) (end_ t) (color t) ds.

Inductive DragKind := move | resize_left | resize_right.

Record Drag := mkDrag {
  drag_id : string;
  kind : DragKind;
  startX : Z;
  origStart : DateStr;
  origEnd : DateStr
}.

(** [DragState] is [null] or a drag record. *)
Definition DragState := option Drag.

Inductive ZoomKey := day | week | month.

Definition ZOOMS (z : ZoomKey) : Z :=
  match z with day => 24 | week => 10 | month => 4 end.

(** ** JavaScript [Map] and [Set] *)

Definition JsMap (V : Type) := list (string * V).

Fixpoint map_get {V} (k : string) (m : JsMap V) : option V :=
  match m with
  | [] => None
  | (k', v) :: m' => if String.eqb k k' then Some v else map_get k m'
  end.

Definition map_has {V} (k : string) (m : JsMap V) : bool :=
  match map_get k m with Some _ => true | None => false end.

(** [m.set(k, v)]: an existing key keeps its place, a new one goes last. *)
Fixpoint map_set {V} (k : string) (v : V) (m : JsMap V) : JsMap V :=
  match m with
  | [] => [(k, v)]
  | (k', v') :: m' =>
      if String.eqb k k' then (k', v) :: m' else (k', v') :: map_set k v m'
  end.

(** [new Map(entries)] *)
Definition map_of_entries {V} (es : list (string * V)) : JsMap V :=
  fold_left (fun m e => map_set (fst e) (snd e) m) es [].

Definition mem (x : string) (l : list string) : bool :=
  existsb (String.eqb x) l.

(** [s.add(x)] *)
Definition set_add (x : string) (s : list string) : list string :=
  if mem x s then s else s ++ [x].

(** ** [topoSort] (Kahn's algorithm) *)

(** [indeg.get(n) || 0] *)
Definition getd (n : string) (indeg : JsMap Z) : Z :=
  match map_get n indeg with Some v => v | None => 0%Z end.

(** [graph.get(x) || []] *)
Definition succs (x : string) (graph : JsMap (list string)) : list string :=
  match map_get x graph with Some l => l | None => [] end.

(** The body of [t.deps.forEach] in the construction of the graph. *)
Definition addEdge (t : Task)
    (st : JsMap (list string) * JsMap Z) (p : string)
    : JsMap (list string) * JsMap Z :=
  if map_has p (fst st)
  then (map_set p (succs p (fst st) ++ [id t]) (fst st),
        map_set (id t) (getd (id t) (snd st) + 1)%Z (snd st))
  else st.

Definition addEdges (st : JsMap (list string) * JsMap Z) (t : Task)
    : JsMap (list string) * JsMap Z :=
  fold_left (addEdge t) (deps t) st.

Definition buildGraph (tasks : list Task) : JsMap (list string) * JsMap Z :=
  let ids := map id tasks in
  let graph := map_of_entries (map (fun i => (i, @nil string)) ids) in
  let indeg := map_of_entries (map (fun i => (i, 0%Z)) ids) in
  fold_left addEdges tasks (graph, indeg).

(** The body of [(graph.get(x) || []).forEach]: the state is the in-degree
    map and the queue. *)
Definition relax (st : JsMap Z * list string) (n : string)
    : JsMap Z * list string :=
  let indeg' := map_set n (getd n (fst st) - 1)%Z (fst st) in
  match map_get n indeg' with
  | Some 0%Z => (indeg', snd st ++ [n])
  | _ => (indeg', snd st)
  end.

(** The [while (q.length)] loop; [None] when the fuel runs out first. *)
Fixpoint kahn (fuel : nat) (graph : JsMap (list string))
    (st : JsMap Z * list string) (out : list string) : option (list string) :=
  match snd st with
  | [] => Some out
  | x :: q' =>
      match fuel with
      | O => None
      | S fuel' =>
          kahn fuel' graph (fold_left relax (succs x graph) (fst st, q'))
               (out ++ [x])
      end
  end.

(** The initial queue: [indeg.forEach((deg, id) => { if (deg === 0) q.push(id) })]. *)
Definition initialQueue (indeg : JsMap Z) : list string :=
  map fst (filter (fun e => (snd e =? 0)%Z) indeg).

Definition topoSort (tasks : list Task) : option (list string) :=
  let ids := map id tasks in
  let g := buildGraph tasks in
  match kahn (List.length ids) (fst g) (snd g, initialQueue (snd g)) [] with
  | Some out => Some (if Nat.eqb (List.length out) (List.length ids) then out else ids)
  | None => None
  end.

(** ** The component [App] *)

Section App.

(** The zone of the browser. *)
Variable z : Zone.

Local Abbreviation parseDate := (parseDate z).
Local Abbreviation fmt := (fmt z).
Local Abbreviation addDays := (addDays z).
Local Abbreviation diffInDays := (diffInDays z).
Local Abbreviation clampDateStr := (clampDateStr z).

(** [[minDateStr, maxDateStr]], the memo on [tasks].  For the empty list the
    clock is read twice: [now1] and [now2] are the instants of the two
    [new Date()]. *)
Definition dateRangeStr (now1 now2 : Z) (tasks : list Task)
    : DateStr * DateStr :=
  match tasks with
  | [] => (fmt (Some now1), fmt (addDays (Some now2) (Some 30%Z)))
  | t0 :: _ =>
      let min :=
        fold_left (fun acc t =>
                     if num_lt (parseDate (start t)) acc
                     then parseDate (start t) else acc)
                  tasks (parseDate (start t0)) in
      let max :=
        fold_left (fun acc t =>
                     if num_gt (parseDate (end_ t)) acc
                     then parseDate (end_ t) else acc)
                  tasks (parseDate (end_ t0)) in
      (fmt (addDays min (Some (-7)%Z)), fmt (addDays max (Some 21%Z)))
  end.

Definition minDateStr (now1 now2 : Z) (tasks : list Task) : DateStr :=
  fst (dateRangeStr now1 now2 tasks).
Definition maxDateStr (now1 now2 : Z) (tasks : list Task) : DateStr :=
  snd (dateRangeStr now1 now2 tasks).

(** [totalDays = Math.max(1, diffInDays(maxDate, minDate))] *)
Definition totalDays (minS maxS : DateStr) : option Z :=
  Math_max_1 (diffInDays (parseDate maxS) (parseDate minS)).

(** [dateToX] and [xToDate]; [minDate] is [parseDate(minDateStr)]. *)
Definition dateToX (minDateStr : DateStr) (dayWidth : Z) (s : DateStr)
    : option Z :=
  num_mul (diffInDays (parseDate s) (parseDate minDateStr)) (Some dayWidth).

Definition xToDate (minDateStr : DateStr) (dayWidth : Z) (x : option Z)
    : DateStr :=
  fmt (addDays (parseDate minDateStr) (Math_round_num x dayWidth)).

(** [idToTask = new Map(tasks.map((t) => [t.id, t]))] *)
Definition idToTask (tasks : list Task) : JsMap Task :=
  map_of_entries (map (fun t => (id t, t)) tasks).

(** The [reduce] of [violations]: the latest end among the predecessors
    found in [idToTask], from [new Date(0)]. *)
Definition latestEndFrom (m : JsMap Task) (ds : list string) (init : JsDate)
    : JsDate :=
  fold_left (fun acc pid =>
               match map_get pid m with
               | None => acc
               | Some p =>
                   let pend := parseDate (end_ p) in
                   if num_gt pend acc then pend else acc
               end) ds init.

Definition violations (tasks : list Task) : list string :=
  let m := idToTask tasks in
  fold_left (fun set t =>
               let latestEnd := latestEndFrom m (deps t) (Some 0%Z) in
               if num_gt latestEnd (Some 0%Z)
                  && num_lt (parseDate (start t)) latestEnd
               then set_add (id t) set else set)
            tasks [].

(** The [violated] flag of each arrow drawn by [DependencyArrows], with the
    key of the path. *)
Definition DependencyArrows (tasks : list Task) : list (string * bool) :=
  flat_map (fun to =>
    flat_map (fun fromId =>
      match find (fun x => String.eqb (id x) fromId) tasks with
      | None => []
      | Some from =>
          [((id from ++ "->" ++ id to)%string,
            num_lt (parseDate (start to)) (parseDate (end_ from)))]
      end) (deps to)) tasks.

(** [onMouseDownBar]: [None] is the [TypeError] of reading [task.start] when
    no task has the id. *)
Definition onMouseDownBar (tasks : list Task) (clientX : Z) (i : string)
    (k : DragKind) : option Drag :=
  match find (fun t => String.eqb (id t) i) tasks with
  | Some task => Some (mkDrag i k clientX (start task) (end_ task))
  | None => None
  end.

(** The function mapped over [prev] by [onMove]. *)
Definition onMoveTask (drag : Drag) (dayWidth : Z) (minS maxS : DateStr)
    (ddays : Z) (t : Task) : Task :=
  if negb (String.eqb (id t) (drag_id drag)) then t
  else match kind drag with
       | move =>
           let span := diffInDays (parseDate (origEnd drag))
                                  (parseDate (origStart drag)) in
           let ns := xToDate minS dayWidth
                       (num_add (dateToX minS dayWidth (origStart drag))
                                (Some (ddays * dayWidth)%Z)) in
           let ne := fmt (addDays (parseDate ns) span) in
           let ns := clampDateStr ns minS maxS in
           let ne := clampDateStr ne minS maxS in
           set_start_end t ns ne
       | resize_left =>
           let ns := xToDate minS dayWidth
                       (num_add (dateToX minS dayWidth (origStart drag))
                                (Some (ddays * dayWidth)%Z)) in
           let ne := origEnd drag in
           let ns := if num_ge (parseDate ns)
                               (addDays (parseDate ne) (Some (-1)%Z))
                     then fmt (addDays (parseDate ne) (Some (-1)%Z)) else ns in
           let ns := clampDateStr ns minS maxS in
           set_start t ns
       | resize_right =>
           let ne := xToDate minS dayWidth
                       (num_add (dateToX minS dayWidth (origEnd drag))
                                (Some (ddays * dayWidth)%Z)) in
           let ns := origStart drag in
           let ne := if num_le (parseDate ne)
                               (addDays (parseDate ns) (Some 1%Z))
                     then fmt (addDays (parseDate ns) (Some 1%Z)) else ne in
           let ne := clampDateStr ne minS maxS in
           set_end t ne
       end.

(** [onMove] as run by the effect: [dayWidth], [minDateStr] and [maxDateStr]
    are those of the render that installed the handler; [clientX] is the
    pointer position in whole pixels. *)
Definition onMove (drag : DragState) (dayWidth : Z) (minS maxS : DateStr)
    (clientX : Z) (prev : list Task) : list Task :=
  match drag with
  | None => prev
  | Some d =>
      let dx := (clientX - startX d)%Z in
      let ddays := Math_round_div dx dayWidth in
      map (onMoveTask d dayWidth minS maxS ddays) prev
  end.

(** A pointer move on the current task list: the range is the one derived
    from that list, the day width the one of the zoom. *)
Definition updateEdit (now1 now2 : Z) (drag : DragState) (zoom : ZoomKey)
    (clientX : Z) (tasks : list Task) : list Task :=
  onMove drag (ZOOMS zoom) (minDateStr now1 now2 tasks)
         (maxDateStr now1 now2 tasks) clientX tasks.

Definition toggleDep (from to : string) (prev : list Task) : list Task :=
  if String.eqb from to then prev
  else map (fun t =>
              if negb (String.eqb (id t) to) then t
              else
                let has := mem from (deps t) in
                set_deps t (if has
                            then filter (fun d => negb (String.eqb d from)) (deps t)
                            else deps t ++ [from]))
           prev.

(** *** [autoSchedule]

    [next] is the array of copies; [nextMap] maps an id to one of these
    objects, here its index in [next], and the assignments to [t.start] and
    [t.end] update the array at that index. *)

Definition nextMap (tasks : list Task) : JsMap nat :=
  map_of_entries (combine (map id tasks) (seq 0 (List.length tasks))).

Fixpoint store_set (store : list Task) (r : nat) (t : Task) : list Task :=
  match store, r with
  | [], _ => []
  | _ :: rest, O => t :: rest
  | u :: rest, S r' => u :: store_set rest r' t
  end.

(** [nextMap.get(pid) || idToTask.get(pid)] *)
Definition lookupPred (nm : JsMap nat) (orig : JsMap Task)
    (store : list Task) (pid : string) : option Task :=
  match map_get pid nm with
  | Some r =>
      match nth_error store r with
      | Some p => Some p
      | None => map_get pid orig
      end
  | None => map_get pid orig
  end.

(** The [reduce] of [autoSchedule], from [parseDate(t.start)]. *)
Definition latestEndSched (nm : JsMap nat) (orig : JsMap Task)
    (store : list Task) (ds : list string) (init : JsDate) : JsDate :=
  fold_left (fun acc pid =>
               match lookupPred nm orig store pid with
               | None => acc
               | Some p =>
                   let pend := parseDate (end_ p) in
                   if num_gt pend acc then pend else acc
               end) ds init.

(** The body of [order.forEach]; [None] is the [TypeError] of reading a
    field of [nextMap.get(id)] when there is no such object. *)
Definition scheduleStep (nm : JsMap nat) (orig : JsMap Task)
    (minS maxS : DateStr) (store : option (list Task)) (i : string)
    : option (list Task) :=
  match store with
  | None => None
  | Some store =>
      match map_get i nm with
      | None => None
      | Some r =>
          match nth_error store r with
          | None => None
          | Some t =>
              let duration :=
                diffInDays (parseDate (end_ t)) (parseDate (start t)) in
              let latestEnd :=
                latestEndSched nm orig store (deps t) (parseDate (start t)) in
              if num_gt latestEnd (parseDate (start t)) then
                let ns := fmt (addDays latestEnd (Some 0%Z)) in
                let ne := fmt (addDays latestEnd duration) in
                Some (store_set store r
                        (set_start_end t (clampDateStr ns minS maxS)
                                         (clampDateStr ne minS maxS)))
              else Some store
          end
      end
  end.

(** [autoSchedule] with the range of the render it was created in; the
    result is the list given to [setTasks]. *)
Definition autoScheduleIn (minS maxS : DateStr) (tasks : list Task)
    : option (list Task) :=
  match topoSort tasks with
  | None => None
  | Some order =>
      fold_left (scheduleStep (nextMap tasks) (idToTask tasks) minS maxS)
                order (Some tasks)
  end.

Definition autoSchedule (now1 now2 : Z) (tasks : list Task)
    : option (list Task) :=
  autoScheduleIn (minDateStr now1 now2 tasks) (maxDateStr now1 now2 tasks)
                 tasks.

(** *** The canvas and the rows *)

(** [daysArr]: an array of [Math.max(1, diffInDays(maxDate, minDate)) + 1]
    cells, the cell [i] holding [addDays(minDate, i)]; [None] is the
    [RangeError] of [new Array] on a length that is [NaN] or not below
    2^32. *)
Definition daysArr (minS maxS : DateStr) : option (list JsDate) :=
  match num_add (totalDays minS maxS) (Some 1%Z) with
  | Some len =>
      if ((0 <=? len) && (len <? 4294967296))%Z
      then Some (map (fun i => addDays (parseDate minS) (Some (Z.of_nat i)))
                     (seq 0 (Z.to_nat len)))
      else None
  | None => None
  end.

(** [left] and [width] of the bar drawn by [TaskRow]. *)
Definition TaskRow_left (minS : DateStr) (dayWidth : Z) (t : Task)
    : option Z :=
  dateToX minS dayWidth (start t).

Definition TaskRow_width (minS : DateStr) (dayWidth : Z) (t : Task)
    : option Z :=
  Math_max_1 (num_sub (dateToX minS dayWidth (end_ t))
                      (dateToX minS dayWidth (start t))).

(** *** The editing commands *)

(** [addTask]; the value of [uid()] and the colour drawn by [randomPalette()]
    are given; [now1] and [now2] are the instants of the two [new Date()]. *)
Definition addTask (now1 now2 : Z) (uid palette : string)
    (prev : list Task) : list Task :=
  let start := fmt (addDays (Some now1) (Some 1%Z)) in
  let end' := fmt (addDays (Some now2) (Some 4%Z)) in
  prev ++ [mkTask uid "新規タスク" start end' (Some palette) []].

(** The date fields of the side panel and [importJSON] store
    [fmt(parseDate(value))]. *)
Definition normalizeDate (value : string) : DateStr := fmt (parseDate value).

End App.

(** [deleteTask]: the new task list and the new [selectedId]. *)
Definition deleteTask (i : string) (prev : list Task) : list Task :=
  map (fun t => set_deps t (filter (fun d => negb (String.eqb d i)) (deps t)))
      (filter (fun t => negb (String.eqb (id t) i)) prev).

Definition deleteTask_selectedId (i : string) (selectedId : option string)
    : option string :=
  match selectedId with
  | Some s => if String.eqb s i then None else Some s
  | None => None
  end.

(** The [x] button of a dependency of the selected task:
    [tasks.map(t => t.id===selected.id ? {...t, deps: t.deps.filter(x=>x!==d)} : t)]. *)
Definition removeDep (selected : Task) (d : string) (tasks : list Task)
    : list Task :=
  map (fun t => if String.eqb (id t) (id selected)
                then set_deps t (filter (fun x => negb (String.eqb x d)) (deps t))
                else t)
      tasks.

(** ** Vocabulary of the statements: dates *)

Fixpoint allDigits (s : string) : bool :=
  match s with
  | String c s' => isDigit c && allDigits s'
  | EmptyString => true
  end.

(** The days of the years 1000 to 9999, which [fmt] writes with a year of
    four digits: 1000-01-01 is day [FIRST_DAY], 9999-12-31 day [LAST_DAY]. *)
Definition FIRST_DAY : Z := -354285.
Definition LAST_DAY : Z := 2932896.

Definition fourDigits (n : Z) : Prop := FIRST_DAY <= n <= LAST_DAY.

(** The instant of local midnight of the day [n]. *)
Definition midnight (z : Zone) (n : Z) : Z := UTC z (n * MS_PER_DAY).

(** What the statements on dates ask of the zone: the instant taken for a
    local time shows that local time, or a later one of the same calendar
    day when the local time is skipped by a change of offset, less than
    twelve hours later; the offsets in use are within twelve hours of one
    another, and less than a day from UTC. *)
Record regularZone (z : Zone) : Prop := {
  zone_day : forall l, Day (LocalTime z (UTC z l)) = Day l;
  zone_gap : forall l, 0 <= LocalTime z (UTC z l) - l < MS_PER_DAY / 2;
  zone_drift : forall l l',
      - (MS_PER_DAY / 2) < (UTC z l - l) - (UTC z l' - l') < MS_PER_DAY / 2;
  zone_bound : forall l, - MS_PER_DAY < UTC z l - l < MS_PER_DAY
}.

(** The day a date string denotes, 0 for a string that is not a date. *)
Definition dayNum (s : DateStr) : Z :=
  match isoDay s with Some n => n | None => 0 end.

(** A date as [fmt] writes it for a day of the years 1000 to 9999: the
    ['YYYY-MM-DD'] of the data model. *)
Definition goodDate (s : DateStr) : Prop :=
  fourDigits (dayNum s) /\ s = dayStr (dayNum s).

(** [clampDateStr] on day numbers. *)
Definition clampDay (s min max : Z) : Z :=
  if (s <? min)%Z then min else if (s >? max)%Z then max else s.

(** ** Vocabulary of the statements: tasks *)

(** A date string the engine reads, far enough from the ends of the range
    of time values for the margins of the window. *)
Definition readable (s : DateStr) : Prop :=
  exists n, isoDay s = Some n /\ (- 99999000 <= n <= 99999000)%Z.

(** The invariant of the data model: start and end are dates as [fmt]
    writes them for the years 1000 to 9999, and the start is not after the
    end. *)
Definition startBeforeEnd (t : Task) : Prop :=
  goodDate (start t) /\ goodDate (end_ t)
  /\ (dayNum (start t) <= dayNum (end_ t))%Z.

(** The left end of the window in the words of the specification: the
    earliest start among the tasks without a predecessor in the list, minus
    seven days; nothing when every task has a predecessor. *)
Definition predecessorFree (tasks : list Task) (t : Task) : bool :=
  forallb (fun p => negb (mem p (map id tasks))) (deps t).



(** ** Sample data *)

Definition tX_sample : Task :=
  mkTask "X" "x" "2024-02-01" "2024-02-05" None [].
Definition tY_sample : Task :=
  mkTask "Y" "y" "2024-02-02" "2024-02-06" None ["X"].

(** [Y] of the sample once scheduled after [X]. *)
Definition tY_scheduled : Task :=
  set_start_end tY_sample "2024-02-05" "2024-02-09".


(** The zone of Tokyo. *)
Definition tokyo : Zone := fixedZone (-540).

(** ** Drag gestures *)



(** The days a pointer move of [ddays] days puts under the pointer: the
    edge, or the two edges, of the snapshot moved by [ddays]. *)
Definition pointedDays (d : Drag) (ddays : Z) : list Z :=
  match kind d with
  | move => [ (dayNum (origStart d) + ddays)%Z;
              (dayNum (origEnd d) + ddays)%Z ]
  | resize_left => [ (dayNum (origStart d) + ddays)%Z ]
  | resize_right => [ (dayNum (origEnd d) + ddays)%Z ]
  end.



(** ** Predecessors and violations *)

(** The task an id resolves to: the last one of the list with that id, as
    in a [Map] built from the list. *)
Fixpoint lastWithId (pid : string) (tasks : list Task) : option Task :=
  match tasks with
  | [] => None
  | t :: rest =>
      match lastWithId pid rest with
      | Some p => Some p
      | None => if String.eqb pid (id t) then Some t else None
      end
  end.

(** The ends of the resolvable predecessors of [t], in the order of [deps]. *)
Definition resolvableEnds (tasks : list Task) (t : Task) : list DateStr :=
  flat_map (fun pid =>
              match lastWithId pid tasks with
              | Some p => [end_ p]
              | None => []
              end) (deps t).

(** The rule of the specification, on calendar days: [t] has a resolvable
    predecessor and starts strictly before the latest end among them. *)
Definition specViolated (tasks : list Task) (t : Task) : bool :=
  match map dayNum (resolvableEnds tasks t) with
  | [] => false
  | e :: rest => (dayNum (start t) <? fold_left Z.max rest e)%Z
  end.

(** The rule of the code: the start is an instant before the end of a
    resolvable predecessor, and that end is an instant after the epoch. *)
Definition codeViolated (z : Zone) (tasks : list Task) (t : Task) : bool :=
  existsb (fun e => num_gt (parseDate z e) (Some 0%Z)
                    && num_lt (parseDate z (start t)) (parseDate z e))
          (resolvableEnds tasks t).

(** [A] ends in June 1969; [B] depends on [A] and starts in February 1969. *)
Definition epoch_A : Task :=
  mkTask "A" "a" "1969-01-01" "1969-06-01" None [].
Definition epoch_B : Task :=
  mkTask "B" "b" "1969-02-01" "1969-07-01" None ["A"].
Definition epoch_tasks : list Task := [epoch_A; epoch_B].

(** ** The predecessor graph *)

Definition countOf (x : string) (l : list string) : nat :=
  List.length (filter (String.eqb x) l).

(** The resolvable predecessors listed by the tasks of [l] with id [n]:
    the entries of their [deps] that are among [ids], with repetitions. *)
Definition rdepsOf (ids : list string) (l : list Task) (n : string)
    : list string :=
  flat_map (fun t =>
              if String.eqb (id t) n
              then filter (fun p => mem p ids) (deps t)
              else []) l.

Definition rdeps (tasks : list Task) (n : string) : list string :=
  rdepsOf (map id tasks) tasks n.

(** The predecessors of [n] that are not in [out] yet. *)
Definition pending (tasks : list Task) (out : list string) (n : string)
    : list string :=
  filter (fun p => negb (mem p out)) (rdeps tasks n).

(** An edge predecessor -> successor of the graph: a task with id [n] lists
    [p] in its [deps], and [p] is the id of a task. *)
Definition edge (tasks : list Task) (p n : string) : Prop :=
  exists t, In t tasks /\ id t = n /\ In p (deps t) /\ In p (map id tasks).

Inductive path (tasks : list Task) : string -> string -> Prop :=
| path_edge : forall p n, edge tasks p n -> path tasks p n
| path_step : forall p m n, edge tasks p m -> path tasks m n -> path tasks p n.

Definition acyclic (tasks : list Task) : Prop := forall x, ~ path tasks x x.
Definition hasCycle (tasks : list Task) : Prop := exists x, path tasks x x.

(** In [order] every predecessor of an element comes before it. *)
Definition topoOrdered (tasks : list Task) (order : list string) : Prop :=
  forall l1 n l2, order = l1 ++ n :: l2 ->
  forall p, edge tasks p n -> In p l1.

(** What holds of the graph and the in-degrees all along the construction:
    both maps have the ids as keys, those of [indeg] without repetition. *)
Definition buildKeys (ids : list string)
    (st : JsMap (list string) * JsMap Z) : Prop :=
  (forall p, map_has p (fst st) = mem p ids)
  /\ (forall n, map_has n (snd st) = mem n ids)
  /\ NoDup (map fst (snd st)).

(** The state of the loop of [topoSort]: the graph holds the edges, the
    in-degree of a node counts its predecessors not yet in [out], the nodes
    of in-degree zero are those of [out] and of the queue, no node is there
    twice, and [out] is ordered. *)
Record kahnInv (tasks : list Task) (graph : JsMap (list string))
    (indeg : JsMap Z) (q out : list string) : Prop := {
  inv_graph : forall x n,
      countOf n (succs x graph) = countOf x (rdeps tasks n);
  inv_indeg : forall n,
      getd n indeg = Z.of_nat (List.length (pending tasks out n));
  inv_zero : forall n,
      In n (out ++ q) <-> In n (map id tasks) /\ getd n indeg = 0%Z;
  inv_nodup : NoDup (out ++ q);
  inv_topo : topoOrdered tasks out
}.

(** A cycle of two tasks, followed by a free task. *)
Definition cycle_tasks : list Task :=
  [ mkTask "A" "a" "2024-01-01" "2024-01-03" None ["B"];
    mkTask "B" "b" "2024-01-02" "2024-01-04" None ["A"];
    mkTask "C" "c" "2024-01-05" "2024-01-06" None [] ].

(** [Y] before the task it depends on. *)
Definition reversed_tasks : list Task := [tY_sample; tX_sample].

(** ** [autoSchedule], as the statements see it *)

(** The index an id has in [nextMap]: that of the last task with the id. *)
Fixpoint lastIndexFrom (s : nat) (pid : string) (ids : list string)
    : option nat :=
  match ids with
  | [] => None
  | i :: rest =>
      match lastIndexFrom (S s) pid rest with
      | Some k => Some k
      | None => if String.eqb pid i then Some s else None
      end
  end.

(** No resolvable predecessor of [t] in [store] ends, as the code compares
    the two dates, after [t] starts. *)
Definition satisfiedAt (z : Zone) (store : list Task) (t : Task) : Prop :=
  forall pid p, In pid (deps t) -> lastWithId pid store = Some p ->
                num_gt (parseDate z (end_ p)) (parseDate z (start t)) = false.

(** What [autoSchedule] never changes in a task. *)
Definition shape (t : Task) : string * list string := (id t, deps t).

(** What a drag and the scheduler leave alone in a task. *)
Definition frame (t : Task) : string * string * option string * list string :=
  (id t, name t, color t, deps t).

(** Everything of a task but its dependencies. *)
Definition nonDeps (t : Task)
    : string * string * DateStr * DateStr * option string :=
  (id t, name t, start t, end_ t, color t).

(** A chain of three tasks of thirty days, all starting the same day. *)
Definition chain_tasks : list Task :=
  [ mkTask "C" "c" "2024-01-01" "2024-01-31" None ["B"];
    mkTask "B" "b" "2024-01-01" "2024-01-31" None ["A"];
    mkTask "A" "a" "2024-01-01" "2024-01-31" None [] ].

(** Lists with an id used twice. *)
Definition dup_tasks : list Task :=
  [ mkTask "B" "b" "2024-01-01" "2024-01-11" None ["A"];
    mkTask "A" "a1" "2024-01-01" "2024-01-11" None [];
    mkTask "A" "a2" "2024-01-01" "2024-01-11" None [] ].





(** A task at the beginning of the year 1000. *)
Definition early_tasks : list Task :=
  [ mkTask "A" "a" "1000-01-03" "1000-01-10" None [] ].

(** ** [autoSchedule] on calendar days *)

(** The [reduce] of [autoSchedule] on day numbers. *)
Definition latestDaySched (nm : JsMap nat) (orig : JsMap Task)
    (store : list Task) (ds : list string) (init : Z) : Z :=
  fold_left (fun acc pid =>
               match lookupPred nm orig store pid with
               | None => acc
               | Some p =>
                   if (dayNum (end_ p) >? acc)%Z then dayNum (end_ p) else acc
               end) ds init.

(** The body of [order.forEach] on day numbers, for a window that ends on
    the day [mx]: a task that moves starts on the latest end among its
    predecessors and keeps its duration, cut at the end of the window. *)
Definition scheduleStepDays (nm : JsMap nat) (orig : JsMap Task) (mx : Z)
    (store : option (list Task)) (i : string) : option (list Task) :=
  match store with
  | None => None
  | Some store =>
      match map_get i nm with
      | None => None
      | Some r =>
          match nth_error store r with
          | None => None
          | Some t =>
              let duration := (dayNum (end_ t) - dayNum (start t))%Z in
              let latest :=
                latestDaySched nm orig store (deps t) (dayNum (start t)) in
              if (latest >? dayNum (start t))%Z then
                Some (store_set store r
                        (set_start_end t (dayStr latest)
                           (dayStr (Z.min (latest + duration) mx))))
              else Some store
          end
      end
  end.

(** The latest end of a list, as a day number. *)
Definition lastEnd (tasks : list Task) : Z :=
  match tasks with
  | [] => 0%Z
  | t0 :: rest =>
      fold_left (fun acc t => Z.max acc (dayNum (end_ t))) rest
                (dayNum (end_ t0))
  end.

Definition autoScheduleDays (tasks : list Task) : option (list Task) :=
  match topoSort tasks with
  | None => None
  | Some order =>
      fold_left (scheduleStepDays (nextMap tasks) (idToTask tasks)
                                  (lastEnd tasks + 21)%Z)
                order (Some tasks)
  end.

(** Room to schedule within the year 9999: a task put to start at the right
    end of the window, which is 21 days after the end of some task, still
    ends in a year of four digits. *)
Definition roomToSchedule (tasks : list Task) : Prop :=
  forall p t, In p tasks -> In t tasks ->
    (dayNum (end_ p) + 21 + (dayNum (end_ t) - dayNum (start t))
     <= LAST_DAY)%Z.


(** The store of the loop when every date is of the data model: ordered
    tasks that end within the window, with room for their duration. *)
Definition storeInYears (mx : Z) (store : list Task) : Prop :=
  forall u, In u store ->
    startBeforeEnd u /\ (dayNum (end_ u) <= mx)%Z
    /\ (mx + (dayNum (end_ u) - dayNum (start u)) <= LAST_DAY)%Z.


(** A date the engine reads, of the years 1000 to 9999. *)
Definition inYears (s : DateStr) : Prop :=
  exists n, isoDay s = Some n /\ fourDigits n.

(** [u] is [t] moved later or left in place: same id, name, colour and
    dependencies, start and end not on an earlier day. *)
Definition notEarlier (t u : Task) : Prop :=
  frame u = frame t
  /\ (dayNum (start t) <= dayNum (start u))%Z
  /\ (dayNum (end_ t) <= dayNum (end_ u))%Z.

(** How [autoSchedule] leaves the task [t] of a list of the data model, in a
    window that ends on the day [mx]: as [u = t], or moved later to start at
    the end of one of its predecessors in [store], with its duration cut
    where the window ends. *)
Definition scheduledFrom (store : list Task) (mx : Z) (t u : Task) : Prop :=
  u = t
  \/ (frame u = frame t
      /\ (dayNum (start t) < dayNum (start u) <= mx)%Z
      /\ (exists pid p, In pid (deps u) /\ lastWithId pid store = Some p
                        /\ end_ p = start u)
      /\ dayNum (end_ u)
         = Z.min (dayNum (start u) + (dayNum (end_ t) - dayNum (start t))) mx).

(** The store of [autoSchedule] against the list given, position by
    position, after the ids of [done]. *)
Definition schedTrace (tasks : list Task) (mx : Z)
    (done : list string) (store : list Task) : Prop :=
  forall k t v, nth_error tasks k = Some t -> nth_error store k = Some v ->
    (~ In (id t) done -> v = t) /\ scheduledFrom store mx t v.

(** A zone with summer time, as Europe/Berlin has it in 2024: UTC+1, and
    UTC+2 from 2024-03-31T01:00Z to 2024-10-27T01:00Z.  A local time of the
    hour skipped in March is read with the offset before the change, one of
    the hour repeated in October with the offset of its first occurrence. *)
Definition dstZone : Zone :=
  let t1 := (ymd 2024 3 31 * MS_PER_DAY + 3600000)%Z in
  let t2 := (ymd 2024 10 27 * MS_PER_DAY + 3600000)%Z in
  mkZone (fun t => if ((t1 <=? t) && (t <? t2))%Z
                   then (t + 2 * 3600000)%Z else (t + 3600000)%Z)
         (fun l => if (l <? t1 + 2 * 3600000)%Z then (l - 3600000)%Z
                   else if (l <? t2 + 2 * 3600000)%Z then (l - 2 * 3600000)%Z
                   else (l - 3600000)%Z).





(** * Properties *)

(** ** Calendar and date strings *)

Section CalendarFacts.

Local Open Scope Z_scope.

Example first_last_day :
  FIRST_DAY = ymd 1000 1 1 /\ LAST_DAY = ymd 9999 12 31.
Proof. split; reflexivity. Qed.

Lemma MS_PER_DAY_eq : MS_PER_DAY = 86400000.
Proof. reflexivity. Qed.

Lemma MS_PER_DAY_pos : 0 < MS_PER_DAY.
Proof. reflexivity. Qed.

(** The check of [civil] on a day of the 400-year cycle. *)
Lemma civil_cycle (doe : Z) :
  0 <= doe <= 146096 ->
  let yoe := (doe - doe / 1460 + doe / 36524 - doe / 146096) / 365 in
  let doy := doe - (365 * yoe + yoe / 4 - yoe / 100) in
  let mp := (5 * doy + 2) / 153 in
  let d := doy - (153 * mp + 2) / 5 + 1 in
  0 <= yoe <= 399 /\ 0 <= mp <= 11 /\ 1 <= d <= 31.
Proof.
  intros H. cbv zeta. Z.div_mod_to_equations. lia.
Qed.

Lemma ymd_civil (n : Z) :
  let '(y, m, d) := civil n in
  ymd y m d = n /\ 1 <= m <= 12 /\ 1 <= d <= 31.
Proof.
  unfold civil.
  set (zz := n + 719468).
  set (era := zz / 146097).
  set (doe := zz - era * 146097).
  assert (Hdoe : 0 <= doe <= 146096).
  { subst doe era. pose proof (Z.div_mod zz 146097 ltac:(lia)).
    pose proof (Z.mod_pos_bound zz 146097 ltac:(lia)). lia. }
  pose proof (civil_cycle doe Hdoe) as Hc. cbv zeta in Hc.
  set (yoe := (doe - doe / 1460 + doe / 36524 - doe / 146096) / 365) in *.
  set (doy := doe - (365 * yoe + yoe / 4 - yoe / 100)) in *.
  set (mp := (5 * doy + 2) / 153) in *.
  set (d := doy - (153 * mp + 2) / 5 + 1) in *.
  destruct Hc as [Hy [Hmp Hd]].
  cbv zeta.
  destruct (mp <? 10) eqn:Hlt.
  - apply Z.ltb_lt in Hlt.
    replace (mp + 3 <=? 2) with false by (symmetry; apply Z.leb_gt; lia).
    split; [| lia]. unfold ymd.
    replace (mp + 3 <=? 2) with false by (symmetry; apply Z.leb_gt; lia).
    cbv zeta.
    replace ((yoe + era * 400) / 400) with era
      by (apply Z.div_unique with yoe; lia).
    replace (yoe + era * 400 - era * 400) with yoe by lia.
    replace (mp + 3 - 3) with mp by lia.
    subst d doy doe zz. lia.
  - apply Z.ltb_ge in Hlt.
    replace (mp - 9 <=? 2) with true by (symmetry; apply Z.leb_le; lia).
    split; [| lia]. unfold ymd.
    replace (mp - 9 <=? 2) with true by (symmetry; apply Z.leb_le; lia).
    cbv zeta.
    replace (yoe + era * 400 + 1 - 1) with (yoe + era * 400) by lia.
    replace ((yoe + era * 400) / 400) with era
      by (apply Z.div_unique with yoe; lia).
    replace (yoe + era * 400 - era * 400) with yoe by lia.
    replace (mp - 9 + 9) with mp by lia.
    subst d doy doe zz. lia.
Qed.

(** [ymd] by the usual count of leap years. *)
Lemma ymd_leap_years (y m d : Z) :
  ymd y m d =
  (let y' := if m <=? 2 then y - 1 else y in
   let mp := if m <=? 2 then m + 9 else m - 3 in
   365 * y' + y' / 4 - y' / 100 + y' / 400 + (153 * mp + 2) / 5 + d - 719469).
Proof.
  unfold ymd. cbv zeta.
  set (y' := if m <=? 2 then y - 1 else y).
  set (mp := if m <=? 2 then m + 9 else m - 3).
  generalize ((153 * mp + 2) / 5). intros k.
  set (era := y' / 400).
  assert (H4 : (y' - era * 400) / 4 = y' / 4 - era * 100).
  { replace (y' - era * 400) with (y' + (- era * 100) * 4) by lia.
    rewrite Z.div_add by lia. lia. }
  assert (H100 : (y' - era * 400) / 100 = y' / 100 - era * 4).
  { replace (y' - era * 400) with (y' + (- era * 4) * 100) by lia.
    rewrite Z.div_add by lia. lia. }
  rewrite H4, H100. lia.
Qed.

(** Day numbers of a year of four digits, and of the years around. *)
Lemma ymd_four_digits (y m d : Z) :
  1 <= m <= 12 -> 1 <= d <= 31 ->
  (1000 <= y <= 9999 -> FIRST_DAY <= ymd y m d <= LAST_DAY)
  /\ (y <= 999 -> ymd y m d < FIRST_DAY)
  /\ (10000 <= y -> LAST_DAY < ymd y m d)
  /\ (- 99999 <= y -> - 37243412 <= ymd y m d).
Proof.
  intros Hm Hd. rewrite ymd_leap_years. unfold FIRST_DAY, LAST_DAY.
  destruct (m <=? 2) eqn:Hm2; cbv beta iota zeta.
  - apply Z.leb_le in Hm2.
    split; [| split; [| split]]; intros Hy; Z.div_mod_to_equations; lia.
  - apply Z.leb_gt in Hm2.
    split; [| split; [| split]]; intros Hy; Z.div_mod_to_equations; lia.
Qed.

(** The year of a day number has four digits exactly on the days from
    [FIRST_DAY] to [LAST_DAY]. *)
Lemma civil_four_digits (n : Z) :
  let '(y, m, d) := civil n in
  (1000 <= y <= 9999 <-> fourDigits n)
  /\ (- 99999 <= y -> - 37243412 <= n).
Proof.
  pose proof (ymd_civil n) as H.
  destruct (civil n) as [[y m] d]. destruct H as [Hn [Hm Hd]].
  destruct (ymd_four_digits y m d Hm Hd) as [H1 [H2 [H3 H4]]].
  unfold fourDigits. split; [| lia]. split; [lia |].
  intros Hn'. destruct (Z_le_gt_dec y 999) as [Hle | Hgt]; [lia |].
  destruct (Z_le_gt_dec 10000 y) as [Hge | Hlt]; lia.
Qed.

End CalendarFacts.

Section DateStrings.

Local Open Scope Z_scope.

Lemma digitChar_spec (d : Z) :
  0 <= d <= 9 ->
  isDigit (digitChar d) = true /\ digitValue (digitChar d) = d.
Proof.
  intros H.
  assert (Hd : d = 0 \/ d = 1 \/ d = 2 \/ d = 3 \/ d = 4 \/ d = 5 \/ d = 6
               \/ d = 7 \/ d = 8 \/ d = 9) by lia.
  repeat (destruct Hd as [-> | Hd]; [split; reflexivity |]).
  subst d. split; reflexivity.
Qed.

Lemma isDigit_not_sign (c : ascii) :
  isDigit c = true ->
  Ascii.eqb c "+" = false /\ Ascii.eqb c "-" = false.
Proof.
  destruct c as [[] [] [] [] [] [] [] []]; cbn; intros H;
    try discriminate H; split; reflexivity.
Qed.

Lemma string_app_assoc (a b c : string) :
  ((a ++ b) ++ c = a ++ (b ++ c))%string.
Proof.
  induction a as [| x a IH]; cbn; [reflexivity | now rewrite IH].
Qed.

Lemma string_app_nil (a : string) : (a ++ "" = a)%string.
Proof.
  induction a as [| x a IH]; cbn; [reflexivity | now rewrite IH].
Qed.

Lemma string_length_app (a b : string) :
  String.length (a ++ b) = (String.length a + String.length b)%nat.
Proof.
  induction a as [| x a IH]; cbn; [reflexivity | now rewrite IH].
Qed.

Lemma allDigits_app (a b : string) :
  allDigits (a ++ b) = allDigits a && allDigits b.
Proof.
  induction a as [| x a IH]; cbn [allDigits append]; [reflexivity |].
  rewrite IH. now rewrite andb_assoc.
Qed.

Lemma valueOf_app (a b : string) (acc : Z) :
  valueOf acc (a ++ b) = valueOf (valueOf acc a) b.
Proof.
  revert acc. induction a as [| x a IH]; intros acc; cbn; [reflexivity |].
  apply IH.
Qed.

(** A run of digits followed by the end or by another character is read
    whole. *)
Lemma digitRun_app (ds r : string) :
  allDigits ds = true ->
  (forall c r', r = String c r' -> isDigit c = false) ->
  digitRun (ds ++ r) = (ds, r).
Proof.
  intros Hds Hr. induction ds as [| x ds IH]; cbn [digitRun append].
  - destruct r as [| c r']; [reflexivity |].
    cbn [digitRun]. now rewrite (Hr c r' eq_refl).
  - cbn [allDigits] in Hds. apply andb_prop in Hds. destruct Hds as [Hx Hds].
    rewrite Hx, (IH Hds). reflexivity.
Qed.

Lemma fixedNumber_app (k : nat) (ds r : string) :
  allDigits ds = true ->
  (forall c r', r = String c r' -> isDigit c = false) ->
  fixedNumber k (ds ++ r)
  = if Nat.eqb (String.length ds) k then Some (valueOf 0 ds, r) else None.
Proof.
  intros Hds Hr. unfold fixedNumber. now rewrite digitRun_app.
Qed.

(** What [digitsOf] writes: digits only, of which [n] is the value, as
    many as [n] has decimal digits. *)
Lemma digitsOf_spec (fuel : nat) :
  forall n acc, 0 <= n < 2 ^ Z.of_nat fuel -> (0 < fuel)%nat ->
  exists ds,
    digitsOf fuel n acc = (ds ++ acc)%string
    /\ allDigits ds = true
    /\ valueOf 0 ds = n
    /\ (n < 10 -> String.length ds = 1%nat)
    /\ (10 <= n -> 10 ^ (Z.of_nat (String.length ds) - 1) <= n)
    /\ n < 10 ^ Z.of_nat (String.length ds).
Proof.
  induction fuel as [| fuel IH]; intros n acc Hn Hfuel.
  - lia.
  - cbn [digitsOf]. destruct (n <? 10) eqn:Hlt.
    + apply Z.ltb_lt in Hlt.
      destruct (digitChar_spec n ltac:(lia)) as [Hd Hv].
      exists (String (digitChar n) "").
      cbn [append allDigits valueOf String.length].
      rewrite Hd, Hv. change (Z.of_nat 1) with 1. change (10 ^ 1) with 10.
      split; [reflexivity |]. split; [reflexivity |].
      split; [lia |]. split; [reflexivity |]. split; lia.
    + apply Z.ltb_ge in Hlt.
      assert (Hn' : 0 <= n / 10 < 2 ^ Z.of_nat fuel).
      { rewrite Nat2Z.inj_succ, Z.pow_succ_r in Hn by lia.
        Z.div_mod_to_equations. lia. }
      destruct (IH (n / 10) (String (digitChar (n mod 10)) acc) Hn')
        as [ds [He [Hd [Hv [H1 [H2 H3]]]]]].
      { destruct fuel; [cbn in Hn'; Z.div_mod_to_equations; lia | lia]. }
      destruct (digitChar_spec (n mod 10)) as [Hdm Hvm].
      { Z.div_mod_to_equations. lia. }
      exists (ds ++ String (digitChar (n mod 10)) "")%string.
      rewrite He, string_app_assoc. cbn [append].
      split; [reflexivity |].
      rewrite allDigits_app, valueOf_app, string_length_app, Hd, Hv.
      cbn [allDigits valueOf String.length]. rewrite Hdm, Hvm.
      split; [reflexivity |]. split; [Z.div_mod_to_equations; lia |].
      split; [lia |].
      replace (Z.of_nat (String.length ds + 1)) with
        (Z.succ (Z.of_nat (String.length ds))) by lia.
      rewrite Z.pow_succ_r by lia.
      replace (Z.succ (Z.of_nat (String.length ds)) - 1)
        with (Z.of_nat (String.length ds)) by lia.
      split; [intros _ | Z.div_mod_to_equations; lia].
      destruct (Z_lt_le_dec (n / 10) 10) as [Hs | Hb].
      * rewrite (H1 Hs). change (10 ^ Z.of_nat 1) with 10. lia.
      * specialize (H2 Hb).
        replace (Z.of_nat (String.length ds))
          with (Z.succ (Z.of_nat (String.length ds) - 1)) by lia.
        assert (0 < String.length ds)%nat.
        { destruct (String.length ds); [cbn in H3; lia | lia]. }
        rewrite Z.pow_succ_r by lia. Z.div_mod_to_equations. lia.
Qed.

Lemma Number_toString_nat (n : Z) :
  0 <= n ->
  exists ds,
    Number_toString n = ds
    /\ allDigits ds = true
    /\ valueOf 0 ds = n
    /\ (n < 10 -> String.length ds = 1%nat)
    /\ (10 <= n -> 10 ^ (Z.of_nat (String.length ds) - 1) <= n)
    /\ n < 10 ^ Z.of_nat (String.length ds).
Proof.
  intros Hn. unfold Number_toString.
  replace (n <? 0) with false by (symmetry; apply Z.ltb_ge; lia).
  destruct (digitsOf_spec (S (Z.to_nat (Z.log2 n))) n "") as [ds [He H]].
  - split; [assumption |].
    rewrite Nat2Z.inj_succ, Z2Nat.id by apply Z.log2_nonneg.
    destruct (Z.eq_dec n 0) as [-> | Hne]; [reflexivity |].
    apply Z.log2_spec. lia.
  - lia.
  - exists ds. rewrite He, string_app_nil. split; [reflexivity | exact H].
Qed.

(** The number of digits against the powers of ten. *)
Lemma digits_count (n : Z) (len : nat) (k : nat) :
  0 <= n ->
  (n < 10 -> len = 1%nat) ->
  (10 <= n -> 10 ^ (Z.of_nat len - 1) <= n) ->
  n < 10 ^ Z.of_nat len ->
  (0 < k)%nat ->
  Nat.eqb len k = (10 ^ (Z.of_nat k - 1) <=? n) && (n <? 10 ^ Z.of_nat k)
                  || (Nat.eqb k 1 && (n <? 10)).
Proof.
  intros Hn H1 H2 H3 Hk.
  destruct (Z_lt_le_dec n 10) as [Hs | Hb].
  - rewrite (H1 Hs).
    replace (n <? 10) with true by (symmetry; apply Z.ltb_lt; lia).
    rewrite andb_true_r.
    destruct (Nat.eqb_spec 1 k) as [<- | Hne].
    + now rewrite orb_true_r.
    + replace (Nat.eqb k 1) with false
        by (symmetry; apply Nat.eqb_neq; lia).
      rewrite orb_false_r. symmetry. apply andb_false_intro1.
      apply Z.leb_gt.
      assert (10 ^ 1 <= 10 ^ (Z.of_nat k - 1)) by (apply Z.pow_le_mono_r; lia).
      change (10 ^ 1) with 10 in *. lia.
  - specialize (H2 Hb).
    replace (n <? 10) with false by (symmetry; apply Z.ltb_ge; lia).
    rewrite andb_false_r, orb_false_r.
    destruct (Nat.eqb_spec len k) as [-> | Hne].
    + symmetry. apply andb_true_intro. split; [apply Z.leb_le | apply Z.ltb_lt];
        assumption.
    + symmetry. destruct (Nat.lt_ge_cases len k) as [Hlt | Hge].
      * apply andb_false_intro1. apply Z.leb_gt.
        assert (10 ^ Z.of_nat len <= 10 ^ (Z.of_nat k - 1))
          by (apply Z.pow_le_mono_r; lia).
        lia.
      * apply andb_false_intro2. apply Z.ltb_ge.
        assert (10 ^ Z.of_nat k <= 10 ^ (Z.of_nat len - 1))
          by (apply Z.pow_le_mono_r; lia).
        lia.
Qed.

(** Month and day on two digits. *)
Lemma padStart2_spec (m : Z) :
  0 <= m <= 99 ->
  allDigits (padStart2 (Number_toString m)) = true
  /\ String.length (padStart2 (Number_toString m)) = 2%nat
  /\ valueOf 0 (padStart2 (Number_toString m)) = m.
Proof.
  intros Hm.
  destruct (Number_toString_nat m ltac:(lia)) as [ds [-> [Hd [Hv [H1 [H2 H3]]]]]].
  pose proof (digits_count m (String.length ds) 2 ltac:(lia) H1 H2 H3 ltac:(lia))
    as Hc.
  change (10 ^ (Z.of_nat 2 - 1)) with 10 in Hc.
  change (10 ^ Z.of_nat 2) with 100 in Hc.
  cbn [Nat.eqb andb] in Hc. rewrite orb_false_r in Hc.
  unfold padStart2.
  destruct (Z_lt_le_dec m 10) as [Hs | Hb].
  - rewrite (H1 Hs). cbn [append]. cbn [allDigits String.length valueOf].
    rewrite Hd, (H1 Hs). change (isDigit "0") with true.
    change (0 * 10 + digitValue "0") with 0. auto.
  - replace (10 <=? m) with true in Hc by (symmetry; apply Z.leb_le; lia).
    replace (m <? 100) with true in Hc by (symmetry; apply Z.ltb_lt; lia).
    apply Nat.eqb_eq in Hc. rewrite Hc. auto.
Qed.

(** What follows the year in the text of [fmt] is read back. *)
Lemma monthDay_written (m d : Z) :
  1 <= m <= 12 -> 1 <= d <= 31 ->
  monthDay (String "-" (padStart2 (Number_toString m) ++ "-"
                        ++ padStart2 (Number_toString d)))
  = Some (m, d).
Proof.
  intros Hm Hd.
  destruct (padStart2_spec m ltac:(lia)) as [Am [Lm Vm]].
  destruct (padStart2_spec d ltac:(lia)) as [Ad [Ld Vd]].
  unfold monthDay. change (Ascii.eqb "-" "-") with true. cbv iota.
  rewrite fixedNumber_app; [| assumption |].
  2:{ intros c r' Hr. cbn in Hr. injection Hr as <- _. reflexivity. }
  rewrite Lm, Vm. cbn [Nat.eqb].
  replace ((1 <=? m) && (m <=? 12)) with true
    by (symmetry; apply andb_true_intro; split; apply Z.leb_le; lia).
  cbn [append]. change (Ascii.eqb "-" "-") with true. cbv iota.
  rewrite <- (string_app_nil (padStart2 (Number_toString d))).
  rewrite fixedNumber_app; [| assumption | discriminate].
  rewrite Ld, Vd. cbn [Nat.eqb].
  replace ((1 <=? d) && (d <=? 31)) with true
    by (symmetry; apply andb_true_intro; split; apply Z.leb_le; lia).
  reflexivity.
Qed.

(** The text of [fmt] read back by [isoDay]: a year of four digits, or a
    negative year of six, gives the day again; any other year gives a text
    that is not a date. *)
Lemma isoDay_dayStr (n : Z) :
  isoDay (dayStr n)
  = let '(y, _, _) := civil n in
    if (1000 <=? y) && (y <=? 9999) || (- 999999 <=? y) && (y <=? - 100000)
    then Some n else None.
Proof.
  unfold dayStr. pose proof (ymd_civil n) as Hc.
  destruct (civil n) as [[y m] d]. destruct Hc as [Hn [Hm Hd]].
  pose proof (monthDay_written m d Hm Hd) as Hmd.
  set (rest := (padStart2 (Number_toString m) ++ "-"
                ++ padStart2 (Number_toString d))%string) in *.
  assert (Hrest : forall c r', String "-" rest = String c r' -> isDigit c = false).
  { intros c r' Hr. injection Hr as <- _. reflexivity. }
  destruct (Z_lt_le_dec y 0) as [Hneg | Hpos].
  - (* a negative year: a sign and the digits of [- y] *)
    unfold Number_toString at 1.
    replace (y <? 0) with true by (symmetry; apply Z.ltb_lt; lia).
    destruct (Number_toString_nat (- y) ltac:(lia))
      as [ds [He [Ad [Vd [H1 [H2 H3]]]]]].
    unfold Number_toString in He.
    replace (- y <? 0) with false in He by (symmetry; apply Z.ltb_ge; lia).
    rewrite He. cbn [append]. unfold isoDay.
    change (Ascii.eqb "-" "+" || Ascii.eqb "-" "-") with true. cbv iota.
    change ("-" ++ rest)%string with (String "-" rest).
    rewrite fixedNumber_app by assumption.
    rewrite (digits_count (- y) (String.length ds) 6 ltac:(lia) H1 H2 H3 ltac:(lia)).
    change (10 ^ (Z.of_nat 6 - 1)) with 100000.
    change (10 ^ Z.of_nat 6) with 1000000.
    cbn [Nat.eqb andb]. rewrite orb_false_r.
    replace ((1000 <=? y) && (y <=? 9999)) with false
      by (symmetry; apply andb_false_intro1; apply Z.leb_gt; lia).
    cbn [orb].
    destruct (Z_le_gt_dec 100000 (- y)) as [Hb | Hs].
    + destruct (Z_lt_le_dec (- y) 1000000) as [Hc | Hc].
      * replace (100000 <=? - y) with true by (symmetry; apply Z.leb_le; lia).
        replace (- y <? 1000000) with true by (symmetry; apply Z.ltb_lt; lia).
        replace (- 999999 <=? y) with true by (symmetry; apply Z.leb_le; lia).
        replace (y <=? - 100000) with true by (symmetry; apply Z.leb_le; lia).
        cbn [andb]. rewrite Vd.
        change (Ascii.eqb "-" "-") with true. cbn [andb].
        replace (- y =? 0) with false by (symmetry; apply Z.eqb_neq; lia).
        rewrite Hmd. replace (- - y) with y by lia. now rewrite Hn.
      * replace (- y <? 1000000) with false by (symmetry; apply Z.ltb_ge; lia).
        replace (- 999999 <=? y) with false by (symmetry; apply Z.leb_gt; lia).
        rewrite andb_false_r. reflexivity.
    + replace (100000 <=? - y) with false by (symmetry; apply Z.leb_gt; lia).
      replace (y <=? - 100000) with false by (symmetry; apply Z.leb_gt; lia).
      rewrite andb_false_r. reflexivity.
  - (* a year from 0 on: its digits *)
    destruct (Number_toString_nat y Hpos) as [ds [-> [Ad [Vd [H1 [H2 H3]]]]]].
    replace ((- 999999 <=? y) && (y <=? - 100000)) with false
      by (symmetry; apply andb_false_intro2; apply Z.leb_gt; lia).
    rewrite orb_false_r.
    change ("-" ++ rest)%string with (String "-" rest).
    destruct ds as [| c ds'].
    { cbn in H3. specialize (H1 ltac:(lia)). discriminate H1. }
    cbn [allDigits] in Ad. apply andb_prop in Ad. destruct Ad as [Ac Ad].
    destruct (isDigit_not_sign c Ac) as [Hp Hm'].
    cbn [append]. unfold isoDay. rewrite Hp, Hm'. cbn [orb].
    change (String c (ds' ++ String "-" rest))
      with (String c ds' ++ String "-" rest)%string.
    rewrite fixedNumber_app; [| cbn; now rewrite Ac, Ad | assumption].
    rewrite (digits_count y (String.length (String c ds')) 4
               ltac:(lia) H1 H2 H3 ltac:(lia)).
    change (10 ^ (Z.of_nat 4 - 1)) with 1000.
    change (10 ^ Z.of_nat 4) with 10000.
    cbn [Nat.eqb andb]. rewrite orb_false_r.
    replace (y <? 10000) with (y <=? 9999)
      by (destruct (Z.leb_spec y 9999), (Z.ltb_spec y 10000); lia || reflexivity).
    destruct ((1000 <=? y) && (y <=? 9999)); [| reflexivity].
    rewrite Vd, Hmd, Hn. reflexivity.
Qed.

(** A day whose year has four digits is written as a date that reads back
    as that day. *)
Lemma isoDay_dayStr_four (n : Z) :
  fourDigits n -> isoDay (dayStr n) = Some n.
Proof.
  intros H. rewrite isoDay_dayStr. pose proof (civil_four_digits n) as Hc.
  destruct (civil n) as [[y m] d]. destruct Hc as [Hc _].
  apply Hc in H.
  replace ((1000 <=? y) && (y <=? 9999)) with true
    by (symmetry; apply andb_true_intro; split; apply Z.leb_le; lia).
  reflexivity.
Qed.

(** Whatever [fmt] writes for the day [n] reads back as [n] or not at all. *)
Lemma isoDay_dayStr_sound (n k : Z) :
  isoDay (dayStr n) = Some k -> k = n.
Proof.
  rewrite isoDay_dayStr. destruct (civil n) as [[y m] d].
  destruct (_ || _); [congruence | discriminate].
Qed.


Example isoDay_NaN : isoDay "NaN-NaN-NaN" = None.
Proof. reflexivity. Qed.

End DateStrings.

(** ** The date helpers in a regular zone *)

Lemma Math_round_div_mul (k w : Z) : (0 < w -> Math_round_div (k * w) w = k)%Z.
Proof.
  intros Hw. unfold Math_round_div.
  symmetry. apply Z.div_unique with w; nia.
Qed.

(** Rounding absorbs less than half a unit. *)
Lemma Math_round_div_near (k q e : Z) :
  (0 < q -> - q <= 2 * e < q -> Math_round_div (k * q + e) q = k)%Z.
Proof.
  intros Hq He. unfold Math_round_div.
  symmetry. apply Z.div_unique with (2 * e + q)%Z; nia.
Qed.

Lemma fixedZone_regular (tzOffset : Z) :
  (- 1440 < tzOffset < 1440)%Z -> regularZone (fixedZone tzOffset).
Proof.
  intros H. constructor; cbn; intros.
  - f_equal. lia.
  - unfold MS_PER_DAY. cbn. lia.
  - unfold MS_PER_DAY, MS_PER_MINUTE. cbn. lia.
  - unfold MS_PER_DAY, MS_PER_MINUTE. lia.
Qed.

Lemma tokyo_regular : regularZone tokyo.
Proof. apply fixedZone_regular. lia. Qed.

Lemma goodDate_dayStr (n : Z) : fourDigits n -> goodDate (dayStr n).
Proof.
  intros H. unfold goodDate, dayNum. rewrite (isoDay_dayStr_four n H). auto.
Qed.

Lemma dayNum_dayStr (n : Z) : fourDigits n -> dayNum (dayStr n) = n.
Proof.
  intros H. unfold dayNum. now rewrite (isoDay_dayStr_four n H).
Qed.

Lemma goodDate_isoDay (s : DateStr) :
  goodDate s -> isoDay s = Some (dayNum s).
Proof.
  intros [H1 H2]. rewrite H2 at 1. now apply isoDay_dayStr_four.
Qed.

Section ZoneFacts.

Variable z : Zone.
Hypothesis Hz : regularZone z.

Local Open Scope Z_scope.

Lemma Day_mul (n : Z) : Day (n * MS_PER_DAY) = n.
Proof. unfold Day. apply Z.div_mul. discriminate. Qed.

Lemma Day_add (l k : Z) : Day (l + k * MS_PER_DAY) = Day l + k.
Proof. unfold Day. apply Z.div_add. discriminate. Qed.

Lemma Day_midnight (n : Z) : Day (LocalTime z (midnight z n)) = n.
Proof. unfold midnight. now rewrite (zone_day z Hz), Day_mul. Qed.

Lemma midnight_bounds (n : Z) :
  (n - 1) * MS_PER_DAY < midnight z n < (n + 1) * MS_PER_DAY.
Proof.
  unfold midnight. pose proof (zone_bound z Hz (n * MS_PER_DAY)). lia.
Qed.

(** Local midnights follow one another as the days do. *)
Lemma midnight_diff (n m : Z) :
  exists e, midnight z n - midnight z m = (n - m) * MS_PER_DAY + e
            /\ - MS_PER_DAY < 2 * e < MS_PER_DAY.
Proof.
  unfold midnight.
  pose proof (zone_drift z Hz (n * MS_PER_DAY) (m * MS_PER_DAY)) as H.
  exists ((UTC z (n * MS_PER_DAY) - n * MS_PER_DAY)
          - (UTC z (m * MS_PER_DAY) - m * MS_PER_DAY)).
  split; [lia |]. rewrite MS_PER_DAY_eq in *.
  change (86400000 / 2) with 43200000 in H. lia.
Qed.

Lemma midnight_lt (n m : Z) : midnight z n < midnight z m <-> n < m.
Proof.
  destruct (Z.eq_dec n m) as [-> | Hne]; [lia |].
  destruct (midnight_diff n m) as [e [He Hb]].
  rewrite MS_PER_DAY_eq in *. split; intros H; lia.
Qed.

Lemma midnight_le (n m : Z) : midnight z n <= midnight z m <-> n <= m.
Proof.
  destruct (Z.eq_dec n m) as [-> | Hne]; [lia |].
  destruct (midnight_diff n m) as [e [He Hb]].
  rewrite MS_PER_DAY_eq in *. split; intros H; lia.
Qed.

Lemma midnight_inj (n m : Z) : midnight z n = midnight z m -> n = m.
Proof.
  intros H. destruct (midnight_diff n m) as [e [He Hb]].
  rewrite MS_PER_DAY_eq in *. lia.
Qed.

Lemma midnight_ltb (n m : Z) : (midnight z n <? midnight z m) = (n <? m).
Proof.
  destruct (Z.ltb_spec n m) as [H | H].
  - apply Z.ltb_lt. now apply midnight_lt.
  - apply Z.ltb_ge. now apply midnight_le.
Qed.

Lemma midnight_gtb (n m : Z) : (midnight z n >? midnight z m) = (n >? m).
Proof. now rewrite !Z.gtb_ltb, midnight_ltb. Qed.

Lemma midnight_leb (n m : Z) : (midnight z n <=? midnight z m) = (n <=? m).
Proof.
  destruct (Z.leb_spec n m) as [H | H].
  - apply Z.leb_le. now apply midnight_le.
  - apply Z.leb_gt. now apply midnight_lt.
Qed.

Lemma midnight_geb (n m : Z) : (midnight z n >=? midnight z m) = (n >=? m).
Proof. now rewrite !Z.geb_leb, midnight_leb. Qed.

(** Within a hundred million days of the epoch less two, an instant is a
    time value. *)
Lemma timeClip_local (l : Z) :
  - 99999998 <= Day l <= 99999998 -> timeClip (UTC z l) = Some (UTC z l).
Proof.
  intros H. unfold timeClip.
  pose proof (zone_bound z Hz l) as Hb. unfold Day in H.
  rewrite MS_PER_DAY_eq in *.
  replace (Z.abs (UTC z l) <=? 8640000000000000) with true; [reflexivity |].
  symmetry. apply Z.leb_le. Z.div_mod_to_equations. lia.
Qed.

Lemma timeClip_midnight (n : Z) :
  - 99999998 <= n <= 99999998 -> timeClip (midnight z n) = Some (midnight z n).
Proof.
  intros H. apply timeClip_local. now rewrite Day_mul.
Qed.

Lemma fourDigits_range (n : Z) :
  fourDigits n -> - 99999998 <= n <= 99999998.
Proof. unfold fourDigits, FIRST_DAY, LAST_DAY. lia. Qed.

(** A date string that can be read is read as the local midnight of its
    day. *)
Lemma parseDate_Some (s : DateStr) (t : Z) :
  parseDate z s = Some t ->
  exists n, isoDay s = Some n /\ t = midnight z n.
Proof.
  unfold parseDate. destruct (isoDay s) as [n |]; [| discriminate].
  unfold timeClip. destruct (_ <=? _); [| discriminate].
  intros [= <-]. exists n. auto.
Qed.

Lemma parseDate_dayStr (n : Z) :
  fourDigits n -> parseDate z (dayStr n) = Some (midnight z n).
Proof.
  intros H. unfold parseDate. rewrite (isoDay_dayStr_four n H).
  apply timeClip_midnight. now apply fourDigits_range.
Qed.

Lemma parseDate_good (s : DateStr) :
  goodDate s -> parseDate z s = Some (midnight z (dayNum s)).
Proof.
  intros [H1 H2]. rewrite H2 at 1. now apply parseDate_dayStr.
Qed.

Lemma parseDate_NaN : parseDate z "NaN-NaN-NaN" = None.
Proof. reflexivity. Qed.


Lemma fmt_Some (t : Z) : fmt z (Some t) = dayStr (Day (LocalTime z t)).
Proof. reflexivity. Qed.

Lemma fmt_midnight (n : Z) : fmt z (Some (midnight z n)) = dayStr n.
Proof. unfold fmt. now rewrite Day_midnight. Qed.

(** [addDays] moves the local day by [n]. *)
Lemma addDays_Some (t k : Z) :
  - 99999998 <= Day (LocalTime z t) + k <= 99999998 ->
  exists t', addDays z (Some t) (Some k) = Some t'
             /\ Day (LocalTime z t') = Day (LocalTime z t) + k.
Proof.
  intros H. unfold addDays.
  rewrite timeClip_local by (now rewrite Day_add).
  eexists. split; [reflexivity |].
  now rewrite (zone_day z Hz), Day_add.
Qed.

Lemma fmt_addDays (t k : Z) :
  - 99999998 <= Day (LocalTime z t) + k <= 99999998 ->
  fmt z (addDays z (Some t) (Some k)) = dayStr (Day (LocalTime z t) + k).
Proof.
  intros H. destruct (addDays_Some t k H) as [t' [-> Hd]].
  unfold fmt. now rewrite Hd.
Qed.

Lemma fmt_addDays_midnight (n k : Z) :
  - 99999998 <= n + k <= 99999998 ->
  fmt z (addDays z (Some (midnight z n)) (Some k)) = dayStr (n + k).
Proof.
  intros H. rewrite fmt_addDays; rewrite Day_midnight; auto.
Qed.

Lemma fmt_addDays_NaN (d : option Z) : fmt z (addDays z d None) = "NaN-NaN-NaN"%string.
Proof. destruct d; reflexivity. Qed.

(** [diffInDays] counts calendar days. *)
Lemma diffInDays_Some (ta tb : Z) :
  fourDigits (Day (LocalTime z ta)) -> fourDigits (Day (LocalTime z tb)) ->
  diffInDays z (Some ta) (Some tb)
  = Some (Day (LocalTime z ta) - Day (LocalTime z tb)).
Proof.
  intros Ha Hb. unfold diffInDays, fmt.
  rewrite !parseDate_dayStr by assumption.
  cbn [num_sub Math_round_num]. f_equal.
  destruct (midnight_diff (Day (LocalTime z ta)) (Day (LocalTime z tb)))
    as [e [-> He]].
  apply Math_round_div_near; [reflexivity | lia].
Qed.

Lemma diffInDays_midnight (n m : Z) :
  fourDigits n -> fourDigits m ->
  diffInDays z (Some (midnight z n)) (Some (midnight z m)) = Some (n - m).
Proof.
  intros Hn Hm. rewrite diffInDays_Some; rewrite !Day_midnight; auto.
Qed.

Lemma clampDateStr_days (n a b : Z) :
  fourDigits n -> fourDigits a -> fourDigits b ->
  clampDateStr z (dayStr n) (dayStr a) (dayStr b) = dayStr (clampDay n a b).
Proof.
  intros Hn Ha Hb. unfold clampDateStr, clampDay.
  rewrite !parseDate_dayStr by assumption. cbn [num_lt num_gt].
  rewrite midnight_ltb, midnight_gtb.
  destruct (n <? a); [reflexivity |]. destruct (n >? b); reflexivity.
Qed.

Lemma clampDateStr_good (n : Z) (lo hi : DateStr) :
  fourDigits n -> goodDate lo -> goodDate hi ->
  clampDateStr z (dayStr n) lo hi
  = dayStr (clampDay n (dayNum lo) (dayNum hi)).
Proof.
  intros Hn Hlo Hhi. unfold clampDateStr, clampDay.
  rewrite (parseDate_dayStr n Hn), (parseDate_good lo Hlo),
    (parseDate_good hi Hhi).
  cbn [num_lt num_gt]. rewrite midnight_ltb, midnight_gtb.
  destruct (n <? dayNum lo); [apply Hlo |].
  destruct (n >? dayNum hi); [apply Hhi | reflexivity].
Qed.

(** An instant reached by [addDays] from a local midnight, against the
    local midnights of the other days. *)
Lemma addDays_midnight (n j : Z) :
  - 99999998 <= n + j <= 99999998 ->
  exists u, addDays z (Some (midnight z n)) (Some j) = Some u
            /\ Day (LocalTime z u) = n + j
            /\ (forall m, m < n + j -> midnight z m < u)
            /\ (forall m, n + j < m -> u < midnight z m).
Proof.
  intros H. destruct (addDays_Some (midnight z n) j) as [u [Hu Hd]].
  { now rewrite Day_midnight. }
  exists u. split; [assumption |]. rewrite Day_midnight in Hd.
  split; [assumption |].
  unfold addDays in Hu. rewrite timeClip_local in Hu.
  2:{ rewrite Day_add, Day_midnight. assumption. }
  injection Hu as <-.
  pose proof (zone_gap z Hz (n * MS_PER_DAY)) as Hg. fold (midnight z n) in Hg.
  set (l := LocalTime z (midnight z n) + j * MS_PER_DAY) in *.
  split; intros m Hm; unfold midnight;
    pose proof (zone_drift z Hz (m * MS_PER_DAY) l) as Hdr;
    subst l; rewrite MS_PER_DAY_eq in *;
    change (86400000 / 2) with 43200000 in *; lia.
Qed.

(** The guard of a resize of the left edge: a start on or after the day
    before the end is put on that day. *)
Lemma guard_left (n : Z) (e : DateStr) :
  fourDigits n -> goodDate e ->
  (if num_ge (parseDate z (dayStr n)) (addDays z (parseDate z e) (Some (-1)))
   then fmt z (addDays z (parseDate z e) (Some (-1))) else dayStr n)
  = dayStr (if n >=? dayNum e + -1 then dayNum e + -1 else n).
Proof.
  intros Hn He. rewrite (parseDate_dayStr n Hn), (parseDate_good e He).
  destruct He as [He _]. unfold fourDigits, FIRST_DAY, LAST_DAY in He.
  destruct (addDays_midnight (dayNum e) (-1) ltac:(lia))
    as [u [Hu [Hd [Hlo Hhi]]]].
  rewrite Hu. unfold fmt. rewrite Hd. cbn [num_ge].
  rewrite !Z.geb_leb.
  destruct (Z.leb_spec u (midnight z n)) as [H1 | H1];
    destruct (Z.leb_spec (dayNum e + -1) n) as [H2 | H2]; try reflexivity.
  - specialize (Hlo n H2). lia.
  - destruct (Z.eq_dec n (dayNum e + -1)) as [-> | Hne]; [reflexivity |].
    specialize (Hhi n ltac:(lia)). lia.
Qed.

(** The guard of a resize of the right edge. *)
Lemma guard_right (n : Z) (s : DateStr) :
  fourDigits n -> goodDate s ->
  (if num_le (parseDate z (dayStr n)) (addDays z (parseDate z s) (Some 1))
   then fmt z (addDays z (parseDate z s) (Some 1)) else dayStr n)
  = dayStr (if n <=? dayNum s + 1 then dayNum s + 1 else n).
Proof.
  intros Hn Hs. rewrite (parseDate_dayStr n Hn), (parseDate_good s Hs).
  destruct Hs as [Hs _]. unfold fourDigits, FIRST_DAY, LAST_DAY in Hs.
  destruct (addDays_midnight (dayNum s) 1 ltac:(lia))
    as [u [Hu [Hd [Hlo Hhi]]]].
  rewrite Hu. unfold fmt. rewrite Hd. cbn [num_le].
  destruct (Z.leb_spec (midnight z n) u) as [H1 | H1];
    destruct (Z.leb_spec n (dayNum s + 1)) as [H2 | H2]; try reflexivity.
  - specialize (Hhi n H2). lia.
  - destruct (Z.eq_dec n (dayNum s + 1)) as [-> | Hne]; [reflexivity |].
    specialize (Hlo n ltac:(lia)). lia.
Qed.

(** [dateToX] and [xToDate] on dates of the data model. *)
Lemma dateToX_days (minS : DateStr) (w : Z) (s : DateStr) :
  goodDate minS -> goodDate s ->
  dateToX z minS w s = Some ((dayNum s - dayNum minS) * w).
Proof.
  intros Hm Hs. unfold dateToX.
  rewrite (parseDate_good s Hs), (parseDate_good minS Hm).
  destruct Hm as [Hm _]. destruct Hs as [Hs _].
  now rewrite diffInDays_midnight.
Qed.

Lemma xToDate_days (minS : DateStr) (w k : Z) :
  0 < w -> goodDate minS ->
  - 99999998 <= dayNum minS + k <= 99999998 ->
  xToDate z minS w (Some (k * w)) = dayStr (dayNum minS + k).
Proof.
  intros Hw Hm Hr. unfold xToDate. cbn [Math_round_num].
  rewrite Math_round_div_mul by assumption.
  rewrite (parseDate_good minS Hm). now apply fmt_addDays_midnight.
Qed.

(** The date a drag reaches: the snapshot shifted by [ddays]. *)
Lemma xToDate_shift (minS : DateStr) (w : Z) (s : DateStr) (ddays : Z) :
  0 < w -> goodDate minS -> goodDate s ->
  - 99999998 <= dayNum s + ddays <= 99999998 ->
  xToDate z minS w (num_add (dateToX z minS w s) (Some (ddays * w)))
  = dayStr (dayNum s + ddays).
Proof.
  intros Hw Hm Hs Hr. rewrite (dateToX_days minS w s Hm Hs). cbn [num_add].
  replace ((dayNum s - dayNum minS) * w + ddays * w)
    with ((dayNum s - dayNum minS + ddays) * w) by ring.
  rewrite xToDate_days by (assumption || lia). f_equal. ring.
Qed.

End ZoneFacts.


Lemma clampDay_id (s min max : Z) :
  (min <= s <= max)%Z -> clampDay s min max = s.
Proof.
  intros H. unfold clampDay. rewrite Z.gtb_ltb.
  destruct (Z.ltb_spec s min), (Z.ltb_spec max s); lia.
Qed.

Lemma clampDay_range (s min max : Z) :
  (min <= max)%Z -> (min <= clampDay s min max <= max)%Z.
Proof.
  intros H. unfold clampDay. rewrite Z.gtb_ltb.
  destruct (Z.ltb_spec s min), (Z.ltb_spec max s); lia.
Qed.

Lemma clampDay_cases (s min max : Z) :
  clampDay s min max = s \/ clampDay s min max = min
  \/ clampDay s min max = max.
Proof.
  unfold clampDay. destruct (s <? min)%Z; [auto |].
  destruct (s >? max)%Z; auto.
Qed.

Lemma clampDay_fourDigits (s min max : Z) :
  fourDigits s -> fourDigits min -> fourDigits max ->
  fourDigits (clampDay s min max).
Proof.
  intros. destruct (clampDay_cases s min max) as [-> | [-> | ->]]; assumption.
Qed.

Lemma ZOOMS_pos (zoom : ZoomKey) : (0 < ZOOMS zoom)%Z.
Proof. destruct zoom; reflexivity. Qed.

(** ** [toggleDep] *)

Lemma mem_In (x : string) (l : list string) : mem x l = true <-> In x l.
Proof.
  unfold mem. rewrite existsb_exists. split.
  - intros [y [Hy He]]. apply String.eqb_eq in He. now subst.
  - intros H. exists x. split; [assumption | apply String.eqb_refl].
Qed.

Lemma mem_false (x : string) (l : list string) : mem x l = false <-> ~ In x l.
Proof.
  rewrite <- mem_In. destruct (mem x l); split; intros; congruence.
Qed.

(** C10. [toggleDep x x] leaves the task list as it is, and no call of
    [toggleDep] makes a task depend on itself: a task of the result that
    lists its own id already did so before the call. *)
Theorem toggleDep_no_self_edge (tasks : list Task) :
  (forall x, toggleDep x x tasks = tasks)
  /\ (forall from to t',
        In t' (toggleDep from to tasks) -> In (id t') (deps t') ->
        exists t, In t tasks /\ id t = id t' /\ In (id t) (deps t)).
Proof.
  split.
  - intros x. unfold toggleDep. now rewrite String.eqb_refl.
  - intros from to t' Hin Hself. unfold toggleDep in Hin.
    destruct (String.eqb_spec from to) as [-> | Hne].
    + exists t'. auto.
    + apply in_map_iff in Hin. destruct Hin as [t [Ht Hint]].
      destruct (String.eqb_spec (id t) to) as [Hto | Hto]; cbn in Ht.
      * subst t'. cbn in Hself. exists t. split; [assumption | split; [reflexivity |]].
        destruct (mem from (deps t)).
        -- apply filter_In in Hself. tauto.
        -- apply in_app_or in Hself. destruct Hself as [H | [H | []]]; [assumption |].
           congruence.
      * subst t'. exists t. auto.
Qed.

(** ** [Map] and [Set] *)

Section JsMapFacts.

Context {V : Type}.

Lemma map_get_set (k k' : string) (v : V) (m : JsMap V) :
  map_get k (map_set k' v m)
  = if String.eqb k k' then Some v else map_get k m.
Proof.
  induction m as [| [k0 v0] m IH]; cbn.
  - destruct (String.eqb_spec k k'); reflexivity.
  - destruct (String.eqb_spec k' k0) as [-> | Hne]; cbn.
    + destruct (String.eqb_spec k k0); reflexivity.
    + destruct (String.eqb_spec k k0) as [-> | Hne'].
      * destruct (String.eqb_spec k0 k'); [congruence | reflexivity].
      * apply IH.
Qed.

Lemma map_get_set_same (k : string) (v : V) (m : JsMap V) :
  map_get k (map_set k v m) = Some v.
Proof. now rewrite map_get_set, String.eqb_refl. Qed.

Lemma map_get_set_other (k k' : string) (v : V) (m : JsMap V) :
  k <> k' -> map_get k (map_set k' v m) = map_get k m.
Proof.
  intros H. rewrite map_get_set. destruct (String.eqb_spec k k'); congruence.
Qed.

Lemma map_has_set (k k' : string) (v : V) (m : JsMap V) :
  map_has k (map_set k' v m) = String.eqb k k' || map_has k m.
Proof.
  unfold map_has. rewrite map_get_set.
  destruct (String.eqb k k'); reflexivity.
Qed.

(** The keys stay without repetition. *)
Lemma map_set_keys (k : string) (v : V) (m : JsMap V) :
  map fst (map_set k v m)
  = if map_has k m then map fst m else map fst m ++ [k].
Proof.
  unfold map_has. induction m as [| [k0 v0] m IH]; cbn; [reflexivity |].
  destruct (String.eqb_spec k k0) as [-> | Hne]; cbn; [reflexivity |].
  rewrite IH. destruct (map_get k m); reflexivity.
Qed.

Lemma map_has_keys (k : string) (m : JsMap V) :
  map_has k m = true <-> In k (map fst m).
Proof.
  unfold map_has. induction m as [| [k0 v0] m IH]; cbn.
  - split; [discriminate | tauto].
  - destruct (String.eqb_spec k k0) as [-> | Hne].
    + split; auto.
    + rewrite IH. split; [auto | intros [H | H]; congruence].
Qed.

Lemma map_set_NoDup (k : string) (v : V) (m : JsMap V) :
  NoDup (map fst m) -> NoDup (map fst (map_set k v m)).
Proof.
  intros Hnd. rewrite map_set_keys. destruct (map_has k m) eqn:Hh; [assumption |].
  apply NoDup_app; [assumption | repeat constructor; intros [] | ].
  intros x Hx [<- | []]. apply map_has_keys in Hx. congruence.
Qed.

End JsMapFacts.

Lemma idToTask_fold (pid : string) (tasks : list Task) (m : JsMap Task) :
  map_get pid (fold_left (fun m e => map_set (fst e) (snd e) m)
                         (map (fun t => (id t, t)) tasks) m)
  = match lastWithId pid tasks with
    | Some p => Some p
    | None => map_get pid m
    end.
Proof.
  revert m. induction tasks as [| t tasks IH]; intros m; cbn; [reflexivity |].
  rewrite IH. destruct (lastWithId pid tasks); [reflexivity |].
  rewrite map_get_set. destruct (String.eqb pid (id t)); reflexivity.
Qed.

Lemma idToTask_get (pid : string) (tasks : list Task) :
  map_get pid (idToTask tasks) = lastWithId pid tasks.
Proof.
  unfold idToTask, map_of_entries. rewrite idToTask_fold.
  destruct (lastWithId pid tasks); reflexivity.
Qed.

Lemma lastWithId_In (pid : string) (tasks : list Task) (p : Task) :
  lastWithId pid tasks = Some p -> In p tasks /\ id p = pid.
Proof.
  induction tasks as [| t tasks IH]; cbn; [discriminate |].
  destruct (lastWithId pid tasks) as [q |].
  - intros [= <-]. destruct IH; auto.
  - destruct (String.eqb_spec pid (id t)); [| discriminate].
    intros [= <-]. auto.
Qed.

Lemma lastWithId_None (pid : string) (tasks : list Task) :
  lastWithId pid tasks = None <-> ~ In pid (map id tasks).
Proof.
  induction tasks as [| t tasks IH]; cbn; [tauto |].
  destruct (lastWithId pid tasks) as [q |].
  - split; [discriminate |]. intros H. exfalso.
    assert (Hq : ~ In pid (map id tasks)) by tauto.
    apply IH in Hq. discriminate.
  - destruct (String.eqb_spec pid (id t)) as [-> | Hne].
    + split; [discriminate | tauto].
    + split; [| reflexivity]. intros _ [H | H]; [congruence |].
      now apply (proj1 IH).
Qed.

Lemma lastWithId_NoDup (tasks : list Task) (t : Task) :
  NoDup (map id tasks) -> In t tasks -> lastWithId (id t) tasks = Some t.
Proof.
  induction tasks as [| u tasks IH]; intros Hnd Hin; [destruct Hin |].
  cbn in Hnd. inversion Hnd as [| ? ? Hnotin Hnd']; subst. cbn.
  destruct Hin as [-> | Hin].
  - assert (H : lastWithId (id t) tasks = None) by now apply lastWithId_None.
    rewrite H. now rewrite String.eqb_refl.
  - now rewrite IH.
Qed.

Lemma find_id_unique (tasks : list Task) (i : string) (task t : Task) :
  NoDup (map id tasks) ->
  find (fun u => String.eqb (id u) i) tasks = Some task ->
  In t tasks -> id t = i -> t = task.
Proof.
  induction tasks as [| u tasks IH]; intros Hnd Hfind Hin Hid; [destruct Hin |].
  cbn in Hfind, Hnd. inversion Hnd as [| ? ? Hnotin Hnd']; subst.
  destruct (String.eqb_spec (id u) (id t)) as [He | Hne].
  - injection Hfind as <-. destruct Hin as [-> | Hin]; [reflexivity |].
    exfalso. apply Hnotin. rewrite He. now apply in_map.
  - destruct Hin as [-> | Hin]; [congruence |]. now apply IH.
Qed.

(** ** [topoSort]: the graph and the in-degrees *)

Lemma countOf_cons (x y : string) (l : list string) :
  countOf x (y :: l) = ((if String.eqb x y then 1 else 0) + countOf x l)%nat.
Proof. unfold countOf. cbn. destruct (String.eqb x y); reflexivity. Qed.

Lemma countOf_app (x : string) (l l' : list string) :
  countOf x (l ++ l') = (countOf x l + countOf x l')%nat.
Proof. unfold countOf. now rewrite filter_app, length_app. Qed.

Lemma countOf_pos (x : string) (l : list string) :
  (0 < countOf x l)%nat <-> In x l.
Proof.
  induction l as [| y l IH]; [cbn; split; [lia | tauto] |].
  rewrite countOf_cons. destruct (String.eqb_spec x y) as [-> | Hne]; cbn.
  - split; [auto | lia].
  - rewrite IH. split; [auto | intros [H | H]; congruence].
Qed.

Lemma countOf_zero (x : string) (l : list string) :
  countOf x l = 0%nat <-> ~ In x l.
Proof. rewrite <- countOf_pos. lia. Qed.

Lemma countOf_le_length (x : string) (l : list string) :
  (countOf x l <= List.length l)%nat.
Proof. apply filter_length_le. Qed.

Lemma getd_set (n k : string) (v : Z) (m : JsMap Z) :
  getd n (map_set k v m) = if String.eqb n k then v else getd n m.
Proof. unfold getd. rewrite map_get_set. destruct (String.eqb n k); reflexivity. Qed.

Lemma succs_set (x k : string) (v : list string) (g : JsMap (list string)) :
  succs x (map_set k v g) = if String.eqb x k then v else succs x g.
Proof. unfold succs. rewrite map_get_set. destruct (String.eqb x k); reflexivity. Qed.

Lemma map_set_keys_has {V} (k : string) (v : V) (m : JsMap V) :
  map_has k m = true -> map fst (map_set k v m) = map fst m.
Proof. intros H. now rewrite map_set_keys, H. Qed.

Section ConstEntries.

Context {V : Type} (c : V).

Lemma const_entries_fold (ids : list string) (m : JsMap V) (k : string) :
  map_get k (fold_left (fun m e => map_set (fst e) (snd e) m)
                       (map (fun i => (i, c)) ids) m)
  = if mem k ids then Some c else map_get k m.
Proof.
  revert m. induction ids as [| i ids IH]; intros m; cbn; [reflexivity |].
  rewrite IH. fold (mem k ids). destruct (mem k ids); [now rewrite orb_true_r |].
  rewrite orb_false_r, map_get_set. reflexivity.
Qed.

Lemma const_entries_get (ids : list string) (k : string) :
  map_get k (map_of_entries (map (fun i => (i, c)) ids))
  = if mem k ids then Some c else None.
Proof. unfold map_of_entries. now rewrite const_entries_fold. Qed.

Lemma map_of_entries_NoDup (es : list (string * V)) :
  NoDup (map fst (map_of_entries es)).
Proof.
  unfold map_of_entries.
  assert (H : forall m, NoDup (map fst m) ->
            NoDup (map fst (fold_left (fun m e => map_set (fst e) (snd e) m) es m))).
  { induction es as [| e es IH]; intros m Hm; cbn; [assumption |].
    apply IH, map_set_NoDup, Hm. }
  apply H. constructor.
Qed.

End ConstEntries.

Section Build.

Variable ids : list string.

Local Open Scope Z_scope.

Lemma addEdge_spec (t : Task) (st : JsMap (list string) * JsMap Z) (p : string) :
  In (id t) ids -> buildKeys ids st ->
  buildKeys ids (addEdge t st p)
  /\ (forall x n,
        countOf n (succs x (fst (addEdge t st p)))
        = (countOf n (succs x (fst st))
           + if mem p ids && String.eqb x p && String.eqb n (id t)
             then 1 else 0)%nat)
  /\ (forall n,
        getd n (snd (addEdge t st p))
        = getd n (snd st)
          + if mem p ids && String.eqb n (id t) then 1 else 0).
Proof.
  intros Hid [Hg [Hd Hnd]]. unfold addEdge. rewrite Hg.
  destruct (mem p ids) eqn:Hp; unfold buildKeys; cbn [fst snd andb].
  - split; [split; [| split] |split].
    + intros q. rewrite map_has_set, Hg.
      destruct (String.eqb_spec q p) as [-> | Hne]; [now rewrite Hp | reflexivity].
    + intros n. rewrite map_has_set, Hd.
      destruct (String.eqb_spec n (id t)) as [-> | Hne]; [| reflexivity].
      cbn. symmetry. now apply mem_In.
    + now apply map_set_NoDup.
    + intros x n. rewrite succs_set.
      destruct (String.eqb_spec x p) as [-> | Hne]; cbn [andb].
      * rewrite countOf_app. unfold countOf at 2. cbn.
        destruct (String.eqb n (id t)); reflexivity.
      * lia.
    + intros n. rewrite getd_set.
      destruct (String.eqb_spec n (id t)) as [-> | Hne]; lia.
  - split; [now repeat split |]. split; intros; cbn; lia.
Qed.

Lemma addEdges_spec (t : Task) (ds : list string)
    (st : JsMap (list string) * JsMap Z) :
  In (id t) ids -> buildKeys ids st ->
  buildKeys ids (fold_left (addEdge t) ds st)
  /\ (forall x n,
        countOf n (succs x (fst (fold_left (addEdge t) ds st)))
        = (countOf n (succs x (fst st))
           + if String.eqb (id t) n
             then countOf x (filter (fun p => mem p ids) ds) else 0)%nat)
  /\ (forall n,
        getd n (snd (fold_left (addEdge t) ds st))
        = getd n (snd st)
          + if String.eqb (id t) n
            then Z.of_nat (List.length (filter (fun p => mem p ids) ds)) else 0).
Proof.
  intros Hid. revert st. induction ds as [| p ds IH]; intros st Hst; cbn [fold_left].
  - split; [assumption |]. split; intros; cbn; destruct (String.eqb (id t) n); lia.
  - destruct (addEdge_spec t st p Hid Hst) as [Hk [Hc Hd]].
    destruct (IH _ Hk) as [Hk' [Hc' Hd']]. split; [assumption |]. split.
    + intros x n. rewrite Hc', Hc. cbn [filter].
      rewrite (String.eqb_sym n (id t)).
      destruct (mem p ids); rewrite ?countOf_cons;
        destruct (String.eqb (id t) n); destruct (String.eqb x p);
        cbn [andb]; lia.
    + intros n. rewrite Hd', Hd. cbn [filter].
      rewrite (String.eqb_sym n (id t)).
      destruct (String.eqb (id t) n); destruct (mem p ids); cbn [andb List.length]; lia.
Qed.

Lemma build_spec (l : list Task) (st : JsMap (list string) * JsMap Z) :
  (forall t, In t l -> In (id t) ids) -> buildKeys ids st ->
  buildKeys ids (fold_left addEdges l st)
  /\ (forall x n,
        countOf n (succs x (fst (fold_left addEdges l st)))
        = (countOf n (succs x (fst st)) + countOf x (rdepsOf ids l n))%nat)
  /\ (forall n,
        getd n (snd (fold_left addEdges l st))
        = getd n (snd st) + Z.of_nat (List.length (rdepsOf ids l n))).
Proof.
  revert st. induction l as [| t l IH]; intros st Hl Hst; cbn [fold_left].
  - split; [assumption |]. split; intros; cbn; lia.
  - assert (Hid : In (id t) ids) by (apply Hl; now left).
    destruct (addEdges_spec t (deps t) st Hid Hst) as [Hk [Hc Hd]].
    destruct (IH (addEdges st t)) as [Hk' [Hc' Hd']];
      [intros; apply Hl; now right | exact Hk |].
    split; [assumption |]. split.
    + intros x n. rewrite Hc'. unfold addEdges. rewrite Hc.
      unfold rdepsOf. cbn [flat_map]. rewrite countOf_app.
      destruct (String.eqb (id t) n); cbn; lia.
    + intros n. rewrite Hd'. unfold addEdges. rewrite Hd.
      unfold rdepsOf. cbn [flat_map]. rewrite length_app.
      destruct (String.eqb (id t) n); cbn [List.length]; lia.
Qed.

End Build.

(** The graph and the in-degrees that [topoSort] starts the loop with. *)
Lemma buildGraph_spec (tasks : list Task) :
  let g := buildGraph tasks in
  (forall x n, countOf n (succs x (fst g)) = countOf x (rdeps tasks n))
  /\ (forall n, getd n (snd g) = Z.of_nat (List.length (rdeps tasks n)))
  /\ (forall n, map_has n (snd g) = mem n (map id tasks))
  /\ NoDup (map fst (snd g)).
Proof.
  unfold buildGraph. cbv zeta.
  set (ids := map id tasks).
  set (st0 := (map_of_entries (map (fun i => (i, @nil string)) ids),
               map_of_entries (map (fun i => (i, 0%Z)) ids))).
  assert (H0 : buildKeys ids st0).
  { unfold buildKeys, st0, map_has; cbn [fst snd]. repeat split.
    - intros p. rewrite const_entries_get. destruct (mem p ids); reflexivity.
    - intros p. rewrite const_entries_get. destruct (mem p ids); reflexivity.
    - apply map_of_entries_NoDup. }
  destruct (build_spec ids tasks st0) as [[_ [Hk Hnd]] [Hc Hd]]; [| exact H0 |].
  { intros t Ht. unfold ids. now apply in_map. }
  repeat split; try assumption.
  - intros x n. rewrite Hc. unfold st0, succs; cbn [fst].
    rewrite const_entries_get. destruct (mem x ids); reflexivity.
  - intros n. rewrite Hd. unfold st0, getd; cbn [snd].
    rewrite const_entries_get. destruct (mem n ids); reflexivity.
Qed.

(** ** [topoSort]: the loop *)

Lemma rdepsOf_In (ids : list string) (l : list Task) (p n : string) :
  In p (rdepsOf ids l n)
  <-> exists t, In t l /\ id t = n /\ In p (deps t) /\ In p ids.
Proof.
  unfold rdepsOf. rewrite in_flat_map. split.
  - intros [t [Ht Hp]]. destruct (String.eqb_spec (id t) n); [| destruct Hp].
    apply filter_In in Hp. destruct Hp as [Hp Hm]. apply mem_In in Hm.
    exists t. auto.
  - intros [t [Ht [Hn [Hp Hi]]]]. exists t. split; [assumption |].
    subst n. rewrite String.eqb_refl. apply filter_In. split; [assumption |].
    now apply mem_In.
Qed.

Lemma rdeps_edge (tasks : list Task) (p n : string) :
  In p (rdeps tasks n) <-> edge tasks p n.
Proof. unfold rdeps, edge. apply rdepsOf_In. Qed.

Lemma edge_ids (tasks : list Task) (p n : string) :
  edge tasks p n -> In p (map id tasks) /\ In n (map id tasks).
Proof.
  intros [t [Ht [Hn [_ Hp]]]]. split; [assumption |].
  subst n. now apply in_map.
Qed.

Section Relax.

Local Open Scope Z_scope.

Lemma relax_eq (st : JsMap Z * list string) (n : string) :
  relax st n
  = (map_set n (getd n (fst st) - 1) (fst st),
     if getd n (fst st) - 1 =? 0 then snd st ++ [n] else snd st).
Proof.
  unfold relax. rewrite map_get_set_same.
  destruct (getd n (fst st) - 1); reflexivity.
Qed.

(** One pass over the successors of the node taken from the queue. *)
Lemma relax_fold (ss : list string) (d : JsMap Z) (q : list string) :
  (forall n, In n ss -> Z.of_nat (countOf n ss) <= getd n d) ->
  let r := fold_left relax ss (d, q) in
  (forall n, getd n (fst r) = getd n d - Z.of_nat (countOf n ss))
  /\ exists news,
       snd r = q ++ news /\ NoDup news
       /\ forall n, In n news <-> In n ss /\ getd n (fst r) = 0.
Proof.
  revert d q. induction ss as [| m ss IH]; intros d q Hpre; cbn [fold_left].
  - cbn. split; [intros; lia |]. exists []. rewrite app_nil_r.
    split; [reflexivity |]. split; [constructor |]. cbn. tauto.
  - rewrite relax_eq. cbn [fst snd].
    set (d1 := map_set m (getd m d - 1) d).
    assert (Hd1 : forall n, getd n d1
                    = getd n d - if String.eqb n m then 1 else 0).
    { intros n. unfold d1. rewrite getd_set.
      destruct (String.eqb_spec n m) as [-> | ?]; lia. }
    assert (Hpre1 : forall n, In n ss -> Z.of_nat (countOf n ss) <= getd n d1).
    { intros n Hn. rewrite Hd1. specialize (Hpre n (or_intror Hn)).
      rewrite countOf_cons in Hpre. destruct (String.eqb n m); lia. }
    assert (Hm : Z.of_nat (countOf m ss) <= getd m d1).
    { rewrite Hd1, String.eqb_refl. specialize (Hpre m (or_introl eq_refl)).
      rewrite countOf_cons, String.eqb_refl in Hpre. lia. }
    destruct (IH d1 (if getd m d - 1 =? 0 then q ++ [m] else q) Hpre1)
      as [Hget [news [Hq [Hnd Hnews]]]].
    set (r := fold_left relax ss
                (d1, if getd m d - 1 =? 0 then q ++ [m] else q)) in *.
    assert (Hget' : forall n, getd n (fst r)
                      = getd n d - Z.of_nat (countOf n (m :: ss))).
    { intros n. rewrite Hget, Hd1, countOf_cons.
      destruct (String.eqb n m); lia. }
    split; [exact Hget' |].
    assert (Hm1 : getd m d1 = getd m d - 1)
      by (rewrite Hd1, String.eqb_refl; reflexivity).
    destruct (Z.eqb_spec (getd m d - 1) 0) as [Hz | Hnz].
    + (* [m] reaches zero and is pushed *)
      assert (Hnot : ~ In m ss).
      { apply countOf_zero. lia. }
      exists (m :: news). split; [rewrite Hq, <- app_assoc; reflexivity |].
      split.
      * constructor; [| assumption]. intros H. apply Hnews in H. tauto.
      * intros n. cbn [In]. rewrite Hnews. split.
        -- intros [<- | [Hn Hz']]; [| auto].
           split; [auto |]. rewrite Hget. apply countOf_zero in Hnot. lia.
        -- intros [[<- | Hn] Hz']; auto.
    + exists news. split; [assumption |]. split; [assumption |].
      intros n. rewrite Hnews. cbn [In]. split; [tauto |].
      intros [[<- | Hn] Hz']; [| auto]. split; [| assumption].
      apply countOf_pos. rewrite Hget in Hz'. lia.
Qed.

End Relax.

Lemma mem_app (x : string) (l l' : list string) :
  mem x (l ++ l') = mem x l || mem x l'.
Proof. unfold mem. apply existsb_app. Qed.

Lemma pending_snoc_gen (out l : list string) (x : string) :
  ~ In x out ->
  List.length (filter (fun p => negb (mem p out)) l)
  = (List.length (filter (fun p => negb (mem p (out ++ [x]))) l)
     + countOf x l)%nat.
Proof.
  intros Hx. induction l as [| p l IH]; [reflexivity |].
  cbn [filter]. rewrite countOf_cons, mem_app. cbn [mem existsb].
  rewrite orb_false_r, (String.eqb_sym p x).
  destruct (mem p out) eqn:Hp; cbn [negb orb].
  - destruct (String.eqb_spec x p) as [-> | Hne].
    + apply mem_In in Hp. contradiction.
    + cbn. lia.
  - destruct (String.eqb x p); cbn [negb List.length]; lia.
Qed.

Lemma pending_snoc (tasks : list Task) (out : list string) (x n : string) :
  ~ In x out ->
  List.length (pending tasks out n)
  = (List.length (pending tasks (out ++ [x]) n) + countOf x (rdeps tasks n))%nat.
Proof. apply pending_snoc_gen. Qed.

Lemma pending_nil (tasks : list Task) (out : list string) (n p : string) :
  List.length (pending tasks out n) = 0%nat ->
  edge tasks p n -> In p out.
Proof.
  intros Hlen He. apply rdeps_edge in He.
  destruct (mem p out) eqn:Hm; [now apply mem_In |].
  exfalso. apply length_zero_iff_nil in Hlen.
  assert (Hin : In p (pending tasks out n)).
  { apply filter_In. split; [assumption | now rewrite Hm]. }
  rewrite Hlen in Hin. destruct Hin.
Qed.

Lemma pending_pos (tasks : list Task) (out : list string) (n : string) :
  (0 < List.length (pending tasks out n))%nat ->
  exists p, edge tasks p n /\ ~ In p out.
Proof.
  destruct (pending tasks out n) as [| p l] eqn:Hp; [cbn; lia |]. intros _.
  assert (Hin : In p (pending tasks out n)) by (rewrite Hp; now left).
  apply filter_In in Hin. destruct Hin as [Hr Hm].
  exists p. split; [now apply rdeps_edge |].
  apply mem_false. now destruct (mem p out).
Qed.

Lemma topoOrdered_nil (tasks : list Task) : topoOrdered tasks [].
Proof. intros [| a l1] n l2 H; discriminate. Qed.

Lemma topoOrdered_snoc (tasks : list Task) (out : list string) (x : string) :
  topoOrdered tasks out ->
  (forall p, edge tasks p x -> In p out) ->
  topoOrdered tasks (out ++ [x]).
Proof.
  intros Hout Hx l1 n l2 Heq p Hp.
  destruct l2 as [| b l2] using rev_ind.
  - apply (app_inj_tail out l1 x n) in Heq. destruct Heq as [-> ->]. auto.
  - clear IHl2. rewrite app_comm_cons, app_assoc in Heq.
    apply app_inj_tail in Heq. destruct Heq as [Heq _].
    apply (Hout l1 n l2 Heq p Hp).
Qed.

Section Loop.

Variable tasks : list Task.
Variable graph : JsMap (list string).

Local Open Scope Z_scope.

Lemma kahn_step (indeg : JsMap Z) (x : string) (q out : list string) :
  kahnInv tasks graph indeg (x :: q) out ->
  let r := fold_left relax (succs x graph) (indeg, q) in
  kahnInv tasks graph (fst r) (snd r) (out ++ [x]).
Proof.
  intros [Hg Hd Hz Hnd Ht] r.
  assert (Hx : In x (map id tasks) /\ getd x indeg = 0).
  { apply Hz. apply in_or_app. right. now left. }
  assert (Hxout : ~ In x out).
  { apply NoDup_remove_2 in Hnd. intros H. apply Hnd.
    apply in_or_app. now left. }
  assert (Hsplit : forall n, getd n indeg
             = Z.of_nat (List.length (pending tasks (out ++ [x]) n))
               + Z.of_nat (countOf n (succs x graph))).
  { intros n. rewrite Hd, Hg, (pending_snoc tasks out x n Hxout). lia. }
  destruct (relax_fold (succs x graph) indeg q) as [Hget [news [Hq [Hnn Hnews]]]].
  { intros n _. rewrite (Hsplit n). lia. }
  fold r in Hget, Hq, Hnews.
  assert (Hold : forall n, In n (out ++ x :: q) -> ~ In n (succs x graph)).
  { intros n Hn Hs. apply Hz in Hn. apply countOf_pos in Hs.
    specialize (Hsplit n). lia. }
  assert (Happ : (out ++ [x]) ++ q ++ news = (out ++ x :: q) ++ news).
  { rewrite <- !app_assoc. reflexivity. }
  constructor.
  - exact Hg.
  - intros n. rewrite Hget, (Hsplit n). lia.
  - intros n. rewrite Hq, Happ, in_app_iff, Hnews. split.
    + intros [Hn | [Hn Hzero]].
      * pose proof (Hold n Hn) as Hs. apply countOf_zero in Hs.
        apply Hz in Hn. destruct Hn as [Hi Hzero]. split; [assumption |].
        rewrite Hget. lia.
      * split; [| assumption].
        apply countOf_pos in Hn. rewrite Hg in Hn. apply countOf_pos in Hn.
        apply rdeps_edge in Hn. now apply edge_ids in Hn.
    + intros [Hi Hzero].
      destruct (in_dec string_dec n (succs x graph)) as [Hs | Hs]; [auto |].
      left. apply Hz. split; [assumption |].
      apply countOf_zero in Hs. rewrite Hget in Hzero. lia.
  - rewrite Hq, Happ. apply NoDup_app; [assumption | assumption |].
    intros n Hn Hin. apply Hnews in Hin. now apply (Hold n Hn).
  - apply topoOrdered_snoc; [assumption |].
    intros p Hp. apply (pending_nil tasks out x p); [| assumption].
    destruct Hx as [_ Hx0]. rewrite Hd in Hx0. lia.
Qed.

(** The loop ends with the fuel it is given, on a state with an empty
    queue. *)
Lemma kahn_run (fuel : nat) :
  forall (indeg : JsMap Z) (q out : list string),
  kahnInv tasks graph indeg q out ->
  (List.length (map id tasks) <= fuel + List.length out)%nat ->
  exists out' indeg',
    kahn fuel graph (indeg, q) out = Some out'
    /\ kahnInv tasks graph indeg' [] out'.
Proof.
  induction fuel as [| fuel IH]; intros indeg q out Hinv Hfuel.
  - destruct q as [| x q].
    + exists out, indeg. split; [reflexivity | assumption].
    + exfalso.
      assert (Hlen : (List.length (out ++ x :: q)
                      <= List.length (map id tasks))%nat).
      { apply NoDup_incl_length; [apply Hinv |].
        intros n Hn. now apply (inv_zero _ _ _ _ _ Hinv). }
      rewrite length_app in Hlen. cbn in Hlen, Hfuel. lia.
  - destruct q as [| x q].
    + exists out, indeg. split; [reflexivity | assumption].
    + cbn [kahn snd fst].
      pose proof (kahn_step indeg x q out Hinv) as Hstep. cbv zeta in Hstep.
      destruct (fold_left relax (succs x graph) (indeg, q)) as [indeg1 q1] eqn:Hr.
      cbn [fst snd] in Hstep.
      apply (IH indeg1 q1 (out ++ [x]) Hstep).
      rewrite length_app. cbn. lia.
Qed.

End Loop.

Lemma map_get_In {V} (m : JsMap V) (k : string) (v : V) :
  NoDup (map fst m) -> (In (k, v) m <-> map_get k m = Some v).
Proof.
  induction m as [| [k0 v0] m IH]; intros Hnd; cbn.
  - split; [tauto | discriminate].
  - cbn in Hnd. inversion Hnd as [| ? ? Hnot Hnd']; subst.
    destruct (String.eqb_spec k k0) as [-> | Hne].
    + split.
      * intros [[= <-] | H]; [reflexivity |].
        exfalso. apply Hnot. change k0 with (fst (k0, v)). now apply in_map.
      * intros [= <-]. now left.
    + rewrite <- (IH Hnd'). split; [intros [[= <- <-] | H]; [congruence | assumption] | auto].
Qed.

Lemma filter_keys_NoDup {V} (f : string * V -> bool) (m : JsMap V) :
  NoDup (map fst m) -> NoDup (map fst (filter f m)).
Proof.
  induction m as [| e m IH]; intros Hnd; cbn; [constructor |].
  cbn in Hnd. inversion Hnd as [| ? ? Hnot Hnd']; subst.
  destruct (f e); cbn; [| auto]. constructor; [| auto].
  intros H. apply Hnot. apply in_map_iff in H. destruct H as [e' [He Hin]].
  apply filter_In in Hin. rewrite <- He. apply in_map. tauto.
Qed.

(** The state [topoSort] enters the loop with. *)
Lemma kahn_initial (tasks : list Task) :
  let g := buildGraph tasks in
  kahnInv tasks (fst g) (snd g) (initialQueue (snd g)) [].
Proof.
  intros g. destruct (buildGraph_spec tasks) as [Hc [Hd [Hk Hnd]]]. fold g in Hc, Hd, Hk, Hnd.
  constructor.
  - exact Hc.
  - intros n. rewrite Hd. unfold pending. f_equal. f_equal.
    symmetry. apply forallb_filter_id. apply forallb_forall. reflexivity.
  - intros n. cbn [app]. unfold initialQueue. rewrite in_map_iff. split.
    + intros [[k v] [Hfst Hin]]. cbn in Hfst. subst k.
      apply filter_In in Hin. destruct Hin as [Hin Hv]. cbn in Hv.
      apply Z.eqb_eq in Hv. subst v.
      apply (map_get_In _ _ _ Hnd) in Hin. split.
      * apply mem_In. rewrite <- Hk. unfold map_has. now rewrite Hin.
      * unfold getd. now rewrite Hin.
    + intros [Hi Hz]. apply mem_In in Hi. rewrite <- Hk in Hi.
      unfold map_has in Hi. unfold getd in Hz.
      destruct (map_get n (snd g)) as [v |] eqn:Hget; [| discriminate].
      subst v. exists (n, 0%Z). split; [reflexivity |].
      apply filter_In. split; [now apply (map_get_In _ _ _ Hnd) | reflexivity].
  - cbn [app]. now apply filter_keys_NoDup.
  - apply topoOrdered_nil.
Qed.

(** What the loop returns. *)
Lemma kahn_result (tasks : list Task) :
  let g := buildGraph tasks in
  exists out indeg,
    kahn (List.length (map id tasks)) (fst g) (snd g, initialQueue (snd g)) []
    = Some out
    /\ kahnInv tasks (fst g) indeg [] out.
Proof.
  intros g. apply kahn_run; [apply kahn_initial | cbn; lia].
Qed.

(** [topoSort] always returns. *)
Lemma topoSort_total (tasks : list Task) :
  exists order, topoSort tasks = Some order.
Proof.
  destruct (kahn_result tasks) as [out [indeg [Hk _]]].
  unfold topoSort. cbv zeta. rewrite Hk. eauto.
Qed.

(** ** [topoSort]: the result *)

Lemma path_ids (tasks : list Task) (p n : string) :
  path tasks p n -> In p (map id tasks) /\ In n (map id tasks).
Proof.
  induction 1 as [p n He | p m n He _ [_ IH]].
  - now apply edge_ids.
  - split; [| assumption]. now apply edge_ids in He.
Qed.

(** In an ordered list every ancestor of an element comes before it. *)
Lemma topoOrdered_path (tasks : list Task) (order : list string) (p n : string) :
  topoOrdered tasks order -> path tasks p n ->
  forall l1 l2, order = l1 ++ n :: l2 -> In p l1.
Proof.
  intros Ht. induction 1 as [p n He | p m n He _ IH]; intros l1 l2 Heq.
  - apply (Ht l1 n l2 Heq p He).
  - specialize (IH l1 l2 Heq). apply in_split in IH.
    destruct IH as [la [lb ->]]. rewrite <- app_assoc in Heq. cbn in Heq.
    apply in_or_app. left. apply (Ht la m _ Heq p He).
Qed.

Lemma cycle_not_output (tasks : list Task) (order : list string) (x : string) :
  NoDup order -> topoOrdered tasks order -> path tasks x x -> ~ In x order.
Proof.
  intros Hnd Ht Hp Hin. apply in_split in Hin. destruct Hin as [l1 [l2 Heq]].
  pose proof (topoOrdered_path tasks order x x Ht Hp l1 l2 Heq) as Hl1.
  subst order. apply NoDup_remove_2 in Hnd. apply Hnd.
  apply in_or_app. now left.
Qed.

(** Without cycle every node that is left out has an ancestor that is left
    out; following them would run through more nodes than there are. *)
Lemma ancestors_exhaust (tasks : list Task) (S : string -> Prop) :
  acyclic tasks ->
  (forall n, S n -> In n (map id tasks)) ->
  (forall n, S n -> exists p, edge tasks p n /\ S p) ->
  forall (k : nat) (visited : list string) (n : string),
    (List.length (map id tasks) <= List.length visited + k)%nat ->
    NoDup visited ->
    (forall v, In v visited -> In v (map id tasks)) ->
    (forall v, In v visited -> path tasks n v) ->
    S n -> False.
Proof.
  intros Hac Hids Hpred. induction k as [| k IH]; intros visited n Hlen Hnd Hin Hreach Hn.
  - assert (Hn' : ~ In n visited) by (intros H; apply (Hac n), Hreach, H).
    assert (Hle : (List.length (n :: visited) <= List.length (map id tasks))%nat).
    { apply NoDup_incl_length; [now constructor |].
      intros v [<- | Hv]; auto. }
    cbn in Hle. lia.
  - destruct (Hpred n Hn) as [p [He Hp]].
    assert (Hn' : ~ In n visited) by (intros H; apply (Hac n), Hreach, H).
    apply (IH (n :: visited) p); try assumption.
    + cbn. lia.
    + now constructor.
    + intros v [<- | Hv]; auto.
    + intros v [<- | Hv]; [now apply path_edge |].
      eapply path_step; [exact He | auto].
Qed.

Lemma acyclic_all_output (tasks : list Task) (graph : JsMap (list string))
    (indeg : JsMap Z) (out : list string) :
  acyclic tasks -> kahnInv tasks graph indeg [] out ->
  forall n, In n (map id tasks) -> In n out.
Proof.
  intros Hac Hinv n Hn.
  destruct (in_dec string_dec n out) as [Hin | Hout]; [assumption |].
  exfalso.
  apply (ancestors_exhaust tasks
           (fun m => In m (map id tasks) /\ ~ In m out) Hac)
    with (k := List.length (map id tasks)) (visited := []) (n := n);
    try (cbn; auto; fail).
  - tauto.
  - intros m [Hm Hmo].
    assert (Hpos : (0 < List.length (pending tasks out m))%nat).
    { destruct (List.length (pending tasks out m)) eqn:Hl; [| lia].
      exfalso. apply Hmo.
      pose proof (inv_zero _ _ _ _ _ Hinv m) as Hz. rewrite app_nil_r in Hz.
      apply Hz. split; [assumption |].
      rewrite (inv_indeg _ _ _ _ _ Hinv), Hl. reflexivity. }
    destruct (pending_pos tasks out m Hpos) as [p [He Hp]].
    exists p. split; [assumption |]. split; [| assumption].
    now apply edge_ids in He.
  - constructor.
  - intros v [].
  - intros v [].
Qed.

Lemma kahn_out_ids (tasks : list Task) (graph : JsMap (list string))
    (indeg : JsMap Z) (out : list string) :
  kahnInv tasks graph indeg [] out ->
  NoDup out /\ forall n, In n out -> In n (map id tasks).
Proof.
  intros Hinv. pose proof (inv_nodup _ _ _ _ _ Hinv) as Hnd.
  rewrite app_nil_r in Hnd. split; [assumption |].
  intros n Hn. apply (inv_zero _ _ _ _ _ Hinv n). now rewrite app_nil_r.
Qed.

Lemma topoOrdered_index (tasks : list Task) (order : list string) :
  NoDup order -> topoOrdered tasks order ->
  forall i j p n, edge tasks p n ->
    nth_error order i = Some p -> nth_error order j = Some n -> (i < j)%nat.
Proof.
  intros Hnd Ht i j p n He Hi Hj.
  destruct (nth_error_split order j Hj) as [l1 [l2 [Heq Hlen]]].
  pose proof (Ht l1 n l2 Heq p He) as Hp.
  apply In_nth_error in Hp. destruct Hp as [i' Hi'].
  assert (Hlt : (i' < List.length l1)%nat).
  { apply nth_error_Some. congruence. }
  assert (Hi'' : nth_error order i' = Some p).
  { rewrite Heq, nth_error_app1 by assumption. assumption. }
  assert (i = i').
  { apply (proj1 (NoDup_nth_error order) Hnd).
    - apply nth_error_Some. congruence.
    - congruence. }
  lia.
Qed.

(** C3. For a list with distinct ids and no cycle among its resolvable
    predecessor edges, [topoSort] returns a permutation of the ids in which
    the predecessor of every edge stands at a smaller index than the
    successor. *)
Theorem topoSort_acyclic (tasks : list Task) :
  NoDup (map id tasks) -> acyclic tasks ->
  exists order,
    topoSort tasks = Some order
    /\ Permutation order (map id tasks)
    /\ forall i j p n, edge tasks p n ->
         nth_error order i = Some p -> nth_error order j = Some n ->
         (i < j)%nat.
Proof.
  intros Hnd Hac.
  destruct (kahn_result tasks) as [out [indeg [Hk Hinv]]].
  destruct (kahn_out_ids _ _ _ _ Hinv) as [Hout Hincl].
  assert (Hperm : Permutation out (map id tasks)).
  { apply NoDup_Permutation; try assumption.
    intros n. split; [apply Hincl | apply (acyclic_all_output _ _ _ _ Hac Hinv)]. }
  exists out. split; [| split].
  - unfold topoSort. cbv zeta. rewrite Hk.
    rewrite (Permutation_length Hperm), Nat.eqb_refl. reflexivity.
  - exact Hperm.
  - apply topoOrdered_index; [assumption | apply Hinv].
Qed.

(** C4. For a list whose resolvable predecessor edges contain a cycle,
    [topoSort] returns the ids of the list in the order of the list. *)
Theorem topoSort_cycle_fallback (tasks : list Task) :
  hasCycle tasks -> topoSort tasks = Some (map id tasks).
Proof.
  intros [x Hx].
  destruct (kahn_result tasks) as [out [indeg [Hk Hinv]]].
  destruct (kahn_out_ids _ _ _ _ Hinv) as [Hout Hincl].
  pose proof (cycle_not_output tasks out x Hout (inv_topo _ _ _ _ _ Hinv) Hx) as Hnot.
  assert (Hlen : (List.length (x :: out) <= List.length (map id tasks))%nat).
  { apply NoDup_incl_length; [now constructor |].
    intros v [<- | Hv]; [now apply path_ids in Hx | auto]. }
  unfold topoSort. cbv zeta. rewrite Hk.
  replace (Nat.eqb (List.length out) (List.length (map id tasks))) with false;
    [reflexivity |].
  symmetry. apply Nat.eqb_neq. cbn in Hlen. lia.
Qed.

(** Edges ranked upwards cannot close a cycle. *)
Lemma ranked_acyclic (tasks : list Task) (rank : string -> nat) :
  (forall p n, edge tasks p n -> (rank p < rank n)%nat) -> acyclic tasks.
Proof.
  intros Hr.
  assert (H : forall p n, path tasks p n -> (rank p < rank n)%nat).
  { induction 1 as [p n He | p m n He _ IH].
    - auto.
    - specialize (Hr p m He). lia. }
  intros x Hx. specialize (H x x Hx). lia.
Qed.

Lemma reversed_tasks_acyclic : acyclic reversed_tasks.
Proof.
  apply (ranked_acyclic _ (fun s => if String.eqb s "X" then 0%nat else 1%nat)).
  intros p n [t [Ht [Hn [Hp _]]]].
  destruct Ht as [<- | [<- | []]]; cbn in Hn, Hp.
  - destruct Hp as [<- | []]. subst n. cbn. lia.
  - destruct Hp.
Qed.

Lemma cycle_tasks_hasCycle : hasCycle cycle_tasks.
Proof.
  exists "A". apply path_step with (m := "B").
  - exists (mkTask "B" "b" "2024-01-02" "2024-01-04" None ["A"]).
    cbn. intuition.
  - apply path_edge.
    exists (mkTask "A" "a" "2024-01-01" "2024-01-03" None ["B"]).
    cbn. intuition.
Qed.

Lemma topoSort_acyclic_witness :
  topoSort reversed_tasks = Some ["X"; "Y"]
  /\ exists order,
       topoSort reversed_tasks = Some order
       /\ Permutation order (map id reversed_tasks)
       /\ forall i j p n, edge reversed_tasks p n ->
            nth_error order i = Some p -> nth_error order j = Some n ->
            (i < j)%nat.
Proof.
  split; [reflexivity |].
  apply (topoSort_acyclic reversed_tasks).
  - repeat constructor; cbn; intuition discriminate.
  - exact reversed_tasks_acyclic.
Defined.

Lemma topoSort_cycle_fallback_witness :
  topoSort cycle_tasks = Some ["A"; "B"; "C"].
Proof.
  apply (topoSort_cycle_fallback cycle_tasks). exact cycle_tasks_hasCycle.
Defined.

(** ** [nextMap] and the store *)

Lemma nextMap_fold (pid : string) (ids : list string) (s : nat) (m : JsMap nat) :
  map_get pid (fold_left (fun m e => map_set (fst e) (snd e) m)
                         (combine ids (seq s (List.length ids))) m)
  = match lastIndexFrom s pid ids with
    | Some k => Some k
    | None => map_get pid m
    end.
Proof.
  revert s m. induction ids as [| i ids IH]; intros s m; cbn; [reflexivity |].
  rewrite IH. destruct (lastIndexFrom (S s) pid ids); [reflexivity |].
  rewrite map_get_set. destruct (String.eqb pid i); reflexivity.
Qed.

Lemma nextMap_get (pid : string) (tasks : list Task) :
  map_get pid (nextMap tasks) = lastIndexFrom 0 pid (map id tasks).
Proof.
  unfold nextMap, map_of_entries.
  rewrite <- (length_map id tasks), nextMap_fold.
  destruct (lastIndexFrom 0 pid (map id tasks)); reflexivity.
Qed.

Lemma lastIndexFrom_spec (s : nat) (pid : string) (ids : list string) (k : nat) :
  lastIndexFrom s pid ids = Some k ->
  (s <= k)%nat /\ nth_error ids (k - s) = Some pid.
Proof.
  revert s. induction ids as [| i ids IH]; intros s; cbn; [discriminate |].
  destruct (lastIndexFrom (S s) pid ids) as [k' |] eqn:Hl.
  - intros [= ->]. destruct (IH (S s) Hl) as [Hle Hn]. split; [lia |].
    replace (k - s)%nat with (S (k - S s)) by lia. exact Hn.
  - destruct (String.eqb_spec pid i) as [-> | Hne]; [| discriminate].
    intros [= ->]. split; [lia |]. now rewrite Nat.sub_diag.
Qed.

Lemma lastIndexFrom_In (s : nat) (pid : string) (ids : list string) :
  In pid ids -> exists k, lastIndexFrom s pid ids = Some k.
Proof.
  revert s. induction ids as [| i ids IH]; intros s Hin; [destruct Hin |]. cbn.
  destruct (lastIndexFrom (S s) pid ids) as [k' |] eqn:Hl; [eauto |].
  destruct Hin as [-> | Hin].
  - rewrite String.eqb_refl. eauto.
  - destruct (IH (S s) Hin) as [k Hk]. congruence.
Qed.

Lemma lastWithId_lastIndex (s : nat) (pid : string) (store : list Task) :
  lastWithId pid store
  = match lastIndexFrom s pid (map id store) with
    | Some k => nth_error store (k - s)
    | None => None
    end.
Proof.
  revert s. induction store as [| t store IH]; intros s; cbn; [reflexivity |].
  rewrite (IH (S s)).
  destruct (lastIndexFrom (S s) pid (map id store)) as [k |] eqn:Hl.
  - destruct (lastIndexFrom_spec _ _ _ _ Hl) as [Hle Hn].
    replace (k - s)%nat with (S (k - S s)) by lia. cbn.
    destruct (nth_error store (k - S s)) eqn:Hnth; [reflexivity |].
    exfalso. apply nth_error_None in Hnth.
    assert (nth_error (map id store) (k - S s) <> None) by congruence.
    apply nth_error_Some in H. rewrite length_map in H. lia.
  - destruct (String.eqb pid (id t)); [| reflexivity].
    now rewrite Nat.sub_diag.
Qed.

(** With the ids of the list in the store, [nextMap.get(pid) ||
    idToTask.get(pid)] is the last task of the store with the id. *)
Lemma lookupPred_lastWithId (tasks store : list Task) (pid : string) :
  map id store = map id tasks ->
  lookupPred (nextMap tasks) (idToTask tasks) store pid = lastWithId pid store.
Proof.
  intros Hids. unfold lookupPred. rewrite nextMap_get, idToTask_get.
  rewrite (lastWithId_lastIndex 0 pid store), (lastWithId_lastIndex 0 pid tasks).
  rewrite Hids. destruct (lastIndexFrom 0 pid (map id tasks)) as [k |] eqn:Hl;
    [| reflexivity].
  rewrite Nat.sub_0_r. destruct (nth_error store k) eqn:Hn; [reflexivity |].
  exfalso. destruct (lastIndexFrom_spec _ _ _ _ Hl) as [_ Hk].
  rewrite Nat.sub_0_r, <- Hids in Hk. apply nth_error_None in Hn.
  assert (nth_error (map id store) k <> None) by congruence.
  apply nth_error_Some in H. rewrite length_map in H. lia.
Qed.

(** The object [nextMap.get(i)] of an id of the list. *)
Lemma nextMap_object (tasks store : list Task) (i : string) :
  map id store = map id tasks -> In i (map id tasks) ->
  exists r t, map_get i (nextMap tasks) = Some r
              /\ nth_error store r = Some t /\ id t = i
              /\ lastWithId i store = Some t.
Proof.
  intros Hids Hin. rewrite nextMap_get.
  destruct (lastIndexFrom_In 0 i _ Hin) as [k Hk].
  pose proof (lastWithId_lastIndex 0 i store) as Hl. rewrite Hids, Hk in Hl.
  destruct (lastIndexFrom_spec _ _ _ _ Hk) as [_ Hn].
  rewrite Nat.sub_0_r in *. rewrite <- Hids in Hn.
  rewrite nth_error_map in Hn.
  destruct (nth_error store k) as [t |] eqn:Ht; [| discriminate].
  cbn in Hn. exists k, t. repeat split; congruence.
Qed.

Lemma store_set_map {B} (f : Task -> B) (store : list Task) (r : nat) (t t' : Task) :
  nth_error store r = Some t -> f t' = f t ->
  map f (store_set store r t') = map f store.
Proof.
  revert r. induction store as [| u store IH]; intros [| r]; cbn; try discriminate.
  - intros [= ->] Hf. now rewrite Hf.
  - intros Hn Hf. now rewrite IH.
Qed.

Lemma store_set_In (store : list Task) (r : nat) (t' u : Task) :
  In u (store_set store r t') -> u = t' \/ In u store.
Proof.
  revert r. induction store as [| v store IH]; intros [| r]; cbn; try tauto.
  - intros [<- | H]; auto.
  - intros [<- | H]; [auto |]. destruct (IH r H); auto.
Qed.

Lemma store_set_Forall (P : Task -> Prop) (store : list Task) (r : nat) (t' : Task) :
  Forall P store -> P t' -> Forall P (store_set store r t').
Proof.
  intros Hs Ht. apply Forall_forall. intros u Hu.
  destruct (store_set_In _ _ _ _ Hu) as [-> | H]; [assumption |].
  now apply (proj1 (Forall_forall P store) Hs).
Qed.

Lemma store_set_nth (store : list Task) (r : nat) (t t' : Task) :
  nth_error store r = Some t -> nth_error (store_set store r t') r = Some t'.
Proof.
  revert r. induction store as [| u store IH]; intros [| r]; cbn; try discriminate; auto.
Qed.

(** ** The order of [autoSchedule] *)

Lemma topoSort_acyclic_ordered (tasks : list Task) :
  NoDup (map id tasks) -> acyclic tasks ->
  exists order,
    topoSort tasks = Some order
    /\ NoDup order
    /\ (forall n, In n order <-> In n (map id tasks))
    /\ topoOrdered tasks order.
Proof.
  intros Hnd Hac.
  destruct (kahn_result tasks) as [out [indeg [Hk Hinv]]].
  destruct (kahn_out_ids _ _ _ _ Hinv) as [Hout Hincl].
  assert (Hall : forall n, In n out <-> In n (map id tasks)).
  { intros n. split; [apply Hincl | apply (acyclic_all_output _ _ _ _ Hac Hinv)]. }
  assert (Hperm : Permutation out (map id tasks))
    by (apply NoDup_Permutation; assumption).
  exists out. repeat split; try assumption; try apply Hall; try apply Hinv.
  unfold topoSort. cbv zeta. rewrite Hk.
  now rewrite (Permutation_length Hperm), Nat.eqb_refl.
Qed.


Lemma lastWithId_store_set_other (store : list Task) (r : nat) (t t' : Task)
    (pid : string) :
  nth_error store r = Some t -> id t' = id t -> pid <> id t ->
  lastWithId pid (store_set store r t') = lastWithId pid store.
Proof.
  revert r. induction store as [| v store IH]; intros [| r] Hn Hid Hne;
    cbn in *; try discriminate.
  - injection Hn as ->. rewrite Hid.
    destruct (lastWithId pid store); [reflexivity |].
    destruct (String.eqb_spec pid (id t)); [contradiction | reflexivity].
  - now rewrite (IH r Hn Hid Hne).
Qed.


Lemma chain_tasks_acyclic : acyclic chain_tasks.
Proof.
  apply (ranked_acyclic _ (fun s => if String.eqb s "A" then 0%nat
                                    else if String.eqb s "B" then 1%nat
                                    else 2%nat)).
  intros p n [t [Ht [Hn [Hp _]]]].
  destruct Ht as [<- | [<- | [<- | []]]]; cbn in Hn, Hp.
  - destruct Hp as [<- | []]. subst n. cbn. lia.
  - destruct Hp as [<- | []]. subst n. cbn. lia.
  - destruct Hp.
Qed.

(** C3, with an id used twice.  The graph of [dup_tasks] has the single
    edge from [A] to [B] and no cycle; [topoSort] counts three ids against
    two nodes, takes the fallback and returns the list order, in which the
    predecessor [A] stands after [B]. *)
Lemma topoSort_duplicate_ids_unordered :
  acyclic dup_tasks
  /\ topoSort dup_tasks = Some ["B"; "A"; "A"]
  /\ edge dup_tasks "A" "B"
  /\ ~ (forall i j p n, edge dup_tasks p n ->
          nth_error ["B"; "A"; "A"] i = Some p ->
          nth_error ["B"; "A"; "A"] j = Some n -> (i < j)%nat).
Proof.
  assert (He : edge dup_tasks "A" "B").
  { exists (mkTask "B" "b" "2024-01-01" "2024-01-11" None ["A"]).
    cbn. intuition. }
  split; [| split; [reflexivity | split; [exact He |]]].
  - apply (ranked_acyclic _ (fun s => if String.eqb s "A" then 0%nat else 1%nat)).
    intros p n [t [Ht [Hn [Hp _]]]].
    destruct Ht as [<- | [<- | [<- | []]]]; cbn in Hn, Hp;
      try destruct Hp as [<- | []]; try destruct Hp; subst n; cbn; lia.
  - intros H. specialize (H 1%nat 0%nat "A" "B" He eq_refl eq_refl). lia.
Qed.


Lemma shape_ids (a b : list Task) :
  map shape a = map shape b -> map id a = map id b.
Proof.
  intros H. apply (f_equal (map fst)) in H. rewrite !map_map in H. exact H.
Qed.


(** ** The visible window *)

Lemma goodDate_NaN : ~ goodDate "NaN-NaN-NaN".
Proof. intros [_ H]. vm_compute in H. discriminate H. Qed.

Lemma goodDate_dayStr_inv (n : Z) :
  goodDate (dayStr n) -> fourDigits n /\ dayNum (dayStr n) = n.
Proof.
  intros [H1 H2].
  pose proof (isoDay_dayStr_four _ H1) as H3. rewrite <- H2 in H3.
  pose proof (isoDay_dayStr_sound _ _ H3) as H4.
  rewrite H4 in H1. split; [exact H1 | exact H4].
Qed.

Lemma num_lt_irrefl (a : option Z) : num_lt a a = false.
Proof. destruct a; cbn; [apply Z.ltb_irrefl | reflexivity]. Qed.


Section Window.

Variable z : Zone.
Hypothesis Hz : regularZone z.
Variables now1 now2 : Z.

Local Open Scope Z_scope.

Lemma readable_parseDate (s : DateStr) :
  readable s -> parseDate z s = Some (midnight z (dayNum s)).
Proof.
  intros [n [Hn Hb]]. unfold parseDate, dayNum. rewrite Hn.
  apply timeClip_midnight; [assumption | lia].
Qed.

Lemma goodDate_readable (s : DateStr) : goodDate s -> readable s.
Proof.
  intros H. exists (dayNum s). split; [now apply goodDate_isoDay |].
  destruct H as [H _]. unfold fourDigits, FIRST_DAY, LAST_DAY in H. lia.
Qed.

(** What [parseDate] gives for a date it reads. *)
Lemma parseDate_dayNum (s : DateStr) (t : Z) :
  parseDate z s = Some t -> t = midnight z (dayNum s).
Proof.
  intros H. destruct (parseDate_Some z s t H) as [n [Hn ->]].
  unfold dayNum. now rewrite Hn.
Qed.

(** A date that [fmt] and [addDays] write, when it is a date of the data
    model, is the day it should be. *)
Lemma fmt_addDays_good (t k : Z) :
  goodDate (fmt z (addDays z (Some t) (Some k))) ->
  fmt z (addDays z (Some t) (Some k)) = dayStr (Day (LocalTime z t) + k)
  /\ fourDigits (Day (LocalTime z t) + k).
Proof.
  unfold addDays. destruct (timeClip _) as [u |] eqn:Hu.
  - unfold timeClip in Hu. destruct (_ <=? _); [| discriminate].
    injection Hu as <-. unfold fmt.
    rewrite (zone_day z Hz), Day_add. intros H.
    split; [reflexivity |]. now apply goodDate_dayStr_inv.
  - intros H. now apply goodDate_NaN in H.
Qed.

Lemma fmt_good (d : option Z) :
  goodDate (fmt z d) -> exists t, d = Some t.
Proof.
  destruct d as [t |]; [eauto |]. intros H. now apply goodDate_NaN in H.
Qed.

(** The two [reduce] of the memo. *)
Lemma fold_min_spec (l : list Task) (a : option Z) :
  let m := fold_left (fun acc t =>
                        if num_lt (parseDate z (start t)) acc
                        then parseDate z (start t) else acc) l a in
  match a with
  | None => m = None
  | Some a0 =>
      exists m0, m = Some m0 /\ m0 <= a0
        /\ (forall t s, In t l -> parseDate z (start t) = Some s -> m0 <= s)
        /\ (m0 = a0 \/ exists t, In t l /\ parseDate z (start t) = Some m0)
  end.
Proof.
  revert a. induction l as [| u l IH]; intros a; cbn [fold_left].
  - destruct a as [a0 |]; [| reflexivity]. exists a0.
    split; [reflexivity |]. split; [lia |]. split; [intros ? ? [] | now left].
  - destruct a as [a0 |].
    + destruct (parseDate z (start u)) as [s0 |] eqn:Hs; cbn [num_lt].
      * destruct (Z.ltb_spec s0 a0) as [Hlt | Hge].
        -- specialize (IH (Some s0)). cbn in IH.
           destruct IH as [m0 [Hm [Hle [Hall Hatt]]]].
           exists m0. split; [assumption |]. split; [lia |]. split.
           ++ intros t s [<- | Hin] Ht; [| eauto].
              rewrite Hs in Ht. injection Ht as <-. assumption.
           ++ right. destruct Hatt as [-> | [t [Hin Ht]]].
              ** exists u. split; [now left | assumption].
              ** exists t. split; [now right | assumption].
        -- specialize (IH (Some a0)). cbn in IH.
           destruct IH as [m0 [Hm [Hle [Hall Hatt]]]].
           exists m0. split; [assumption |]. split; [lia |]. split.
           ++ intros t s [<- | Hin] Ht; [| eauto].
              rewrite Hs in Ht. injection Ht as <-. lia.
           ++ destruct Hatt as [-> | [t [Hin Ht]]]; [now left |].
              right. exists t. split; [now right | assumption].
      * specialize (IH (Some a0)). cbn in IH.
        destruct IH as [m0 [Hm [Hle [Hall Hatt]]]].
        exists m0. split; [assumption |]. split; [lia |]. split.
        -- intros t s [<- | Hin] Ht; [congruence | eauto].
        -- destruct Hatt as [-> | [t [Hin Ht]]]; [now left |].
           right. exists t. split; [now right | assumption].
    + destruct (parseDate z (start u)); cbn [num_lt]; apply (IH None).
Qed.

Lemma fold_max_spec (l : list Task) (a : option Z) :
  let m := fold_left (fun acc t =>
                        if num_gt (parseDate z (end_ t)) acc
                        then parseDate z (end_ t) else acc) l a in
  match a with
  | None => m = None
  | Some a0 =>
      exists m0, m = Some m0 /\ a0 <= m0
        /\ (forall t s, In t l -> parseDate z (end_ t) = Some s -> s <= m0)
        /\ (m0 = a0 \/ exists t, In t l /\ parseDate z (end_ t) = Some m0)
  end.
Proof.
  revert a. induction l as [| u l IH]; intros a; cbn [fold_left].
  - destruct a as [a0 |]; [| reflexivity]. exists a0.
    split; [reflexivity |]. split; [lia |]. split; [intros ? ? [] | now left].
  - destruct a as [a0 |].
    + destruct (parseDate z (end_ u)) as [s0 |] eqn:Hs; cbn [num_gt].
      * rewrite Z.gtb_ltb. destruct (Z.ltb_spec a0 s0) as [Hlt | Hge].
        -- specialize (IH (Some s0)). cbn in IH.
           destruct IH as [m0 [Hm [Hle [Hall Hatt]]]].
           exists m0. split; [assumption |]. split; [lia |]. split.
           ++ intros t s [<- | Hin] Ht; [| eauto].
              rewrite Hs in Ht. injection Ht as <-. assumption.
           ++ right. destruct Hatt as [-> | [t [Hin Ht]]].
              ** exists u. split; [now left | assumption].
              ** exists t. split; [now right | assumption].
        -- specialize (IH (Some a0)). cbn in IH.
           destruct IH as [m0 [Hm [Hle [Hall Hatt]]]].
           exists m0. split; [assumption |]. split; [lia |]. split.
           ++ intros t s [<- | Hin] Ht; [| eauto].
              rewrite Hs in Ht. injection Ht as <-. lia.
           ++ destruct Hatt as [-> | [t [Hin Ht]]]; [now left |].
              right. exists t. split; [now right | assumption].
      * specialize (IH (Some a0)). cbn in IH.
        destruct IH as [m0 [Hm [Hle [Hall Hatt]]]].
        exists m0. split; [assumption |]. split; [lia |]. split.
        -- intros t s [<- | Hin] Ht; [congruence | eauto].
        -- destruct Hatt as [-> | [t [Hin Ht]]]; [now left |].
           right. exists t. split; [now right | assumption].
    + destruct (parseDate z (end_ u)); cbn [num_gt]; apply (IH None).
Qed.

(** The window of a list with a task: the two ends are written from an
    instant [mn] and an instant [mx], when the first start and the first
    end can be read; [mn] is the earliest start read and [mx] the latest
    end read, both of tasks of the list. *)
Lemma dateRangeStr_cons (t0 : Task) (rest : list Task) :
  exists mn mx,
    dateRangeStr z now1 now2 (t0 :: rest)
    = (fmt z (addDays z mn (Some (-7))), fmt z (addDays z mx (Some 21)))
    /\ (mn = None
        \/ exists tmin, In tmin (t0 :: rest)
             /\ mn = parseDate z (start tmin)
             /\ mn = Some (midnight z (dayNum (start tmin)))
             /\ forall t s, In t (t0 :: rest) ->
                  parseDate z (start t) = Some s ->
                  dayNum (start tmin) <= dayNum (start t))
    /\ (mx = None
        \/ exists tmax, In tmax (t0 :: rest)
             /\ mx = parseDate z (end_ tmax)
             /\ mx = Some (midnight z (dayNum (end_ tmax)))
             /\ forall t s, In t (t0 :: rest) ->
                  parseDate z (end_ t) = Some s ->
                  dayNum (end_ t) <= dayNum (end_ tmax))
    /\ (parseDate z (start t0) <> None -> mn <> None)
    /\ (parseDate z (end_ t0) <> None -> mx <> None).
Proof.
  cbn [dateRangeStr].
  set (mn := fold_left _ (t0 :: rest) (parseDate z (start t0))).
  set (mx := fold_left _ (t0 :: rest) (parseDate z (end_ t0))).
  exists mn, mx. split; [reflexivity |].
  pose proof (fold_min_spec (t0 :: rest) (parseDate z (start t0))) as Hmin.
  pose proof (fold_max_spec (t0 :: rest) (parseDate z (end_ t0))) as Hmax.
  cbv zeta in Hmin, Hmax. fold mn in Hmin. fold mx in Hmax.
  split; [| split; [| split]].
  - destruct (parseDate z (start t0)) as [a0 |] eqn:Ha; [| now left].
    destruct Hmin as [m0 [Hm [Hle [Hall Hatt]]]]. right.
    assert (Hex : exists tmin, In tmin (t0 :: rest)
                               /\ parseDate z (start tmin) = Some m0).
    { destruct Hatt as [-> | [t [Hin Ht]]]; [| eauto].
      exists t0. split; [now left | assumption]. }
    destruct Hex as [tmin [Hin Ht]]. exists tmin.
    split; [assumption |]. split; [congruence |].
    pose proof (parseDate_dayNum _ _ Ht) as Hm0.
    split; [congruence |].
    intros t s Hint Hs. pose proof (parseDate_dayNum _ _ Hs) as Hs'.
    specialize (Hall t s Hint Hs). subst m0 s.
    now apply (midnight_le z Hz).
  - destruct (parseDate z (end_ t0)) as [a0 |] eqn:Ha; [| now left].
    destruct Hmax as [m0 [Hm [Hle [Hall Hatt]]]]. right.
    assert (Hex : exists tmax, In tmax (t0 :: rest)
                               /\ parseDate z (end_ tmax) = Some m0).
    { destruct Hatt as [-> | [t [Hin Ht]]]; [| eauto].
      exists t0. split; [now left | assumption]. }
    destruct Hex as [tmax [Hin Ht]]. exists tmax.
    split; [assumption |]. split; [congruence |].
    pose proof (parseDate_dayNum _ _ Ht) as Hm0.
    split; [congruence |].
    intros t s Hint Hs. pose proof (parseDate_dayNum _ _ Hs) as Hs'.
    specialize (Hall t s Hint Hs). subst m0 s.
    now apply (midnight_le z Hz).
  - intros Hne. destruct (parseDate z (start t0)); [| congruence].
    destruct Hmin as [m0 [-> _]]. discriminate.
  - intros Hne. destruct (parseDate z (end_ t0)); [| congruence].
    destruct Hmax as [m0 [-> _]]. discriminate.
Qed.

(** When the two ends of the window are dates of the data model, every
    task that can be read lies at least seven days after the left end and
    twenty-one days before the right end. *)
Lemma window_around (tasks : list Task) (t : Task) :
  In t tasks ->
  (goodDate (minDateStr z now1 now2 tasks) ->
   forall s, parseDate z (start t) = Some s ->
     dayNum (minDateStr z now1 now2 tasks) + 7 <= dayNum (start t))
  /\ (goodDate (maxDateStr z now1 now2 tasks) ->
      forall e, parseDate z (end_ t) = Some e ->
        dayNum (end_ t) + 21 <= dayNum (maxDateStr z now1 now2 tasks)).
Proof.
  intros Hin. destruct tasks as [| t0 rest]; [destruct Hin |].
  destruct (dateRangeStr_cons t0 rest) as [mn [mx [He [Hmn [Hmx _]]]]].
  unfold minDateStr, maxDateStr. rewrite He. cbn [fst snd]. split.
  - intros Hg s Hs.
    destruct Hmn as [-> | [tmin [Hin' [_ [-> Hall]]]]].
    { now apply goodDate_NaN in Hg. }
    destruct (fmt_addDays_good _ _ Hg) as [Hf H4]. rewrite Hf.
    rewrite (Day_midnight z Hz) in *.
    rewrite (dayNum_dayStr _ H4). specialize (Hall t s Hin Hs). lia.
  - intros Hg e Hs.
    destruct Hmx as [-> | [tmax [Hin' [_ [-> Hall]]]]].
    { now apply goodDate_NaN in Hg. }
    destruct (fmt_addDays_good _ _ Hg) as [Hf H4]. rewrite Hf.
    rewrite (Day_midnight z Hz) in *.
    rewrite (dayNum_dayStr _ H4). specialize (Hall t e Hin Hs). lia.
Qed.

End Window.





(** ** Violation detection *)

(** Closes a conjunction of assumptions and trivial equations. *)
Ltac conjs := repeat (split; [assumption || reflexivity |]);
              assumption || reflexivity.

Lemma set_add_In (x y : string) (s : list string) :
  In y (set_add x s) <-> y = x \/ In y s.
Proof.
  unfold set_add. destruct (mem x s) eqn:Hm.
  - apply mem_In in Hm. split; [auto | intros [-> | H]; assumption].
  - rewrite in_app_iff. cbn. intuition congruence.
Qed.

Lemma set_fold_In (c : Task -> bool) (l : list Task) (acc : list string)
    (i : string) :
  In i (fold_left (fun set t => if c t then set_add (id t) set else set) l acc)
  <-> In i acc \/ exists t, In t l /\ id t = i /\ c t = true.
Proof.
  revert acc. induction l as [| t l IH]; intros acc; cbn [fold_left].
  - split; [auto | intros [H | [t [[] _]]]; assumption].
  - rewrite IH. destruct (c t) eqn:Hc.
    + rewrite set_add_In. split.
      * intros [[-> | H] | [u [Hu [Hi Hcu]]]]; [right; exists t; cbn; auto | auto |].
        right. exists u. cbn. auto.
      * intros [H | [u [[<- | Hu] [Hi Hcu]]]]; [auto | auto |].
        right. exists u. auto.
    + split.
      * intros [H | [u [Hu [Hi Hcu]]]]; [auto |]. right. exists u. cbn. auto.
      * intros [H | [u [[<- | Hu] [Hi Hcu]]]]; [auto | congruence |].
        right. exists u. auto.
Qed.

Lemma set_add_NoDup (x : string) (s : list string) :
  NoDup s -> NoDup (set_add x s).
Proof.
  intros H. unfold set_add. destruct (mem x s) eqn:Hm; [assumption |].
  apply mem_false in Hm. apply NoDup_app; [assumption | repeat constructor; intros [] |].
  intros y Hy [<- | []]. contradiction.
Qed.

Lemma set_fold_NoDup (c : Task -> bool) (l : list Task) (acc : list string) :
  NoDup acc ->
  NoDup (fold_left (fun set t => if c t then set_add (id t) set else set) l acc).
Proof.
  revert acc. induction l as [| t l IH]; intros acc H; cbn [fold_left];
    [assumption |].
  apply IH. destruct (c t); [now apply set_add_NoDup | assumption].
Qed.

Lemma resolvableEnds_In (tasks : list Task) (t : Task) (e : DateStr) :
  In e (resolvableEnds tasks t) <->
  exists pid p, In pid (deps t) /\ lastWithId pid tasks = Some p
                /\ e = end_ p.
Proof.
  unfold resolvableEnds. rewrite in_flat_map. split.
  - intros [pid [Hpid He]].
    destruct (lastWithId pid tasks) as [p |] eqn:Hl; [| destruct He].
    destruct He as [<- | []]. exists pid, p. auto.
  - intros [pid [p [Hpid [Hp ->]]]]. exists pid. split; [assumption |].
    rewrite Hp. now left.
Qed.

Lemma fold_max_upper (l : list Z) (e : Z) :
  (e <= fold_left Z.max l e)%Z
  /\ forall x, In x l -> (x <= fold_left Z.max l e)%Z.
Proof.
  revert e. induction l as [| a l IH]; intros e; cbn [fold_left].
  - split; [lia | intros x []].
  - destruct (IH (Z.max e a)) as [H1 H2]. split; [lia |].
    intros x [<- | Hx]; [lia | auto].
Qed.

Lemma fold_max_In (l : list Z) (e : Z) :
  fold_left Z.max l e = e \/ In (fold_left Z.max l e) l.
Proof.
  revert e. induction l as [| a l IH]; intros e; cbn [fold_left]; [now left |].
  destruct (IH (Z.max e a)) as [H | H].
  - rewrite H. destruct (Z.max_spec e a) as [[_ ->] | [_ ->]]; cbn; auto.
  - right. now right.
Qed.

Section Violations.

Variable z : Zone.

Local Open Scope Z_scope.

(** The [reduce] of [violations] from an instant [a]: the latest of [a] and
    of the ends read among the resolvable predecessors. *)
Lemma latestEndFrom_spec (tasks : list Task) (ds : list string) (a : Z) :
  exists m,
    latestEndFrom z (idToTask tasks) ds (Some a) = Some m
    /\ a <= m
    /\ (forall pid p x, In pid ds -> lastWithId pid tasks = Some p ->
          parseDate z (end_ p) = Some x -> x <= m)
    /\ (m = a \/ exists pid p, In pid ds /\ lastWithId pid tasks = Some p
                               /\ parseDate z (end_ p) = Some m).
Proof.
  unfold latestEndFrom. revert a.
  induction ds as [| d ds IH]; intros a; cbn [fold_left].
  - exists a. split; [reflexivity |]. split; [lia |].
    split; [intros ? ? ? [] | now left].
  - rewrite idToTask_get.
    destruct (lastWithId d tasks) as [q |] eqn:Hq.
    + cbv zeta. destruct (parseDate z (end_ q)) as [x |] eqn:Hx; cbn [num_gt].
      * rewrite Z.gtb_ltb. destruct (Z.ltb_spec a x) as [Hlt | Hge].
        -- destruct (IH x) as [m [Hm [Hle [Hall Hatt]]]].
           exists m. split; [assumption |]. split; [lia |]. split.
           ++ intros pid p y [<- | Hin] Hp Hy; [| eauto].
              rewrite Hq in Hp. injection Hp as <-. rewrite Hx in Hy.
              injection Hy as <-. assumption.
           ++ right. destruct Hatt as [-> | [pid [p [Hin [Hp Hy]]]]].
              ** exists d, q. cbn. auto.
              ** exists pid, p. cbn. auto.
        -- destruct (IH a) as [m [Hm [Hle [Hall Hatt]]]].
           exists m. split; [assumption |]. split; [lia |]. split.
           ++ intros pid p y [<- | Hin] Hp Hy; [| eauto].
              rewrite Hq in Hp. injection Hp as <-. rewrite Hx in Hy.
              injection Hy as <-. lia.
           ++ destruct Hatt as [-> | [pid [p [Hin [Hp Hy]]]]]; [now left |].
              right. exists pid, p. cbn. auto.
      * destruct (IH a) as [m [Hm [Hle [Hall Hatt]]]].
        exists m. split; [assumption |]. split; [lia |]. split.
        -- intros pid p y [<- | Hin] Hp Hy; [congruence | eauto].
        -- destruct Hatt as [-> | [pid [p [Hin [Hp Hy]]]]]; [now left |].
           right. exists pid, p. cbn. auto.
    + destruct (IH a) as [m [Hm [Hle [Hall Hatt]]]].
      exists m. split; [assumption |]. split; [lia |]. split.
      * intros pid p y [<- | Hin] Hp Hy; [congruence | eauto].
      * destruct Hatt as [-> | [pid [p [Hin [Hp Hy]]]]]; [now left |].
        right. exists pid, p. cbn. auto.
Qed.

Lemma codeViolated_iff (tasks : list Task) (t : Task) :
  codeViolated z tasks t = true <->
  exists pid p e s,
    In pid (deps t) /\ lastWithId pid tasks = Some p
    /\ parseDate z (end_ p) = Some e /\ 0 < e
    /\ parseDate z (start t) = Some s /\ s < e.
Proof.
  unfold codeViolated. rewrite existsb_exists. split.
  - intros [x [Hx Hc]]. apply resolvableEnds_In in Hx.
    destruct Hx as [pid [p [Hpid [Hp ->]]]].
    apply andb_prop in Hc. destruct Hc as [H1 H2].
    destruct (parseDate z (end_ p)) as [e |] eqn:He; [| discriminate].
    destruct (parseDate z (start t)) as [s |] eqn:Hs; [| discriminate].
    cbn in H1, H2. rewrite Z.gtb_ltb in H1.
    apply Z.ltb_lt in H1, H2. exists pid, p, e, s.
    repeat (split; [assumption || reflexivity |]). assumption.
  - intros [pid [p [e [s [Hpid [Hp [He [Hpos [Hs Hlt]]]]]]]]].
    exists (end_ p). split.
    + apply resolvableEnds_In. eauto.
    + rewrite He, Hs. cbn. rewrite Z.gtb_ltb.
      apply andb_true_intro. split; now apply Z.ltb_lt.
Qed.

(** The test of [violations] on one task. *)
Lemma violations_test (tasks : list Task) (t : Task) :
  num_gt (latestEndFrom z (idToTask tasks) (deps t) (Some 0)) (Some 0)
  && num_lt (parseDate z (start t))
            (latestEndFrom z (idToTask tasks) (deps t) (Some 0))
  = codeViolated z tasks t.
Proof.
  destruct (latestEndFrom_spec tasks (deps t) 0) as [m [-> [Hle [Hall Hatt]]]].
  apply eq_true_iff_eq. rewrite codeViolated_iff, andb_true_iff. split.
  - intros [H1 H2]. cbn in H1. rewrite Z.gtb_ltb in H1. apply Z.ltb_lt in H1.
    destruct (parseDate z (start t)) as [s |] eqn:Hs; [| discriminate].
    cbn in H2. apply Z.ltb_lt in H2.
    destruct Hatt as [-> | [pid [p [Hpid [Hp He]]]]]; [lia |].
    exists pid, p, m, s. conjs.
  - intros [pid [p [e [s [Hpid [Hp [He [Hpos [Hs Hlt]]]]]]]]].
    specialize (Hall pid p e Hpid Hp He). rewrite Hs. cbn.
    rewrite Z.gtb_ltb. split; apply Z.ltb_lt; lia.
Qed.

Lemma violations_fold (tasks l : list Task) (acc : list string) :
  fold_left (fun set t =>
               let latestEnd :=
                 latestEndFrom z (idToTask tasks) (deps t) (Some 0) in
               if num_gt latestEnd (Some 0)
                  && num_lt (parseDate z (start t)) latestEnd
               then set_add (id t) set else set) l acc
  = fold_left (fun set t =>
                 if codeViolated z tasks t then set_add (id t) set else set)
              l acc.
Proof.
  revert acc. induction l as [| t l IH]; intros acc; cbn [fold_left]; [reflexivity |].
  cbv zeta. now rewrite violations_test, IH.
Qed.

(** What the code computes: the ids of the tasks that satisfy
    [codeViolated]. *)
Lemma violations_code (tasks : list Task) (i : string) :
  In i (violations z tasks)
  <-> exists t, In t tasks /\ id t = i /\ codeViolated z tasks t = true.
Proof.
  unfold violations. cbv zeta. rewrite violations_fold, set_fold_In.
  cbn. tauto.
Qed.

(** A task without resolvable predecessor is never marked. *)
Lemma violations_needs_predecessor (tasks : list Task) (i : string) :
  In i (violations z tasks) ->
  exists t pid p, In t tasks /\ id t = i /\ In pid (deps t)
                  /\ lastWithId pid tasks = Some p.
Proof.
  rewrite violations_code. intros [t [Ht [Hi Hc]]].
  apply codeViolated_iff in Hc.
  destruct Hc as [pid [p [_ [_ [Hpid [Hp _]]]]]].
  exists t, pid, p. auto.
Qed.

Hypothesis Hz : regularZone z.

(** The code never marks a task that the rule of the specification does
    not mark. *)
Lemma violations_sound (tasks : list Task) (i : string) :
  In i (violations z tasks) ->
  exists t, In t tasks /\ id t = i /\ specViolated tasks t = true.
Proof.
  rewrite violations_code. intros [t [Ht [Hi Hc]]]. exists t.
  split; [assumption |]. split; [assumption |].
  apply codeViolated_iff in Hc.
  destruct Hc as [pid [p [e [s [Hpid [Hp [He [_ [Hs Hlt]]]]]]]]].
  rewrite (parseDate_dayNum z _ _ He), (parseDate_dayNum z _ _ Hs) in Hlt.
  apply (proj1 (midnight_lt z Hz _ _)) in Hlt.
  assert (Hin : In (dayNum (end_ p)) (map dayNum (resolvableEnds tasks t))).
  { apply in_map. apply resolvableEnds_In. eauto. }
  unfold specViolated.
  destruct (map dayNum (resolvableEnds tasks t)) as [| d rest]; [destruct Hin |].
  apply Z.ltb_lt. destruct (fold_max_upper rest d) as [H1 H2].
  destruct Hin as [Hd | Hin]; [lia |]. specialize (H2 _ Hin). lia.
Qed.

(** For dates the engine reads and ends after 1970-01-01 the code follows
    the rule of the specification. *)
Lemma codeViolated_after_epoch (tasks : list Task) (t : Task) :
  (forall p, In p tasks ->
     readable (start p) /\ readable (end_ p) /\ 1 <= dayNum (end_ p)) ->
  In t tasks ->
  codeViolated z tasks t = specViolated tasks t.
Proof.
  intros Hends Ht. apply eq_true_iff_eq. rewrite codeViolated_iff.
  destruct (Hends t Ht) as [Hst _].
  pose proof (readable_parseDate z Hz _ Hst) as Hs.
  unfold specViolated. split.
  - intros [pid [p [e [s [Hpid [Hp [He [_ [Hs' Hlt]]]]]]]]].
    rewrite (parseDate_dayNum z _ _ He), (parseDate_dayNum z _ _ Hs') in Hlt.
    apply (proj1 (midnight_lt z Hz _ _)) in Hlt.
    assert (Hin : In (dayNum (end_ p)) (map dayNum (resolvableEnds tasks t))).
    { apply in_map. apply resolvableEnds_In. eauto. }
    destruct (map dayNum (resolvableEnds tasks t)) as [| d rest];
      [destruct Hin |].
    apply Z.ltb_lt. destruct (fold_max_upper rest d) as [H1 H2].
    destruct Hin as [Hd | Hin]; [lia |]. specialize (H2 _ Hin). lia.
  - destruct (map dayNum (resolvableEnds tasks t)) as [| d rest] eqn:Hm;
      [discriminate |].
    intros Hlt. apply Z.ltb_lt in Hlt.
    assert (Hin : In (fold_left Z.max rest d)
                     (map dayNum (resolvableEnds tasks t))).
    { rewrite Hm. destruct (fold_max_In rest d) as [-> | H]; cbn; auto. }
    apply in_map_iff in Hin. destruct Hin as [e [He Hin]].
    apply resolvableEnds_In in Hin. destruct Hin as [pid [p [Hpid [Hp ->]]]].
    destruct (lastWithId_In _ _ _ Hp) as [Hpin _].
    destruct (Hends p Hpin) as [_ [Hre Hpos]].
    exists pid, p, (midnight z (dayNum (end_ p))),
           (midnight z (dayNum (start t))).
    split; [assumption |]. split; [assumption |].
    split; [now apply readable_parseDate |].
    split.
    { pose proof (midnight_bounds z Hz (dayNum (end_ p))) as Hb.
      rewrite MS_PER_DAY_eq in Hb. lia. }
    split; [assumption |]. apply (midnight_lt z Hz). lia.
Qed.

Lemma violations_after_epoch (tasks : list Task) (i : string) :
  (forall p, In p tasks ->
     readable (start p) /\ readable (end_ p) /\ 1 <= dayNum (end_ p)) ->
  In i (violations z tasks)
  <-> exists t, In t tasks /\ id t = i /\ specViolated tasks t = true.
Proof.
  intros Hends. rewrite violations_code.
  split; intros [t [Ht [Hi Hc]]]; exists t;
    rewrite codeViolated_after_epoch in * by assumption; auto.
Qed.

(** The set itself, for such lists. *)
Lemma violations_eq_after_epoch (tasks : list Task) :
  (forall p, In p tasks ->
     readable (start p) /\ readable (end_ p) /\ 1 <= dayNum (end_ p)) ->
  violations z tasks
  = fold_left (fun set t =>
                 if specViolated tasks t then set_add (id t) set else set)
              tasks [].
Proof.
  intros Hends. unfold violations. cbv zeta. rewrite violations_fold.
  assert (H : forall l acc, (forall t, In t l -> In t tasks) ->
            fold_left (fun set t =>
                         if codeViolated z tasks t
                         then set_add (id t) set else set) l acc
            = fold_left (fun set t =>
                           if specViolated tasks t
                           then set_add (id t) set else set) l acc).
  { induction l as [| t l IH]; intros acc Hl; cbn [fold_left]; [reflexivity |].
    rewrite codeViolated_after_epoch by (auto; apply Hl; now left).
    apply IH. intros u Hu. apply Hl. now right. }
  apply H. auto.
Qed.

End Violations.

(** X17. The violation set holds each id at most once, holds only ids of
    tasks of the list, and never the id of a task all of whose dependencies
    are dangling; in any zone and whatever the date strings are. *)
Theorem violations_is_set (z : Zone) (tasks : list Task) :
  NoDup (violations z tasks)
  /\ (forall i, In i (violations z tasks) -> In i (map id tasks))
  /\ (forall i, In i (violations z tasks) ->
        exists t pid, In t tasks /\ id t = i /\ In pid (deps t)
                      /\ In pid (map id tasks)).
Proof.
  split; [| split].
  - unfold violations. cbv zeta. rewrite violations_fold.
    apply set_fold_NoDup. constructor.
  - intros i Hi. apply violations_code in Hi. destruct Hi as [t [Ht [<- _]]].
    now apply in_map.
  - intros i Hi.
    destruct (violations_needs_predecessor z tasks i Hi)
      as [t [pid [p [Ht [Hid [Hpid Hp]]]]]].
    exists t, pid. repeat split; try assumption.
    apply lastWithId_In in Hp. destruct Hp as [Hp <-]. now apply in_map.
Qed.

Lemma violations_is_set_witness :
  In "Y" (violations tokyo [tX_sample; tY_sample])
  /\ In "Y" (map id [tX_sample; tY_sample]).
Proof.
  assert (H : In "Y" (violations tokyo [tX_sample; tY_sample]))
    by (vm_compute; now left).
  split; [exact H |].
  apply (proj1 (proj2 (violations_is_set tokyo [tX_sample; tY_sample])) "Y" H).
Defined.

(** ** The arrows *)




(** ** Editing the list: [deleteTask], the removal of a dependency, [toggleDep], [addTask] *)

Lemma edge_shrinks_path (a b : list Task) :
  (forall p n, edge a p n -> edge b p n) ->
  forall p n, path a p n -> path b p n.
Proof.
  intros H p n Hp. induction Hp as [p n He | p m n He _ IH].
  - apply path_edge. auto.
  - eapply path_step; [apply H; eassumption | assumption].
Qed.

Lemma edge_shrinks_acyclic (a b : list Task) :
  (forall p n, edge a p n -> edge b p n) -> acyclic b -> acyclic a.
Proof.
  intros H Hb x Hx. apply (Hb x). now apply (edge_shrinks_path a b H).
Qed.

Lemma deleteTask_In (i : string) (prev : list Task) (t' : Task) :
  In t' (deleteTask i prev)
  <-> exists t, In t prev /\ id t <> i
        /\ t' = set_deps t (filter (fun d => negb (String.eqb d i)) (deps t)).
Proof.
  unfold deleteTask. rewrite in_map_iff. split.
  - intros [t [<- Ht]]. apply filter_In in Ht. destruct Ht as [Ht Hne].
    exists t. split; [assumption |]. split; [| reflexivity].
    destruct (String.eqb_spec (id t) i); [discriminate | assumption].
  - intros [t [Ht [Hne ->]]]. exists t. split; [reflexivity |].
    apply filter_In. split; [assumption |].
    destruct (String.eqb_spec (id t) i); [contradiction | reflexivity].
Qed.

Lemma filter_neq_In (i d : string) (l : list string) :
  In d (filter (fun x => negb (String.eqb x i)) l) <-> In d l /\ d <> i.
Proof.
  rewrite filter_In. destruct (String.eqb_spec d i); cbn; intuition congruence.
Qed.

Lemma deleteTask_ids (i : string) (prev : list Task) :
  map id (deleteTask i prev)
  = filter (fun x => negb (String.eqb x i)) (map id prev).
Proof.
  unfold deleteTask. rewrite map_map. cbn [id set_deps].
  induction prev as [| t prev IH]; [reflexivity |]. cbn.
  destruct (negb (String.eqb (id t) i)); cbn; now rewrite IH.
Qed.

(** X11. After [deleteTask i] no task has the id [i] and no task lists [i]
    as a predecessor; every task with another id is still there, in the
    same order, with the same name, dates and colour and with its other
    predecessors; and [selectedId] is cleared exactly when it was [i]. *)
Theorem deleteTask_removes (i : string) (prev : list Task) :
  (forall t', In t' (deleteTask i prev) -> id t' <> i /\ ~ In i (deps t'))
  /\ map id (deleteTask i prev)
     = filter (fun x => negb (String.eqb x i)) (map id prev)
  /\ (forall t, In t prev -> id t <> i ->
        exists t', In t' (deleteTask i prev)
          /\ (id t', name t', start t', end_ t', color t')
             = (id t, name t, start t, end_ t, color t)
          /\ forall d, In d (deps t') <-> In d (deps t) /\ d <> i)
  /\ (forall s, deleteTask_selectedId i s = None <-> s = None \/ s = Some i).
Proof.
  split; [| split; [| split]].
  - intros t' Ht'. apply deleteTask_In in Ht'. destruct Ht' as [t [Ht [Hne ->]]].
    cbn. split; [assumption |]. rewrite filter_neq_In. tauto.
  - apply deleteTask_ids.
  - intros t Ht Hne. eexists. split.
    + apply deleteTask_In. exists t. eauto.
    + split; [reflexivity |]. intros d. cbn. apply filter_neq_In.
  - intros [s |]; cbn.
    + destruct (String.eqb_spec s i) as [-> | Hne].
      * split; auto.
      * split; [discriminate | intros [H | H]; congruence].
    + split; auto.
Qed.

Lemma deleteTask_removes_witness :
  In tY_sample [tX_sample; tY_sample] /\ id tY_sample <> "X"
  /\ exists t', In t' (deleteTask "X" [tX_sample; tY_sample])
       /\ (id t', name t', start t', end_ t', color t')
          = (id tY_sample, name tY_sample, start tY_sample, end_ tY_sample,
             color tY_sample)
       /\ forall d, In d (deps t') <-> In d (deps tY_sample) /\ d <> "X".
Proof.
  assert (H1 : In tY_sample [tX_sample; tY_sample]) by (right; left; reflexivity).
  assert (H2 : id tY_sample <> "X") by discriminate.
  split; [exact H1 |]. split; [exact H2 |].
  apply (proj1 (proj2 (proj2 (deleteTask_removes "X" [tX_sample; tY_sample])))
           tY_sample H1 H2).
Defined.

Lemma deleteTask_edge (i : string) (prev : list Task) (p n : string) :
  edge (deleteTask i prev) p n -> edge prev p n.
Proof.
  intros [t' [Ht' [Hn [Hp Hi]]]].
  apply deleteTask_In in Ht'. destruct Ht' as [t [Ht [Hne ->]]].
  cbn in Hn, Hp. apply filter_neq_In in Hp.
  rewrite deleteTask_ids in Hi. apply filter_In in Hi.
  exists t. tauto.
Qed.

(** X12. [deleteTask] keeps a list well formed: distinct ids stay distinct,
    every task keeps [start <= end], every edge of the new graph was an
    edge before, so no cycle appears; and deleting an id that no task has
    nor lists changes nothing. *)
Theorem deleteTask_keeps_wellformed (i : string) (prev : list Task) :
  (NoDup (map id prev) -> NoDup (map id (deleteTask i prev)))
  /\ ((forall t, In t prev -> startBeforeEnd t) ->
      forall t', In t' (deleteTask i prev) -> startBeforeEnd t')
  /\ (forall p n, edge (deleteTask i prev) p n -> edge prev p n)
  /\ (acyclic prev -> acyclic (deleteTask i prev))
  /\ ((forall t, In t prev -> id t <> i /\ ~ In i (deps t)) ->
      deleteTask i prev = prev).
Proof.
  split; [| split; [| split; [| split]]].
  - intros Hnd. rewrite deleteTask_ids. now apply NoDup_filter.
  - intros Hinv t' Ht'. apply deleteTask_In in Ht'.
    destruct Ht' as [t [Ht [_ ->]]]. apply (Hinv t Ht).
  - apply deleteTask_edge.
  - apply edge_shrinks_acyclic, deleteTask_edge.
  - intros H. unfold deleteTask.
    induction prev as [| t prev IH]; [reflexivity |]. cbn.
    destruct (H t (or_introl eq_refl)) as [Hne Hd].
    destruct (String.eqb_spec (id t) i) as [He | _]; [contradiction |]. cbn.
    rewrite IH by (intros u Hu; apply H; now right). f_equal.
    destruct t as [ti tn ts te tc td]. unfold set_deps; cbn in *. f_equal.
    clear -Hd. induction td as [| d td IHd]; [reflexivity |]. cbn.
    destruct (String.eqb_spec d i) as [-> | Hne]; cbn.
    + exfalso. apply Hd. now left.
    + f_equal. apply IHd. intros Hin. apply Hd. now right.
Qed.

Lemma deleteTask_keeps_wellformed_witness :
  NoDup (map id chain_tasks) /\ acyclic chain_tasks
  /\ NoDup (map id (deleteTask "B" chain_tasks))
  /\ acyclic (deleteTask "B" chain_tasks).
Proof.
  assert (Hnd : NoDup (map id chain_tasks)).
  { repeat constructor; cbn; intuition discriminate. }
  destruct (deleteTask_keeps_wellformed "B" chain_tasks) as [H1 [_ [_ [H4 _]]]].
  split; [exact Hnd |]. split; [exact chain_tasks_acyclic |].
  split; [exact (H1 Hnd) | exact (H4 chain_tasks_acyclic)].
Defined.

(** X13. Removing the dependency [d] of the selected task with the [x]
    button leaves [d] in no dependency list of a task with the selected
    id, changes no other task and nothing but dependency lists; every edge
    of the new graph was an edge before, so no cycle appears. *)
Theorem removeDep_spec (selected : Task) (d : string) (tasks : list Task) :
  map nonDeps (removeDep selected d tasks) = map nonDeps tasks
  /\ (forall k t, nth_error tasks k = Some t ->
        exists t', nth_error (removeDep selected d tasks) k = Some t'
          /\ (id t <> id selected -> t' = t)
          /\ (id t = id selected ->
                forall x, In x (deps t') <-> In x (deps t) /\ x <> d))
  /\ (forall p n, edge (removeDep selected d tasks) p n -> edge tasks p n)
  /\ (acyclic tasks -> acyclic (removeDep selected d tasks)).
Proof.
  assert (Hids : map id (removeDep selected d tasks) = map id tasks).
  { unfold removeDep. rewrite map_map. apply map_ext. intros t.
    destruct (String.eqb (id t) (id selected)); reflexivity. }
  assert (Hedge : forall p n, edge (removeDep selected d tasks) p n -> edge tasks p n).
  { intros p n [t' [Ht' [Hn [Hp Hi]]]]. rewrite Hids in Hi.
    unfold removeDep in Ht'. apply in_map_iff in Ht'. destruct Ht' as [t [<- Ht]].
    exists t. destruct (String.eqb (id t) (id selected)); cbn in *.
    - apply filter_neq_In in Hp. tauto.
    - tauto. }
  split; [| split; [| split]].
  - unfold removeDep. rewrite map_map. apply map_ext. intros t.
    destruct (String.eqb (id t) (id selected)); reflexivity.
  - intros k t Hk. unfold removeDep. rewrite nth_error_map, Hk. cbn.
    eexists. split; [reflexivity |].
    destruct (String.eqb_spec (id t) (id selected)) as [He | Hne].
    + split; [contradiction |]. intros _ x. cbn. apply filter_neq_In.
    + split; [reflexivity | contradiction].
  - exact Hedge.
  - now apply edge_shrinks_acyclic.
Qed.

Lemma removeDep_spec_witness :
  nth_error [tX_sample; tY_sample] 1 = Some tY_sample
  /\ exists t', nth_error (removeDep tY_sample "X" [tX_sample; tY_sample]) 1 = Some t'
       /\ (id tY_sample <> id tY_sample -> t' = tY_sample)
       /\ (id tY_sample = id tY_sample ->
             forall x, In x (deps t') <-> In x (deps tY_sample) /\ x <> "X").
Proof.
  assert (H : nth_error [tX_sample; tY_sample] 1 = Some tY_sample) by reflexivity.
  split; [exact H |].
  apply (proj1 (proj2 (removeDep_spec tY_sample "X" [tX_sample; tY_sample]))
           1%nat tY_sample H).
Defined.

Lemma toggleDep_nth (from to : string) (prev : list Task) (k : nat) (t : Task) :
  from <> to -> nth_error prev k = Some t ->
  nth_error (toggleDep from to prev) k
  = Some (if negb (String.eqb (id t) to) then t
          else set_deps t (if mem from (deps t)
                           then filter (fun d => negb (String.eqb d from)) (deps t)
                           else deps t ++ [from])).
Proof.
  intros Hne Hk. unfold toggleDep.
  destruct (String.eqb_spec from to); [contradiction |].
  now rewrite nth_error_map, Hk.
Qed.

(** X14. [toggleDep from to] with two different ids flips whether [from] is
    listed by the tasks with id [to] and changes nothing else: other tasks,
    and the name, dates, colour and other dependencies of the tasks with id
    [to], stay as they are.  Nothing requires [from] to be the id of a
    task. *)
Theorem toggleDep_flips (from to : string) (prev : list Task) :
  from <> to ->
  map nonDeps (toggleDep from to prev) = map nonDeps prev
  /\ forall k t, nth_error prev k = Some t ->
       exists t', nth_error (toggleDep from to prev) k = Some t'
         /\ (id t <> to -> t' = t)
         /\ (id t = to ->
               (In from (deps t') <-> ~ In from (deps t))
               /\ forall d, d <> from -> (In d (deps t') <-> In d (deps t))).
Proof.
  intros Hne. split.
  - unfold toggleDep. destruct (String.eqb_spec from to); [contradiction |].
    rewrite map_map. apply map_ext. intros t.
    destruct (negb (String.eqb (id t) to)); reflexivity.
  - intros k t Hk. rewrite (toggleDep_nth from to prev k t Hne Hk).
    eexists. split; [reflexivity |].
    destruct (String.eqb_spec (id t) to) as [He | Hn]; cbn [negb].
    + split; [contradiction |]. intros _. cbn [deps set_deps].
      destruct (mem from (deps t)) eqn:Hm.
      * apply mem_In in Hm. split.
        -- rewrite filter_neq_In. tauto.
        -- intros d Hd. rewrite filter_neq_In. tauto.
      * apply mem_false in Hm. split.
        -- rewrite in_app_iff. cbn. tauto.
        -- intros d Hd. rewrite in_app_iff. cbn. intuition congruence.
    + split; [reflexivity | contradiction].
Qed.

Lemma toggleDep_flips_witness :
  "X" <> "Y"
  /\ map nonDeps (toggleDep "X" "Y" [tX_sample; tY_sample])
     = map nonDeps [tX_sample; tY_sample].
Proof.
  assert (H : "X" <> "Y") by discriminate.
  split; [exact H |].
  apply (proj1 (toggleDep_flips "X" "Y" [tX_sample; tY_sample] H)).
Defined.

Lemma filter_neq_absent (from : string) (l : list string) :
  ~ In from l -> filter (fun d => negb (String.eqb d from)) l = l.
Proof.
  induction l as [| d l IH]; intros H; [reflexivity |]. cbn.
  destruct (String.eqb_spec d from) as [-> | Hne]; cbn.
  - exfalso. apply H. now left.
  - f_equal. apply IH. intros Hin. apply H. now right.
Qed.

(** X15. Adding a dependency and toggling it again gives the list back:
    when no task with id [to] lists [from], two calls of [toggleDep from to]
    return the list unchanged. *)
Theorem toggleDep_twice (from to : string) (prev : list Task) :
  (forall t, In t prev -> id t = to -> ~ In from (deps t)) ->
  toggleDep from to (toggleDep from to prev) = prev.
Proof.
  intros Habs. unfold toggleDep.
  destruct (String.eqb_spec from to) as [He | Hne]; [reflexivity |].
  rewrite map_map. rewrite <- (map_id prev) at 2. apply map_ext_in.
  intros t Ht.
  destruct (String.eqb_spec (id t) to) as [Hto | Hnto]; cbn [negb].
  - cbn [id set_deps]. rewrite Hto, String.eqb_refl. cbn [negb].
    specialize (Habs t Ht Hto).
    replace (mem from (deps t)) with false
      by (symmetry; now apply mem_false).
    change (deps (set_deps t (deps t ++ [from]))) with (deps t ++ [from]).
    assert (Hm : mem from (deps t ++ [from]) = true).
    { apply mem_In, in_or_app. right. now left. }
    rewrite Hm, filter_app. cbn [filter]. rewrite String.eqb_refl. cbn [negb].
    rewrite app_nil_r, filter_neq_absent by assumption.
    destruct t; reflexivity.
  - destruct (String.eqb_spec (id t) to); [contradiction | reflexivity].
Qed.

Lemma toggleDep_twice_witness :
  toggleDep "Y" "X" (toggleDep "Y" "X" [tX_sample; tY_sample])
  = [tX_sample; tY_sample].
Proof.
  apply (toggleDep_twice "Y" "X" [tX_sample; tY_sample]).
  intros t [<- | [<- | []]] H; [intros [] | discriminate H].
Defined.

(** Removing a dependency and toggling it again need not give the list
    back: the dependency returns at the end of the list. *)
Example toggleDep_twice_reorders :
  toggleDep "A" "T" (toggleDep "A" "T" [mkTask "T" "t" "2024-01-01" "2024-01-02" None ["A"; "B"]])
  = [mkTask "T" "t" "2024-01-01" "2024-01-02" None ["B"; "A"]].
Proof. reflexivity. Qed.

(** X24. Whatever the list, [topoSort] returns, and what it returns is a
    rearrangement of the ids of the list, each id as often as in the list. *)
Theorem topoSort_permutation (tasks : list Task) :
  exists order,
    topoSort tasks = Some order /\ Permutation order (map id tasks).
Proof.
  destruct (kahn_result tasks) as [out [indeg [Hk Hinv]]].
  destruct (kahn_out_ids _ _ _ _ Hinv) as [Hout Hincl].
  unfold topoSort. cbv zeta. rewrite Hk.
  destruct (Nat.eqb_spec (List.length out) (List.length (map id tasks))) as [He | Hne].
  - exists out. split; [reflexivity |].
    apply NoDup_Permutation_bis; [assumption | lia | exact Hincl].
  - exists (map id tasks). split; [reflexivity | apply Permutation_refl].
Qed.

Lemma addEdge_shape (t u : Task) (st : JsMap (list string) * JsMap Z)
    (p : string) :
  id t = id u -> addEdge t st p = addEdge u st p.
Proof. intros H. unfold addEdge. now rewrite H. Qed.

Lemma addEdges_shape (t u : Task) (st : JsMap (list string) * JsMap Z) :
  shape t = shape u -> addEdges st t = addEdges st u.
Proof.
  intros H. injection H as Hid Hdeps. unfold addEdges. rewrite Hdeps.
  generalize (deps u) as ds. clear Hdeps. intros ds.
  revert st. induction ds as [| p ds IH]; intros st; [reflexivity |].
  cbn [fold_left]. rewrite (addEdge_shape t u st p Hid). apply IH.
Qed.

Lemma topoSort_shape (a b : list Task) :
  map shape a = map shape b -> topoSort a = topoSort b.
Proof.
  intros H. pose proof (shape_ids _ _ H) as Hids.
  assert (Hb : buildGraph a = buildGraph b).
  { unfold buildGraph. cbv zeta. rewrite Hids.
    generalize (map_of_entries (map (fun i => (i, @nil string)) (map id b)),
                map_of_entries (map (fun i => (i, 0%Z)) (map id b))).
    clear Hids. revert b H.
    induction a as [| t a IH]; intros [| u b] H st; try discriminate;
      [reflexivity |].
    cbn in H. injection H as Hs Hrest. cbn [fold_left].
    unfold shape in Hs.
    rewrite (addEdges_shape t u st) by (unfold shape; congruence).
    now apply IH. }
  unfold topoSort. cbv zeta. now rewrite Hb, Hids.
Qed.

Lemma relax_appends (ss : list string) (d : JsMap Z) (q : list string) :
  exists news, snd (fold_left relax ss (d, q)) = q ++ news.
Proof.
  revert d q. induction ss as [| n ss IH]; intros d q; cbn [fold_left].
  - exists []. now rewrite app_nil_r.
  - rewrite relax_eq. cbn [fst snd].
    destruct (getd n d - 1 =? 0)%Z.
    + destruct (IH (map_set n (getd n d - 1)%Z d) (q ++ [n])) as [news Hn].
      exists (n :: news). rewrite Hn, <- app_assoc. reflexivity.
    + apply IH.
Qed.

(** The queue leaves the loop in the order it has. *)
Lemma kahn_prefix (fuel : nat) (graph : JsMap (list string)) :
  forall (d : JsMap Z) (q out out' : list string),
  kahn fuel graph (d, q) out = Some out' ->
  exists rest, out' = out ++ q ++ rest.
Proof.
  induction fuel as [| fuel IH]; intros d q out out' Hk.
  - destruct q as [| x q]; cbn in Hk; [| discriminate].
    injection Hk as <-. exists []. now rewrite !app_nil_r.
  - destruct q as [| x q]; cbn [kahn fst snd] in Hk.
    + injection Hk as <-. exists []. now rewrite !app_nil_r.
    + destruct (relax_appends (succs x graph) d q) as [news Hn].
      destruct (fold_left relax (succs x graph) (d, q)) as [d1 q1] eqn:Hr.
      cbn [snd] in Hn. subst q1.
      destruct (IH d1 (q ++ news) (out ++ [x]) out' Hk) as [rest Hrest].
      exists (news ++ rest). rewrite Hrest, <- !app_assoc. reflexivity.
Qed.

Lemma const_entries_keys {V} (c : V) (ids : list string) (m : JsMap V) :
  NoDup (map fst m ++ ids) ->
  map fst (fold_left (fun m e => map_set (fst e) (snd e) m)
                     (map (fun i => (i, c)) ids) m)
  = map fst m ++ ids.
Proof.
  revert m. induction ids as [| i ids IH]; intros m Hnd; cbn [map fold_left].
  - now rewrite app_nil_r.
  - cbn [fst snd].
    assert (Hi : map_has i m = false).
    { destruct (map_has i m) eqn:Hh; [| reflexivity].
      apply map_has_keys in Hh. apply NoDup_remove_2 in Hnd.
      exfalso. apply Hnd. apply in_or_app. now left. }
    rewrite IH.
    + rewrite map_set_keys, Hi, <- app_assoc. reflexivity.
    + rewrite map_set_keys, Hi, <- app_assoc. exact Hnd.
Qed.

Lemma addEdge_keys (ids : list string) (t : Task)
    (st : JsMap (list string) * JsMap Z) (p : string) :
  In (id t) ids -> buildKeys ids st ->
  map fst (snd (addEdge t st p)) = map fst (snd st).
Proof.
  intros Hid [_ [Hd _]]. unfold addEdge.
  destruct (map_has p (fst st)); [| reflexivity]. cbn [snd].
  apply map_set_keys_has. rewrite Hd. now apply mem_In.
Qed.

Lemma addEdges_keys (ids : list string) (t : Task) (ds : list string)
    (st : JsMap (list string) * JsMap Z) :
  In (id t) ids -> buildKeys ids st ->
  map fst (snd (fold_left (addEdge t) ds st)) = map fst (snd st).
Proof.
  intros Hid. revert st. induction ds as [| p ds IH]; intros st Hst; [reflexivity |].
  cbn [fold_left].
  rewrite IH by (apply (addEdge_spec ids t st p Hid Hst)).
  now apply (addEdge_keys ids).
Qed.

Lemma build_keys (ids : list string) (l : list Task)
    (st : JsMap (list string) * JsMap Z) :
  (forall t, In t l -> In (id t) ids) -> buildKeys ids st ->
  map fst (snd (fold_left addEdges l st)) = map fst (snd st).
Proof.
  revert st. induction l as [| t l IH]; intros st Hl Hst; [reflexivity |].
  cbn [fold_left].
  assert (Hid : In (id t) ids) by (apply Hl; now left).
  rewrite IH.
  - unfold addEdges. now apply (addEdges_keys ids).
  - intros u Hu. apply Hl. now right.
  - unfold addEdges. apply (addEdges_spec ids t (deps t) st Hid Hst).
Qed.

(** With distinct ids the in-degree map lists the ids in the order of the
    list. *)
Lemma buildGraph_keys (tasks : list Task) :
  NoDup (map id tasks) ->
  map fst (snd (buildGraph tasks)) = map id tasks.
Proof.
  intros Hnd. unfold buildGraph. cbv zeta.
  set (ids := map id tasks).
  set (st0 := (map_of_entries (map (fun i => (i, @nil string)) ids),
               map_of_entries (map (fun i => (i, 0%Z)) ids))).
  assert (H0 : buildKeys ids st0).
  { unfold buildKeys, st0, map_has; cbn [fst snd]. repeat split.
    - intros p. rewrite const_entries_get. destruct (mem p ids); reflexivity.
    - intros p. rewrite const_entries_get. destruct (mem p ids); reflexivity.
    - apply map_of_entries_NoDup. }
  rewrite (build_keys ids tasks st0); [| | exact H0].
  - unfold st0. cbn [snd]. unfold map_of_entries.
    rewrite const_entries_keys; [reflexivity | exact Hnd].
  - intros t Ht. unfold ids. now apply in_map.
Qed.

Lemma initialQueue_keys (m : JsMap Z) :
  NoDup (map fst m) ->
  initialQueue m = filter (fun k => (getd k m =? 0)%Z) (map fst m).
Proof.
  unfold initialQueue. induction m as [| [k v] m IH]; intros Hnd; [reflexivity |].
  cbn in Hnd. inversion Hnd as [| ? ? Hnot Hnd']; subst.
  cbn [filter map fst snd]. unfold getd at 1. cbn [map_get].
  rewrite String.eqb_refl.
  assert (Hrest : filter (fun k0 => (getd k0 ((k, v) :: m) =? 0)%Z) (map fst m)
                  = filter (fun k0 => (getd k0 m =? 0)%Z) (map fst m)).
  { apply filter_ext_in. intros k0 Hk0. unfold getd. cbn [map_get].
    destruct (String.eqb_spec k0 k) as [-> | _]; [contradiction | reflexivity]. }
  rewrite Hrest, <- (IH Hnd').
  destruct (v =? 0)%Z; reflexivity.
Qed.

Lemma filter_map_comm {A B} (f : B -> bool) (g : A -> B) (l : list A) :
  filter f (map g l) = map g (filter (fun x => f (g x)) l).
Proof.
  induction l as [| a l IH]; [reflexivity |]. cbn.
  destruct (f (g a)); cbn; now rewrite IH.
Qed.

Lemma predecessorFree_rdeps (tasks : list Task) (t : Task) :
  NoDup (map id tasks) -> In t tasks ->
  (predecessorFree tasks t = true <-> rdeps tasks (id t) = []).
Proof.
  intros Hnd Ht. unfold predecessorFree. rewrite forallb_forall. split.
  - intros H. destruct (rdeps tasks (id t)) as [| p l] eqn:Hr; [reflexivity |].
    exfalso.
    assert (Hp : In p (rdeps tasks (id t))) by (rewrite Hr; now left).
    apply rdepsOf_In in Hp. destruct Hp as [u [Hu [Hid [Hpd Hpi]]]].
    assert (u = t).
    { pose proof (lastWithId_NoDup tasks u Hnd Hu) as H1.
      pose proof (lastWithId_NoDup tasks t Hnd Ht) as H2.
      rewrite Hid in H1. congruence. }
    subst u. specialize (H p Hpd). apply mem_In in Hpi. rewrite Hpi in H.
    discriminate.
  - intros Hr p Hp. destruct (mem p (map id tasks)) eqn:Hm; [| reflexivity].
    exfalso. apply mem_In in Hm.
    assert (Hin : In p (rdeps tasks (id t))).
    { apply rdepsOf_In. exists t. auto. }
    rewrite Hr in Hin. destruct Hin.
Qed.

(** X26. Ties follow the list.  For a list with distinct ids and without
    cycle the order returned by [topoSort] begins with the tasks that have
    no resolvable predecessor, in the order of the list; when no task has
    one, it is the order of the list. *)
Theorem topoSort_free_tasks_first (tasks : list Task) :
  NoDup (map id tasks) -> acyclic tasks ->
  (exists rest,
     topoSort tasks
     = Some (map id (filter (predecessorFree tasks) tasks) ++ rest))
  /\ ((forall t, In t tasks -> predecessorFree tasks t = true) ->
      topoSort tasks = Some (map id tasks)).
Proof.
  intros Hnd Hac.
  destruct (kahn_result tasks) as [out [indeg [Hk Hinv]]].
  destruct (kahn_out_ids _ _ _ _ Hinv) as [Hout Hincl].
  assert (Hperm : Permutation out (map id tasks)).
  { apply NoDup_Permutation; try assumption.
    intros n. split; [apply Hincl | apply (acyclic_all_output _ _ _ _ Hac Hinv)]. }
  assert (Hts : topoSort tasks = Some out).
  { unfold topoSort. cbv zeta. rewrite Hk.
    now rewrite (Permutation_length Hperm), Nat.eqb_refl. }
  destruct (kahn_prefix _ _ _ _ _ _ Hk) as [rest Hrest]. cbn [app] in Hrest.
  destruct (buildGraph_spec tasks) as [_ [Hd [_ Hkn]]].
  assert (Hq : initialQueue (snd (buildGraph tasks))
               = map id (filter (predecessorFree tasks) tasks)).
  { rewrite (initialQueue_keys _ Hkn), (buildGraph_keys tasks Hnd).
    rewrite filter_map_comm. f_equal. apply filter_ext_in.
    intros t Ht. rewrite Hd.
    destruct (predecessorFree tasks t) eqn:Hp.
    - apply (predecessorFree_rdeps tasks t Hnd Ht) in Hp. now rewrite Hp.
    - destruct (rdeps tasks (id t)) as [| p l] eqn:Hr; [| reflexivity].
      apply (predecessorFree_rdeps tasks t Hnd Ht) in Hr. congruence. }
  rewrite Hq in Hrest.
  split.
  - exists rest. now rewrite Hts, Hrest.
  - intros Hall.
    assert (Hf : filter (predecessorFree tasks) tasks = tasks).
    { apply forallb_filter_id. now apply forallb_forall. }
    rewrite Hf in Hrest.
    assert (rest = []).
    { apply Permutation_length in Hperm. rewrite Hrest, length_app in Hperm.
      destruct rest; [reflexivity | cbn in Hperm; lia]. }
    subst rest. rewrite app_nil_r in Hrest. now rewrite Hts, Hrest.
Qed.

Lemma topoSort_free_tasks_first_witness :
  NoDup (map id chain_tasks) /\ acyclic chain_tasks
  /\ exists rest,
       topoSort chain_tasks
       = Some (map id (filter (predecessorFree chain_tasks) chain_tasks) ++ rest).
Proof.
  assert (Hnd : NoDup (map id chain_tasks)).
  { repeat constructor; cbn; intuition discriminate. }
  split; [exact Hnd |]. split; [exact chain_tasks_acyclic |].
  apply (proj1 (topoSort_free_tasks_first chain_tasks Hnd chain_tasks_acyclic)).
Defined.


(** ** The drag reducer *)

Section Drag.

Variable z : Zone.
Hypothesis Hz : regularZone z.
Variables now1 now2 : Z.

Local Open Scope Z_scope.

(** [onMoveTask] on day numbers, for a snapshot, a window and days under
    the pointer that are dates of the data model. *)
Lemma onMoveTask_days (d : Drag) (w : Z) (minS maxS : DateStr) (ddays : Z)
    (t : Task) :
  0 < w ->
  goodDate minS -> goodDate maxS ->
  goodDate (origStart d) -> goodDate (origEnd d) ->
  Forall fourDigits (pointedDays d ddays) ->
  (kind d = resize_left -> fourDigits (dayNum (origEnd d) + -1)) ->
  (kind d = resize_right -> fourDigits (dayNum (origStart d) + 1)) ->
  onMoveTask z d w minS maxS ddays t =
  if negb (String.eqb (id t) (drag_id d)) then t
  else match kind d with
       | move =>
           set_start_end t
             (dayStr (clampDay (dayNum (origStart d) + ddays)
                               (dayNum minS) (dayNum maxS)))
             (dayStr (clampDay (dayNum (origEnd d) + ddays)
                               (dayNum minS) (dayNum maxS)))
       | resize_left =>
           set_start t
             (dayStr (clampDay
                        (if dayNum (origStart d) + ddays
                            >=? dayNum (origEnd d) + -1
                         then dayNum (origEnd d) + -1
                         else dayNum (origStart d) + ddays)
                        (dayNum minS) (dayNum maxS)))
       | resize_right =>
           set_end t
             (dayStr (clampDay
                        (if dayNum (origEnd d) + ddays
                            <=? dayNum (origStart d) + 1
                         then dayNum (origStart d) + 1
                         else dayNum (origEnd d) + ddays)
                        (dayNum minS) (dayNum maxS)))
       end.
Proof.
  intros Hw Hmn Hmx Hos Hoe Hpt Hfl Hfr. unfold onMoveTask.
  destruct (negb (id t =? drag_id d)%string); [reflexivity |].
  pose proof (proj1 Hmn) as Fmn. pose proof (proj1 Hmx) as Fmx.
  pose proof (proj2 Hmn) as Emn. pose proof (proj2 Hmx) as Emx.
  unfold pointedDays in Hpt.
  destruct (kind d) eqn:Hk.
  - inversion Hpt as [| ? ? Hp1 Hpt']; subst.
    inversion Hpt' as [| ? ? Hp2 _]; subst.
    rewrite (xToDate_shift z Hz) by
      (assumption || (apply fourDigits_range; assumption)).
    rewrite (parseDate_dayStr z Hz _ Hp1).
    rewrite (parseDate_good z Hz _ Hoe), (parseDate_good z Hz _ Hos).
    rewrite (diffInDays_midnight z Hz) by (apply Hoe || apply Hos).
    rewrite (fmt_addDays_midnight z Hz).
    2:{ apply fourDigits_range.
        replace (dayNum (origStart d) + ddays
                 + (dayNum (origEnd d) - dayNum (origStart d)))
          with (dayNum (origEnd d) + ddays) by ring.
        assumption. }
    replace (dayNum (origStart d) + ddays
             + (dayNum (origEnd d) - dayNum (origStart d)))
      with (dayNum (origEnd d) + ddays) by ring.
    rewrite !(clampDateStr_good z Hz) by assumption. reflexivity.
  - inversion Hpt as [| ? ? Hp1 _]; subst.
    rewrite (xToDate_shift z Hz) by
      (assumption || (apply fourDigits_range; assumption)).
    rewrite (guard_left z Hz) by assumption.
    rewrite (clampDateStr_good z Hz); try assumption; [reflexivity |].
    destruct (_ >=? _); [now apply Hfl | assumption].
  - inversion Hpt as [| ? ? Hp1 _]; subst.
    rewrite (xToDate_shift z Hz) by
      (assumption || (apply fourDigits_range; assumption)).
    rewrite (guard_right z Hz) by assumption.
    rewrite (clampDateStr_good z Hz); try assumption; [reflexivity |].
    destruct (_ <=? _); [now apply Hfr | assumption].
Qed.

Lemma onMoveTask_id (d : Drag) (w : Z) (minS maxS : DateStr) (ddays : Z)
    (t : Task) :
  id (onMoveTask z d w minS maxS ddays t) = id t.
Proof.
  unfold onMoveTask. destruct (negb _); [reflexivity |].
  destruct (kind d); reflexivity.
Qed.






End Drag.

(** Dates and lists given in full are checked by evaluation. *)
Lemma fourDigits_check (n : Z) :
  ((FIRST_DAY <=? n) && (n <=? LAST_DAY))%Z = true -> fourDigits n.
Proof.
  intros H. apply andb_prop in H. destruct H as [H1 H2].
  apply Z.leb_le in H1, H2. split; assumption.
Qed.


Lemma goodDate_check (s : DateStr) :
  ((FIRST_DAY <=? dayNum s) && (dayNum s <=? LAST_DAY))%Z
  && String.eqb s (dayStr (dayNum s)) = true ->
  goodDate s.
Proof.
  intros H. apply andb_prop in H. destruct H as [H1 H2].
  split; [now apply fourDigits_check | now apply String.eqb_eq].
Qed.

Lemma startBeforeEnd_check (t : Task) :
  ((FIRST_DAY <=? dayNum (start t)) && (dayNum (start t) <=? LAST_DAY))%Z
  && String.eqb (start t) (dayStr (dayNum (start t)))
  && (((FIRST_DAY <=? dayNum (end_ t)) && (dayNum (end_ t) <=? LAST_DAY))%Z
      && String.eqb (end_ t) (dayStr (dayNum (end_ t))))
  && (dayNum (start t) <=? dayNum (end_ t))%Z = true ->
  startBeforeEnd t.
Proof.
  intros H. apply andb_prop in H. destruct H as [H H3].
  apply andb_prop in H. destruct H as [H1 H2].
  split; [now apply goodDate_check |].
  split; [now apply goodDate_check | now apply Z.leb_le].
Qed.




(** ** [autoSchedule] *)

Lemma num_lt_None_r (a : option Z) : num_lt a None = false.
Proof. destruct a; reflexivity. Qed.

Lemma num_gt_None_r (a : option Z) : num_gt a None = false.
Proof. destruct a; reflexivity. Qed.


Lemma topoSort_ids (tasks : list Task) (order : list string) :
  topoSort tasks = Some order -> forall i, In i order -> In i (map id tasks).
Proof.
  destruct (kahn_result tasks) as [out [indeg [Hk Hinv]]].
  unfold topoSort. cbv zeta. rewrite Hk. intros [= <-] i.
  destruct (Nat.eqb _ _); [| auto].
  apply (kahn_out_ids _ _ _ _ Hinv).
Qed.

Lemma store_set_nth_other (store : list Task) (r k : nat) (t' : Task) :
  r <> k -> nth_error (store_set store r t') k = nth_error store k.
Proof.
  revert r k. induction store as [| u store IH]; intros [| r] [| k] Hne;
    cbn; try reflexivity; try congruence.
  apply IH. congruence.
Qed.

Section ScheduleAnyZone.

Variable z : Zone.

Local Open Scope Z_scope.

Lemma latestEndSched_None (nm : JsMap nat) (orig : JsMap Task)
    (store : list Task) (ds : list string) :
  latestEndSched z nm orig store ds None = None.
Proof.
  unfold latestEndSched. induction ds as [| d ds IH]; cbn [fold_left];
    [reflexivity |].
  destruct (lookupPred nm orig store d); [| exact IH].
  cbv zeta. now rewrite num_gt_None_r.
Qed.

(** From a start that is a date, the [reduce] gives the latest instant among
    the start and the ends of the predecessors that are dates. *)
Lemma latestEndSched_Some (nm : JsMap nat) (orig : JsMap Task)
    (store : list Task) (ds : list string) (a : Z) :
  exists L,
    latestEndSched z nm orig store ds (Some a) = Some L
    /\ a <= L
    /\ (forall pid p e, In pid ds -> lookupPred nm orig store pid = Some p ->
          parseDate z (end_ p) = Some e -> e <= L)
    /\ (L = a
        \/ exists pid p, In pid ds /\ lookupPred nm orig store pid = Some p
                         /\ parseDate z (end_ p) = Some L).
Proof.
  unfold latestEndSched. revert a.
  induction ds as [| d ds IH]; intros a; cbn [fold_left].
  - exists a. split; [reflexivity |]. split; [lia |].
    split; [intros ? ? ? [] | now left].
  - destruct (lookupPred nm orig store d) as [q |] eqn:Hq.
    + cbv zeta. destruct (parseDate z (end_ q)) as [e |] eqn:He; cbn [num_gt].
      * destruct (e >? a) eqn:Hgt.
        -- apply Z.gtb_lt in Hgt.
           destruct (IH e) as [L [HL [H1 [H2 H3]]]]. exists L.
           split; [exact HL |]. split; [lia |]. split.
           ++ intros pid p e' [<- | Hin] Hp He'; [| eauto].
              rewrite Hq in Hp. injection Hp as <-.
              rewrite He in He'. injection He' as <-. lia.
           ++ right. destruct H3 as [-> | [pid [p [Hin [Hp HL']]]]].
              ** exists d, q. cbn. auto.
              ** exists pid, p. cbn. auto.
        -- rewrite Z.gtb_ltb in Hgt. apply Z.ltb_ge in Hgt.
           destruct (IH a) as [L [HL [H1 [H2 H3]]]]. exists L.
           split; [exact HL |]. split; [lia |]. split.
           ++ intros pid p e' [<- | Hin] Hp He'; [| eauto].
              rewrite Hq in Hp. injection Hp as <-.
              rewrite He in He'. injection He' as <-. lia.
           ++ destruct H3 as [-> | [pid [p [Hin [Hp HL']]]]]; [now left |].
              right. exists pid, p. cbn. auto.
      * destruct (IH a) as [L [HL [H1 [H2 H3]]]]. exists L.
        split; [exact HL |]. split; [lia |]. split.
        -- intros pid p e' [<- | Hin] Hp He'; [| eauto].
           rewrite Hq in Hp. injection Hp as <-. congruence.
        -- destruct H3 as [-> | [pid [p [Hin [Hp HL']]]]]; [now left |].
           right. exists pid, p. cbn. auto.
    + destruct (IH a) as [L [HL [H1 [H2 H3]]]]. exists L.
      split; [exact HL |]. split; [lia |]. split.
      * intros pid p e' [<- | Hin] Hp He'; [congruence | eauto].
      * destruct H3 as [-> | [pid [p [Hin [Hp HL']]]]]; [now left |].
        right. exists pid, p. cbn. auto.
Qed.

Variables (tasks : list Task) (minS maxS : DateStr).

Local Abbreviation step :=
  (scheduleStep z (nextMap tasks) (idToTask tasks) minS maxS).

(** The step on an id of the list: the task stays, and then no predecessor
    ends after it starts, or it moves to the latest end [L] among its
    predecessors, which is after its start. *)
Lemma scheduleStep_form (store : list Task) (i : string) :
  map shape store = map shape tasks -> In i (map id tasks) ->
  exists r t,
    map_get i (nextMap tasks) = Some r
    /\ nth_error store r = Some t /\ id t = i
    /\ lastWithId i store = Some t
    /\ ((satisfiedAt z store t /\ step (Some store) i = Some store)
        \/ exists a L,
             parseDate z (start t) = Some a /\ a < L
             /\ (exists pid p, In pid (deps t)
                   /\ lastWithId pid store = Some p
                   /\ parseDate z (end_ p) = Some L)
             /\ (forall pid p e, In pid (deps t) ->
                   lastWithId pid store = Some p ->
                   parseDate z (end_ p) = Some e -> e <= L)
             /\ step (Some store) i
                = Some (store_set store r
                          (set_start_end t
                             (clampDateStr z
                                (fmt z (addDays z (Some L) (Some 0)))
                                minS maxS)
                             (clampDateStr z
                                (fmt z (addDays z (Some L)
                                          (diffInDays z
                                             (parseDate z (end_ t))
                                             (parseDate z (start t)))))
                                minS maxS)))).
Proof.
  intros Hshape Hi.
  pose proof (shape_ids _ _ Hshape) as Hids.
  destruct (nextMap_object tasks store i Hids Hi) as [r [t [Hr [Ht [Hid Hlast]]]]].
  exists r, t. split; [exact Hr |]. split; [exact Ht |].
  split; [exact Hid |]. split; [exact Hlast |].
  unfold scheduleStep. rewrite Hr, Ht. cbv zeta.
  destruct (parseDate z (start t)) as [a |] eqn:Ha.
  - destruct (latestEndSched_Some (nextMap tasks) (idToTask tasks) store
                (deps t) a) as [L [HL [H1 [H2 H3]]]].
    rewrite HL. cbn [num_gt].
    destruct (L >? a) eqn:Hgt.
    + apply Z.gtb_lt in Hgt. right. exists a, L.
      split; [reflexivity |]. split; [exact Hgt |]. split; [| split].
      * destruct H3 as [-> | [pid [p [Hin [Hp HL']]]]]; [lia |].
        exists pid, p. rewrite lookupPred_lastWithId in Hp by assumption. auto.
      * intros pid p e Hin Hp He. apply (H2 pid p e Hin); [| exact He].
        now rewrite lookupPred_lastWithId.
      * reflexivity.
    + rewrite Z.gtb_ltb in Hgt. apply Z.ltb_ge in Hgt. left.
      split; [| reflexivity].
      intros pid p Hin Hp.
      destruct (parseDate z (end_ p)) as [e |] eqn:He; [| reflexivity].
      rewrite Ha. cbn [num_gt]. rewrite Z.gtb_ltb. apply Z.ltb_ge.
      assert (e <= L); [| lia].
      apply (H2 pid p e Hin); [| exact He]. now rewrite lookupPred_lastWithId.
  - rewrite latestEndSched_None. cbn [num_gt]. left.
    split; [| reflexivity].
    intros pid p Hin Hp. rewrite Ha. apply num_gt_None_r.
Qed.

Lemma scheduleFold_shape (order : list string) :
  (forall i, In i order -> In i (map id tasks)) ->
  forall store,
    map shape store = map shape tasks ->
    exists r,
      fold_left step order (Some store) = Some r
      /\ map shape r = map shape tasks.
Proof.
  induction order as [| i order IH]; intros Hord store Hshape.
  - cbn. eauto.
  - cbn [fold_left].
    assert (Hi : In i (map id tasks)) by (apply Hord; now left).
    destruct (scheduleStep_form store i Hshape Hi)
      as [r [u [_ [Hu [Hid [_ [[_ Hs] | [a [L [_ [_ [_ [_ Hs]]]]]]]]]]]]];
      rewrite Hs.
    + apply IH; auto. intros j Hj. apply Hord. now right.
    + apply IH.
      * intros j Hj. apply Hord. now right.
      * rewrite <- Hshape. now apply store_set_map with (t := u).
Qed.

(** A task none of whose dependencies is an id of the list stays where it
    is all along the loop. *)
Lemma scheduleFold_unmoved (k : nat) (t : Task) (order : list string) :
  (forall pid, In pid (deps t) -> ~ In pid (map id tasks)) ->
  (forall i, In i order -> In i (map id tasks)) ->
  forall store,
    map shape store = map shape tasks ->
    nth_error store k = Some t ->
    exists r,
      fold_left step order (Some store) = Some r
      /\ map shape r = map shape tasks
      /\ nth_error r k = Some t.
Proof.
  intros Hdang. induction order as [| i order IH]; intros Hord store Hshape Hk.
  - cbn. eauto.
  - cbn [fold_left].
    assert (Hi : In i (map id tasks)) by (apply Hord; now left).
    destruct (scheduleStep_form store i Hshape Hi)
      as [r [u [_ [Hu [Hid [_ [[_ Hs]
           | [a [L [_ [_ [[pid [p [Hpid [Hp _]]]] [_ Hs]]]]]]]]]]]]];
      rewrite Hs.
    + apply IH; auto. intros j Hj. apply Hord. now right.
    + assert (Hrk : r <> k).
      { intros ->. rewrite Hk in Hu. injection Hu as <-.
        apply (Hdang pid Hpid). rewrite <- (shape_ids _ _ Hshape).
        apply lastWithId_In in Hp. destruct Hp as [Hp <-]. now apply in_map. }
      apply IH.
      * intros j Hj. apply Hord. now right.
      * rewrite <- Hshape. now apply store_set_map with (t := u).
      * now rewrite store_set_nth_other.
Qed.

End ScheduleAnyZone.

(** A list in which no task starts before a predecessor ends is left as it
    is, whatever the order and the window. *)
Lemma schedule_fixed (z : Zone) (r : list Task) (minS maxS : DateStr)
    (order : list string) :
  (forall u, In u r -> satisfiedAt z r u) ->
  (forall i, In i order -> In i (map id r)) ->
  fold_left (scheduleStep z (nextMap r) (idToTask r) minS maxS)
            order (Some r) = Some r.
Proof.
  intros Hsat. induction order as [| i order IH]; intros Hids; [reflexivity |].
  cbn [fold_left].
  assert (Hi : In i (map id r)) by (apply Hids; now left).
  destruct (scheduleStep_form z r minS maxS r i eq_refl Hi)
    as [k [t [_ [Ht [Hid [_ [[_ Hs]
         | [a [L [Ha [HaL [[pid [p [Hpid [Hp He]]]] [_ Hs]]]]]]]]]]]]].
  - rewrite Hs. apply IH. intros j Hj. apply Hids. now right.
  - exfalso.
    assert (Htin : In t r) by (eapply nth_error_In; eassumption).
    pose proof (Hsat t Htin pid p Hpid Hp) as Hn.
    rewrite He, Ha in Hn. cbn in Hn.
    rewrite Z.gtb_ltb in Hn. apply Z.ltb_ge in Hn. lia.
Qed.

(** [autoSchedule] returns on every list, with the ids and the
    dependencies of the list. *)
Lemma autoSchedule_total (z : Zone) (now1 now2 : Z) (tasks : list Task) :
  exists r,
    autoSchedule z now1 now2 tasks = Some r /\ map shape r = map shape tasks.
Proof.
  unfold autoSchedule, autoScheduleIn.
  destruct (topoSort_total tasks) as [order Ho]. rewrite Ho.
  apply scheduleFold_shape; [now apply topoSort_ids | reflexivity].
Qed.



(** *** One run on a list with distinct ids and without cycle *)

Section Idempotence.

Variable z : Zone.
Hypothesis Hz : regularZone z.

Local Open Scope Z_scope.

(** What [fmt] writes for a day reached from a local midnight is read back
    as the midnight of that day, when it is read at all. *)
Lemma parseDate_fmt_addDays (n k : Z) :
  parseDate z (fmt z (addDays z (Some (midnight z n)) (Some k))) = None
  \/ parseDate z (fmt z (addDays z (Some (midnight z n)) (Some k)))
     = Some (midnight z (n + k)).
Proof.
  unfold addDays.
  destruct (timeClip _) as [u |] eqn:Hu.
  - assert (Hu' : u = UTC z (LocalTime z (midnight z n) + k * MS_PER_DAY)).
    { unfold timeClip in Hu. destruct (_ <=? _); congruence. }
    rewrite fmt_Some, Hu', (zone_day z Hz), Day_add, (Day_midnight z Hz).
    destruct (parseDate z (dayStr (n + k))) as [v |] eqn:Hv; [| now left].
    right. destruct (parseDate_Some z _ _ Hv) as [m [Hm ->]].
    apply isoDay_dayStr_sound in Hm. now subst m.
  - left. apply (parseDate_NaN z).
Qed.

Variables now1 now2 : Z.

(** No start compares below the left end of the window, no end above its
    right end. *)
Lemma window_bounds (tasks : list Task) (t : Task) :
  In t tasks ->
  num_lt (parseDate z (start t))
         (parseDate z (minDateStr z now1 now2 tasks)) = false
  /\ num_gt (parseDate z (end_ t))
            (parseDate z (maxDateStr z now1 now2 tasks)) = false.
Proof.
  intros Hin. destruct tasks as [| t0 rest]; [destruct Hin |].
  destruct (dateRangeStr_cons z Hz now1 now2 t0 rest)
    as [mn [mx [Heq [Hmn [Hmx _]]]]].
  unfold minDateStr, maxDateStr. rewrite Heq. cbn [fst snd]. split.
  - destruct Hmn as [-> | [tmin [_ [_ [-> Hle]]]]].
    + cbn [addDays fmt]. rewrite (parseDate_NaN z). apply num_lt_None_r.
    + destruct (parseDate_fmt_addDays (dayNum (start tmin)) (-7)) as [-> | ->];
        [apply num_lt_None_r |].
      destruct (parseDate z (start t)) as [s |] eqn:Hs; [| reflexivity].
      cbn [num_lt]. rewrite (parseDate_dayNum z _ _ Hs).
      rewrite (midnight_ltb z Hz). apply Z.ltb_ge.
      specialize (Hle t s Hin Hs). lia.
  - destruct Hmx as [-> | [tmax [_ [_ [-> Hle]]]]].
    + cbn [addDays fmt]. rewrite (parseDate_NaN z). apply num_gt_None_r.
    + destruct (parseDate_fmt_addDays (dayNum (end_ tmax)) 21) as [-> | ->];
        [apply num_gt_None_r |].
      destruct (parseDate z (end_ t)) as [e |] eqn:He; [| reflexivity].
      cbn [num_gt]. rewrite (parseDate_dayNum z _ _ He).
      rewrite (midnight_gtb z Hz), Z.gtb_ltb. apply Z.ltb_ge.
      specialize (Hle t e Hin He). lia.
Qed.


Variables (tasks : list Task) (minS maxS : DateStr).

Hypothesis ids_distinct : NoDup (map id tasks).

Local Abbreviation step :=
  (scheduleStep z (nextMap tasks) (idToTask tasks) minS maxS).



End Idempotence.





(** *** [autoSchedule] on lists of the data model *)

Lemma latestDaySched_bounds (nm : JsMap nat) (orig : JsMap Task)
    (store : list Task) (ds : list string) (init : Z) :
  (init <= latestDaySched nm orig store ds init)%Z
  /\ (forall pid p, In pid ds -> lookupPred nm orig store pid = Some p ->
        (dayNum (end_ p) <= latestDaySched nm orig store ds init)%Z)
  /\ (latestDaySched nm orig store ds init = init
      \/ exists pid p, In pid ds /\ lookupPred nm orig store pid = Some p
           /\ latestDaySched nm orig store ds init = dayNum (end_ p)).
Proof.
  unfold latestDaySched. revert init.
  induction ds as [| d ds IH]; intros init; cbn [fold_left].
  - split; [lia |]. split; [intros ? ? [] | now left].
  - destruct (lookupPred nm orig store d) as [q |] eqn:Hq.
    + destruct (dayNum (end_ q) >? init)%Z eqn:Hgt.
      * apply Z.gtb_lt in Hgt.
        destruct (IH (dayNum (end_ q))) as [H1 [H2 H3]].
        split; [lia |]. split.
        -- intros pid p [<- | Hin] Hp; [| eauto].
           rewrite Hq in Hp. injection Hp as <-. lia.
        -- right. destruct H3 as [H3 | [pid [p [Hin [Hp H3]]]]].
           ++ exists d, q. cbn. auto.
           ++ exists pid, p. cbn. auto.
      * rewrite Z.gtb_ltb in Hgt. apply Z.ltb_ge in Hgt.
        destruct (IH init) as [H1 [H2 H3]].
        split; [lia |]. split.
        -- intros pid p [<- | Hin] Hp; [| eauto].
           rewrite Hq in Hp. injection Hp as <-. lia.
        -- destruct H3 as [H3 | [pid [p [Hin [Hp H3]]]]]; [now left |].
           right. exists pid, p. cbn. auto.
    + destruct (IH init) as [H1 [H2 H3]]. split; [assumption |]. split.
      * intros pid p [<- | Hin] Hp; [congruence | eauto].
      * destruct H3 as [H3 | [pid [p [Hin [Hp H3]]]]]; [now left |].
        right. exists pid, p. cbn. auto.
Qed.

Lemma scheduleStep_None (z : Zone) (nm : JsMap nat) (orig : JsMap Task)
    (minS maxS : DateStr) (order : list string) :
  fold_left (scheduleStep z nm orig minS maxS) order None = None.
Proof. induction order as [| i order IH]; [reflexivity | exact IH]. Qed.

Lemma scheduleStepDays_None (nm : JsMap nat) (orig : JsMap Task) (mx : Z)
    (order : list string) :
  fold_left (scheduleStepDays nm orig mx) order None = None.
Proof. induction order as [| i order IH]; [reflexivity | exact IH]. Qed.

Lemma lastEnd_spec (t0 : Task) (rest : list Task) :
  (forall t, In t (t0 :: rest) ->
     (dayNum (end_ t) <= lastEnd (t0 :: rest))%Z)
  /\ exists t, In t (t0 :: rest) /\ lastEnd (t0 :: rest) = dayNum (end_ t).
Proof.
  unfold lastEnd. generalize t0. clear t0.
  induction rest as [| u rest IH]; intros t0; cbn [fold_left].
  - split; [intros t [<- | []]; lia |]. exists t0. split; [now left | reflexivity].
  - destruct (Z.max_spec (dayNum (end_ t0)) (dayNum (end_ u)))
      as [[Hlt Hmax] | [Hle Hmax]]; rewrite Hmax.
    + destruct (IH u) as [H1 [t [Ht Heq]]]. split.
      * intros v [<- | Hv]; [| now apply H1].
        specialize (H1 u (or_introl eq_refl)). lia.
      * exists t. split; [now right | exact Heq].
    + destruct (IH t0) as [H1 [t [Ht Heq]]]. split.
      * intros v [<- | [<- | Hv]].
        -- apply H1. now left.
        -- specialize (H1 t0 (or_introl eq_refl)). lia.
        -- apply H1. now right.
      * exists t. split; [| exact Heq].
        destruct Ht as [<- | Ht]; [now left | right; now right].
Qed.

Section ScheduleDays.

Variable z : Zone.
Hypothesis Hz : regularZone z.

Variables (tasks : list Task) (minS maxS : DateStr) (mx : Z).

Hypothesis Hmax : goodDate maxS.
Hypothesis Hmx : dayNum maxS = mx.

Local Open Scope Z_scope.

Lemma latestEndSched_days (nm : JsMap nat) (orig : JsMap Task)
    (store : list Task) (ds : list string) (a : Z) :
  (forall pid p, In pid ds -> lookupPred nm orig store pid = Some p ->
     goodDate (end_ p)) ->
  latestEndSched z nm orig store ds (Some (midnight z a))
  = Some (midnight z (latestDaySched nm orig store ds a)).
Proof.
  unfold latestEndSched, latestDaySched. revert a.
  induction ds as [| d ds IH]; intros a Hg; cbn [fold_left]; [reflexivity |].
  destruct (lookupPred nm orig store d) as [q |] eqn:Hq.
  - cbv zeta. rewrite (parseDate_good z Hz _ (Hg d q (or_introl eq_refl) Hq)).
    cbn [num_gt]. rewrite (midnight_gtb z Hz).
    destruct (_ >? a); apply IH; intros pid p Hin; apply Hg; now right.
  - apply IH. intros pid p Hin. apply Hg. now right.
Qed.

(** A day at or after a start of the store, within the years of four
    digits, is cut at the right end of the window and nowhere else. *)
Lemma clampDateStr_right (n s0 : Z) :
  fourDigits n -> s0 <= n ->
  num_lt (Some (midnight z s0)) (parseDate z minS) = false ->
  clampDateStr z (dayStr n) minS maxS = dayStr (Z.min n mx).
Proof.
  intros Hn Hs Hlo. unfold clampDateStr. cbv zeta.
  rewrite (parseDate_dayStr z Hz n Hn), (parseDate_good z Hz maxS Hmax), Hmx.
  replace (num_lt (Some (midnight z n)) (parseDate z minS)) with false.
  - cbn [num_gt]. rewrite (midnight_gtb z Hz).
    destruct (n >? mx) eqn:Hgt.
    + apply Z.gtb_lt in Hgt. rewrite Z.min_r by lia.
      destruct Hmax as [_ Heq]. rewrite Heq at 1. now rewrite Hmx.
    + rewrite Z.gtb_ltb in Hgt. apply Z.ltb_ge in Hgt. now rewrite Z.min_l by lia.
  - symmetry. destruct (parseDate z minS) as [lo |]; [| reflexivity].
    cbn [num_lt] in *. apply Z.ltb_ge. apply Z.ltb_ge in Hlo.
    pose proof (proj2 (midnight_le z Hz s0 n) Hs). lia.
Qed.

(** On a store of the data model the step is the step on day numbers, and
    it leaves a store of the data model. *)
Lemma scheduleStep_days (store : list Task) (i : string) :
  map shape store = map shape tasks ->
  storeInYears mx store ->
  (forall u, In u store ->
     num_lt (parseDate z (start u)) (parseDate z minS) = false) ->
  scheduleStep z (nextMap tasks) (idToTask tasks) minS maxS (Some store) i
  = scheduleStepDays (nextMap tasks) (idToTask tasks) mx (Some store) i
  /\ forall store',
       scheduleStepDays (nextMap tasks) (idToTask tasks) mx (Some store) i
       = Some store' ->
       map shape store' = map shape tasks
       /\ storeInYears mx store'
       /\ (forall u, In u store' ->
             num_lt (parseDate z (start u)) (parseDate z minS) = false).
Proof.
  intros Hshape Hinv Hlo.
  pose proof (shape_ids _ _ Hshape) as Hids.
  unfold scheduleStep, scheduleStepDays.
  destruct (map_get i (nextMap tasks)) as [r |];
    [| split; [reflexivity | discriminate]].
  destruct (nth_error store r) as [t |] eqn:Ht;
    [| split; [reflexivity | discriminate]].
  cbv zeta.
  assert (Htin : In t store) by (eapply nth_error_In; eassumption).
  destruct (Hinv t Htin) as [[Hgs [Hge Hse]] [Hemx Hroom]].
  pose proof (Hlo t Htin) as Hlot.
  rewrite (parseDate_good z Hz _ Hgs) in *.
  rewrite (parseDate_good z Hz _ Hge).
  rewrite latestEndSched_days.
  2:{ intros pid p _ Hp. rewrite lookupPred_lastWithId in Hp by assumption.
      apply lastWithId_In in Hp. apply (Hinv p (proj1 Hp)). }
  destruct (latestDaySched_bounds (nextMap tasks) (idToTask tasks) store
              (deps t) (dayNum (start t))) as [HL1 [HL2 HL3]].
  set (L := latestDaySched (nextMap tasks) (idToTask tasks) store (deps t)
              (dayNum (start t))) in *.
  cbn [num_gt]. rewrite (midnight_gtb z Hz).
  destruct (L >? dayNum (start t)) eqn:Hgt;
    [| split; [reflexivity | intros ? [= <-]; auto]].
  apply Z.gtb_lt in Hgt.
  pose proof (proj1 Hgs) as Hfs. pose proof (proj1 Hge) as Hfe.
  pose proof (proj1 Hmax) as Hfm. rewrite Hmx in Hfm.
  assert (HLmx : L <= mx).
  { destruct HL3 as [Heq | [pid [p [Hpid [Hp Heq]]]]]; [lia |].
    rewrite lookupPred_lastWithId in Hp by assumption.
    apply lastWithId_In in Hp. rewrite Heq. apply (Hinv p (proj1 Hp)). }
  unfold fourDigits, FIRST_DAY, LAST_DAY in Hfs, Hfe, Hfm, Hroom.
  assert (HfL : fourDigits L) by (unfold fourDigits, FIRST_DAY, LAST_DAY; lia).
  assert (HfX : fourDigits (L + (dayNum (end_ t) - dayNum (start t))))
    by (unfold fourDigits, FIRST_DAY, LAST_DAY; lia).
  rewrite (diffInDays_midnight z Hz) by (unfold fourDigits, FIRST_DAY, LAST_DAY; lia).
  rewrite !(fmt_addDays_midnight z Hz) by lia.
  rewrite Z.add_0_r.
  rewrite (clampDateStr_right L (dayNum (start t))) by (assumption || lia).
  rewrite (clampDateStr_right (L + (dayNum (end_ t) - dayNum (start t)))
             (dayNum (start t))) by (assumption || lia).
  rewrite (Z.min_l L mx) by lia.
  split; [reflexivity |]. intros store' [= <-].
  set (X := Z.min (L + (dayNum (end_ t) - dayNum (start t))) mx).
  assert (HfXm : fourDigits X)
    by (unfold fourDigits, FIRST_DAY, LAST_DAY; subst X; lia).
  split; [| split].
  - rewrite <- Hshape. now apply store_set_map with (t := t).
  - intros u Hu. destruct (store_set_In _ _ _ _ Hu) as [-> | Hu']; [| auto].
    unfold startBeforeEnd. cbn [start end_ set_start_end].
    rewrite !dayNum_dayStr by assumption.
    split; [| unfold LAST_DAY; subst X; lia].
    split; [now apply goodDate_dayStr |].
    split; [now apply goodDate_dayStr | subst X; lia].
  - intros u Hu. destruct (store_set_In _ _ _ _ Hu) as [-> | Hu']; [| auto].
    cbn [start set_start_end]. rewrite (parseDate_dayStr z Hz L HfL).
    destruct (parseDate z minS) as [lo |]; [| reflexivity].
    cbn [num_lt] in *. apply Z.ltb_ge. apply Z.ltb_ge in Hlot.
    pose proof (proj2 (midnight_le z Hz (dayNum (start t)) L)). lia.
Qed.

Lemma scheduleFold_days (order : list string) :
  forall store,
    map shape store = map shape tasks ->
    storeInYears mx store ->
    (forall u, In u store ->
       num_lt (parseDate z (start u)) (parseDate z minS) = false) ->
    fold_left (scheduleStep z (nextMap tasks) (idToTask tasks) minS maxS)
              order (Some store)
    = fold_left (scheduleStepDays (nextMap tasks) (idToTask tasks) mx)
                order (Some store)
    /\ forall r,
         fold_left (scheduleStepDays (nextMap tasks) (idToTask tasks) mx)
                   order (Some store) = Some r ->
         map shape r = map shape tasks /\ storeInYears mx r.
Proof.
  induction order as [| i order IH]; intros store Hshape Hinv Hlo.
  - cbn. split; [reflexivity |]. intros r [= <-]. auto.
  - cbn [fold_left].
    destruct (scheduleStep_days store i Hshape Hinv Hlo) as [Heq Hnext].
    rewrite Heq.
    destruct (scheduleStepDays _ _ _ (Some store) i) as [store' |].
    + destruct (Hnext store' eq_refl) as [H1 [H2 H3]]. now apply IH.
    + rewrite scheduleStep_None, scheduleStepDays_None.
      split; [reflexivity | discriminate].
Qed.

End ScheduleDays.

(** The right end of the window of a list of the data model with room to
    schedule. *)
Lemma window_right (z : Zone) (now1 now2 : Z) (tasks : list Task) :
  regularZone z -> tasks <> [] ->
  (forall t, In t tasks -> startBeforeEnd t) ->
  roomToSchedule tasks ->
  maxDateStr z now1 now2 tasks = dayStr (lastEnd tasks + 21)
  /\ fourDigits (lastEnd tasks + 21)
  /\ storeInYears (lastEnd tasks + 21) tasks.
Proof.
  intros Hz Hne Hinv Hroom.
  destruct tasks as [| t0 rest]; [congruence |].
  destruct (lastEnd_spec t0 rest) as [Hle [tm [Htm Hlast]]].
  set (M := lastEnd (t0 :: rest)) in *.
  assert (HfM : fourDigits (M + 21)).
  { pose proof (Hroom tm tm Htm Htm) as Hr.
    destruct (Hinv tm Htm) as [_ [[Hf _] Hse]].
    unfold fourDigits, FIRST_DAY, LAST_DAY in *. lia. }
  split; [| split; [exact HfM |]].
  - destruct (dateRangeStr_cons z Hz now1 now2 t0 rest)
      as [mn [mx [Heq [_ [Hmx [_ Hsome]]]]]].
    unfold maxDateStr. rewrite Heq. cbn [snd].
    destruct Hmx as [-> | [tmax [Hin [Hp [-> Hmaxi]]]]].
    + exfalso. apply Hsome; [| reflexivity].
      destruct (Hinv t0 (or_introl eq_refl)) as [_ [Hg _]].
      rewrite (parseDate_good z Hz _ Hg). discriminate.
    + assert (HM : dayNum (end_ tmax) = M).
      { pose proof (Hle tmax Hin).
        destruct (Hinv tm Htm) as [_ [Hg _]].
        pose proof (Hmaxi tm _ Htm (parseDate_good z Hz _ Hg)). lia. }
      rewrite HM. apply (fmt_addDays_midnight z Hz).
      unfold fourDigits, FIRST_DAY, LAST_DAY in HfM. lia.
  - intros u Hu. split; [now apply Hinv |]. split.
    + specialize (Hle u Hu). lia.
    + pose proof (Hroom tm u Htm Hu). lia.
Qed.

(** On a list of the data model with room to schedule, [autoSchedule] is
    the scheduler on day numbers, and it returns a list of the data
    model. *)
Lemma autoSchedule_days (z : Zone) (now1 now2 : Z) (tasks : list Task) :
  regularZone z ->
  (forall t, In t tasks -> startBeforeEnd t) ->
  roomToSchedule tasks ->
  autoSchedule z now1 now2 tasks = autoScheduleDays tasks
  /\ exists r,
       autoScheduleDays tasks = Some r
       /\ map shape r = map shape tasks
       /\ forall t', In t' r -> startBeforeEnd t'.
Proof.
  intros Hz Hinv Hroom.
  destruct tasks as [| t0 rest].
  { split; [reflexivity |]. exists []. split; [reflexivity |].
    split; [reflexivity | intros ? []]. }
  set (tasks := t0 :: rest) in *.
  destruct (window_right z now1 now2 tasks Hz ltac:(discriminate) Hinv Hroom)
    as [Hmaxs [HfM Hstore]].
  assert (Hgm : goodDate (maxDateStr z now1 now2 tasks))
    by (rewrite Hmaxs; now apply goodDate_dayStr).
  assert (Hdm : dayNum (maxDateStr z now1 now2 tasks) = lastEnd tasks + 21)
    by (rewrite Hmaxs; now apply dayNum_dayStr).
  destruct (autoSchedule_total z now1 now2 tasks) as [r [Hr Hsh]].
  unfold autoScheduleDays. unfold autoSchedule, autoScheduleIn in *.
  destruct (topoSort tasks) as [order |] eqn:Ho; [| discriminate].
  destruct (scheduleFold_days z Hz tasks (minDateStr z now1 now2 tasks)
              (maxDateStr z now1 now2 tasks) (lastEnd tasks + 21) Hgm Hdm
              order tasks eq_refl Hstore) as [Heq Hres].
  { intros u Hu. apply (window_bounds z Hz now1 now2 tasks u Hu). }
  split; [exact Heq |]. rewrite <- Heq, Hr. exists r.
  split; [reflexivity |]. split; [exact Hsh |].
  rewrite Heq in Hr. destruct (Hres r Hr) as [_ Hst].
  intros t' Ht'. apply (Hst t' Ht').
Qed.

Lemma roomToSchedule_check (tasks : list Task) :
  forallb (fun p =>
     forallb (fun t =>
        (dayNum (end_ p) + 21 + (dayNum (end_ t) - dayNum (start t))
         <=? LAST_DAY)%Z) tasks) tasks = true ->
  roomToSchedule tasks.
Proof.
  intros H p t Hp Ht.
  rewrite forallb_forall in H. specialize (H p Hp).
  rewrite forallb_forall in H. specialize (H t Ht).
  now apply Z.leb_le.
Qed.

Lemma all_startBeforeEnd_check (tasks : list Task) :
  forallb (fun t =>
    ((FIRST_DAY <=? dayNum (start t)) && (dayNum (start t) <=? LAST_DAY))%Z
    && String.eqb (start t) (dayStr (dayNum (start t)))
    && (((FIRST_DAY <=? dayNum (end_ t)) && (dayNum (end_ t) <=? LAST_DAY))%Z
        && String.eqb (end_ t) (dayStr (dayNum (end_ t))))
    && (dayNum (start t) <=? dayNum (end_ t))%Z) tasks = true ->
  forall t, In t tasks -> startBeforeEnd t.
Proof.
  intros H t Ht. rewrite forallb_forall in H.
  apply startBeforeEnd_check. now apply H.
Qed.

(** [autoSchedule] on a list given, by running the scheduler on day
    numbers. *)
Lemma autoSchedule_run (z : Zone) (now1 now2 : Z) (tasks r : list Task) :
  regularZone z ->
  (forall t, In t tasks -> startBeforeEnd t) ->
  roomToSchedule tasks ->
  autoScheduleDays tasks = Some r ->
  autoSchedule z now1 now2 tasks = Some r.
Proof.
  intros Hz Hinv Hroom Hr.
  destruct (autoSchedule_days z now1 now2 tasks Hz Hinv Hroom) as [Heq _].
  now rewrite Heq.
Qed.

Lemma all_readable_check (tasks : list Task) :
  forallb (fun p =>
     match isoDay (start p), isoDay (end_ p) with
     | Some s, Some e =>
         ((- 99999000 <=? s) && (s <=? 99999000)
          && ((- 99999000 <=? e) && (e <=? 99999000)) && (1 <=? e))%Z
     | _, _ => false
     end) tasks = true ->
  forall p, In p tasks ->
    readable (start p) /\ readable (end_ p) /\ (1 <= dayNum (end_ p))%Z.
Proof.
  intros H p Hp. rewrite forallb_forall in H. specialize (H p Hp).
  unfold readable, dayNum.
  destruct (isoDay (start p)) as [s |]; [| discriminate].
  destruct (isoDay (end_ p)) as [e |]; [| discriminate].
  apply andb_prop in H. destruct H as [H H3].
  apply andb_prop in H. destruct H as [H1 H2].
  apply andb_prop in H1. destruct H1 as [H1a H1b].
  apply andb_prop in H2. destruct H2 as [H2a H2b].
  apply Z.leb_le in H1a, H1b, H2a, H2b, H3.
  split; [exists s; split; [reflexivity | lia] |].
  split; [exists e; split; [reflexivity | lia] | lia].
Qed.

(** C2. In every regular zone and whenever the clock is read, for the list
    of [X] (2024-02-01 to 2024-02-05) and [Y] (2024-02-02 to 2024-02-06,
    depending on [X]): the violation set is exactly [Y]; [autoSchedule]
    returns [X] unchanged and [Y] from 2024-02-05 to 2024-02-09, the four
    days of [Y] kept; the violation set of the result is empty. *)
Theorem scenario_X_Y (z : Zone) (now1 now2 : Z) :
  regularZone z ->
  violations z [tX_sample; tY_sample] = ["Y"]
  /\ autoSchedule z now1 now2 [tX_sample; tY_sample]
     = Some [tX_sample; tY_scheduled]
  /\ start tY_scheduled = "2024-02-05"
  /\ end_ tY_scheduled = "2024-02-09"
  /\ (dayNum (end_ tY_scheduled) - dayNum (start tY_scheduled) = 4)%Z
  /\ (dayNum (end_ tY_sample) - dayNum (start tY_sample) = 4)%Z
  /\ violations z [tX_sample; tY_scheduled] = [].
Proof.
  intros Hz.
  split; [| split; [| split; [| split; [| split; [| split]]]]];
    try reflexivity.
  - rewrite (violations_eq_after_epoch z Hz); [reflexivity |].
    apply all_readable_check. reflexivity.
  - apply (autoSchedule_run z now1 now2 _ _ Hz).
    + apply all_startBeforeEnd_check. reflexivity.
    + apply roomToSchedule_check. reflexivity.
    + reflexivity.
  - rewrite (violations_eq_after_epoch z Hz); [reflexivity |].
    apply all_readable_check. reflexivity.
Qed.

Lemma scenario_X_Y_witness :
  regularZone tokyo
  /\ violations tokyo [tX_sample; tY_sample] = ["Y"]
  /\ autoSchedule tokyo 0 0 [tX_sample; tY_sample]
     = Some [tX_sample; tY_scheduled]
  /\ violations tokyo [tX_sample; tY_scheduled] = [].
Proof.
  split; [exact tokyo_regular |].
  destruct (scenario_X_Y tokyo 0 0 tokyo_regular) as [H1 [H2 [_ [_ [_ [_ H3]]]]]].
  split; [exact H1 |]. split; [exact H2 | exact H3].
Defined.

(** C1, at [epoch_tasks], in every regular zone.  [B] has the resolvable
    predecessor [A] and starts before [A] ends, so the rule of the
    specification marks it; the arrow from [A] to [B] is drawn as violated
    and [autoSchedule] moves [B] behind [A]; yet the violation set is empty,
    because the end of [A] is not after the epoch value that [violations]
    starts its maximum from. *)
Theorem violations_misses_before_epoch (z : Zone) (now1 now2 : Z) :
  regularZone z ->
  violations z epoch_tasks = []
  /\ (exists t, In t epoch_tasks /\ id t = "B"
                /\ specViolated epoch_tasks t = true)
  /\ DependencyArrows z epoch_tasks = [("A->B", true)]
  /\ autoSchedule z now1 now2 epoch_tasks
     = Some [epoch_A; set_start_end epoch_B "1969-06-01" "1969-07-22"].
Proof.
  intros Hz. split; [| split; [| split]].
  - destruct (violations z epoch_tasks) as [| i l] eqn:Hv; [reflexivity |].
    exfalso.
    assert (Hin : In i (violations z epoch_tasks)) by (rewrite Hv; now left).
    apply violations_code in Hin. destruct Hin as [t [Ht [_ Hc]]].
    apply codeViolated_iff in Hc.
    destruct Hc as [pid [p [e [s [Hpid [Hp [He [Hpos _]]]]]]]].
    destruct Ht as [<- | [<- | []]]; cbn in Hpid; [destruct Hpid |].
    destruct Hpid as [<- | []]. cbn in Hp. injection Hp as <-.
    rewrite (parseDate_good z Hz) in He by (apply goodDate_check; reflexivity).
    injection He as <-.
    pose proof (midnight_bounds z Hz (-214)) as Hb.
    change (dayNum "1969-06-01") with (-214)%Z in Hpos.
    unfold MS_PER_DAY in Hb. lia.
  - exists epoch_B. split; [right; now left |]. split; reflexivity.
  - change (DependencyArrows z epoch_tasks)
      with [("A->B", num_lt (parseDate z "1969-02-01")
                            (parseDate z "1969-06-01"))].
    rewrite !(parseDate_good z Hz) by (apply goodDate_check; reflexivity).
    cbn [num_lt]. rewrite (midnight_ltb z Hz). reflexivity.
  - apply (autoSchedule_run z now1 now2 _ _ Hz).
    + apply all_startBeforeEnd_check. reflexivity.
    + apply roomToSchedule_check. reflexivity.
    + reflexivity.
Qed.

Lemma violations_misses_before_epoch_witness :
  regularZone tokyo
  /\ violations tokyo epoch_tasks = []
  /\ (exists t, In t epoch_tasks /\ id t = "B"
                /\ specViolated epoch_tasks t = true).
Proof.
  split; [exact tokyo_regular |].
  destruct (violations_misses_before_epoch tokyo 0 0 tokyo_regular)
    as [H1 [H2 _]].
  split; [exact H1 | exact H2].
Defined.

(** ** What a pointer move and [autoSchedule] keep *)

Lemma onMoveTask_last (z : Zone) (d : Drag) (w : Z) (minS maxS : DateStr)
    (dd1 dd2 : Z) (t : Task) :
  onMoveTask z d w minS maxS dd2 (onMoveTask z d w minS maxS dd1 t)
  = onMoveTask z d w minS maxS dd2 t.
Proof.
  unfold onMoveTask at 1 3.
  rewrite onMoveTask_id.
  destruct (negb (String.eqb (id t) (drag_id d))) eqn:Hne.
  - unfold onMoveTask. now rewrite Hne.
  - unfold onMoveTask. rewrite Hne. destruct (kind d); reflexivity.
Qed.

(** X9. Pointer moves do not accumulate: with the handler of one render
    (same day width and window), reducing a move on the result of an
    earlier move of the same drag gives what the later move alone gives,
    in any zone and whatever the dates are. *)
Theorem onMove_last_wins
    (z : Zone) (drag : DragState) (w : Z) (minS maxS : DateStr)
    (x1 x2 : Z) (prev : list Task) :
  onMove z drag w minS maxS x2 (onMove z drag w minS maxS x1 prev)
  = onMove z drag w minS maxS x2 prev.
Proof.
  destruct drag as [d |]; [| reflexivity].
  unfold onMove. rewrite map_map. apply map_ext.
  intros t. apply onMoveTask_last.
Qed.

Lemma onMoveTask_frame (z : Zone) (d : Drag) (w : Z) (minS maxS : DateStr)
    (dd : Z) (t : Task) :
  frame (onMoveTask z d w minS maxS dd t) = frame t.
Proof.
  unfold onMoveTask. destruct (negb _); [reflexivity |].
  destruct (kind d); reflexivity.
Qed.

(** X10. A pointer move changes nothing but dates of the dragged task: the
    list keeps its length and every id, name, colour and dependency list;
    tasks with another id are untouched; a resize of the left edge keeps
    every end, a resize of the right edge every start. *)
Theorem onMove_frame
    (z : Zone) (d : Drag) (w : Z) (minS maxS : DateStr)
    (clientX : Z) (prev : list Task) :
  let next := onMove z (Some d) w minS maxS clientX prev in
  map frame next = map frame prev
  /\ (forall k t, nth_error prev k = Some t -> id t <> drag_id d ->
        nth_error next k = Some t)
  /\ (kind d = resize_left -> map end_ next = map end_ prev)
  /\ (kind d = resize_right -> map start next = map start prev).
Proof.
  intros next. subst next. unfold onMove. repeat split.
  - rewrite map_map. apply map_ext. intros t. apply onMoveTask_frame.
  - intros k t Hk Hne. rewrite nth_error_map, Hk. cbn. f_equal.
    unfold onMoveTask.
    destruct (String.eqb_spec (id t) (drag_id d)); [contradiction | reflexivity].
  - intros Hkind. rewrite map_map. apply map_ext. intros t.
    unfold onMoveTask. destruct (negb _); [reflexivity |]. now rewrite Hkind.
  - intros Hkind. rewrite map_map. apply map_ext. intros t.
    unfold onMoveTask. destruct (negb _); [reflexivity |]. now rewrite Hkind.
Qed.

Lemma onMove_frame_witness :
  nth_error [tX_sample; tY_sample] 0 = Some tX_sample
  /\ id tX_sample <> "Y"
  /\ nth_error (onMove tokyo
                  (Some (mkDrag "Y" move 100 "2024-02-02" "2024-02-06"))
                  24 "2024-01-25" "2024-02-27" 500 [tX_sample; tY_sample]) 0
     = Some tX_sample.
Proof.
  assert (H1 : nth_error [tX_sample; tY_sample] 0 = Some tX_sample) by reflexivity.
  assert (H2 : id tX_sample <> "Y") by discriminate.
  split; [exact H1 |]. split; [exact H2 |].
  apply (proj1 (proj2 (onMove_frame tokyo
           (mkDrag "Y" move 100 "2024-02-02" "2024-02-06")
           24 "2024-01-25" "2024-02-27" 500 [tX_sample; tY_sample]))
           0%nat tX_sample H1 H2).
Defined.






(** X20. A list in which no end of a resolvable predecessor compares after
    the start of its successor is a fixed point of [autoSchedule], in any
    zone, with or without cycles or repeated ids; so is, in a regular zone,
    a list in which every task starts on or after the day each of its
    resolvable predecessors ends, the dates being dates the engine reads. *)
Theorem autoSchedule_fixed_point (z : Zone) (now1 now2 : Z) (tasks : list Task) :
  ((forall t, In t tasks -> satisfiedAt z tasks t) ->
   autoSchedule z now1 now2 tasks = Some tasks)
  /\ (regularZone z ->
      (forall t pid p, In t tasks -> In pid (deps t) ->
         lastWithId pid tasks = Some p ->
         readable (start t) /\ readable (end_ p)
         /\ (dayNum (end_ p) <= dayNum (start t))%Z) ->
      autoSchedule z now1 now2 tasks = Some tasks).
Proof.
  assert (H : (forall t, In t tasks -> satisfiedAt z tasks t) ->
              autoSchedule z now1 now2 tasks = Some tasks).
  { intros Hsat. unfold autoSchedule, autoScheduleIn.
    destruct (topoSort_total tasks) as [order Ho]. rewrite Ho.
    apply schedule_fixed; [exact Hsat | now apply topoSort_ids]. }
  split; [exact H |].
  intros Hz Hd. apply H. intros t Ht pid p Hpid Hp.
  destruct (Hd t pid p Ht Hpid Hp) as [Hs [He Hle]].
  rewrite (readable_parseDate z Hz _ Hs), (readable_parseDate z Hz _ He).
  cbn [num_gt]. rewrite (midnight_gtb z Hz), Z.gtb_ltb. now apply Z.ltb_ge.
Qed.

Lemma autoSchedule_fixed_point_witness :
  (forall t, In t [tX_sample; tY_scheduled] ->
     satisfiedAt tokyo [tX_sample; tY_scheduled] t)
  /\ autoSchedule tokyo 0 0 [tX_sample; tY_scheduled]
     = Some [tX_sample; tY_scheduled].
Proof.
  assert (H : forall t, In t [tX_sample; tY_scheduled] ->
                satisfiedAt tokyo [tX_sample; tY_scheduled] t).
  { intros t [<- | [<- | []]] pid p Hpid Hp; cbn in Hpid; [destruct Hpid |].
    destruct Hpid as [<- | []]. cbn in Hp. injection Hp as <-.
    vm_compute. reflexivity. }
  split; [exact H |].
  apply (proj1 (autoSchedule_fixed_point tokyo 0 0 [tX_sample; tY_scheduled])).
  exact H.
Defined.

(** X22. A task none of whose dependencies is the id of a task is never
    moved by [autoSchedule], whatever the rest of the list, the dates and
    the zone are: the task returned at its position is the task given. *)
Theorem autoSchedule_leaves_free_tasks
    (z : Zone) (now1 now2 : Z) (tasks : list Task) (k : nat) (t : Task) :
  nth_error tasks k = Some t ->
  (forall pid, In pid (deps t) -> ~ In pid (map id tasks)) ->
  exists r,
    autoSchedule z now1 now2 tasks = Some r /\ nth_error r k = Some t.
Proof.
  intros Hk Hdang. unfold autoSchedule, autoScheduleIn.
  destruct (topoSort_total tasks) as [order Ho]. rewrite Ho.
  destruct (scheduleFold_unmoved z tasks
              (minDateStr z now1 now2 tasks) (maxDateStr z now1 now2 tasks)
              k t order Hdang (topoSort_ids tasks order Ho) tasks eq_refl Hk)
    as [r [Hr [_ Hn]]].
  eauto.
Qed.

Lemma autoSchedule_leaves_free_tasks_witness :
  nth_error cycle_tasks 2
  = Some (mkTask "C" "c" "2024-01-05" "2024-01-06" None [])
  /\ exists r,
       autoSchedule tokyo 0 0 cycle_tasks = Some r
       /\ nth_error r 2
          = Some (mkTask "C" "c" "2024-01-05" "2024-01-06" None []).
Proof.
  split; [reflexivity |].
  apply (autoSchedule_leaves_free_tasks tokyo 0 0 cycle_tasks 2
           (mkTask "C" "c" "2024-01-05" "2024-01-06" None [])).
  - reflexivity.
  - intros pid [].
Defined.

(** X25. The order computed by [topoSort] depends on the ids and the
    dependency lists only, so neither a pointer move nor [autoSchedule]
    changes it; and [autoSchedule] returns on every list, in any zone. *)
Theorem topoSort_ignores_dates (z : Zone) (now1 now2 : Z) :
  (forall a b,
     map (fun t => (id t, deps t)) a = map (fun t => (id t, deps t)) b ->
     topoSort a = topoSort b)
  /\ (forall drag w minS maxS clientX prev,
        topoSort (onMove z drag w minS maxS clientX prev) = topoSort prev)
  /\ (forall tasks,
        exists r, autoSchedule z now1 now2 tasks = Some r
                  /\ topoSort r = topoSort tasks).
Proof.
  split; [exact topoSort_shape | split].
  - intros [d |] w minS maxS clientX prev; [| reflexivity].
    apply topoSort_shape. unfold onMove. rewrite map_map. apply map_ext.
    intros t. pose proof (onMoveTask_frame z d w minS maxS
                            (Math_round_div (clientX - startX d) w) t) as Hf.
    unfold frame in Hf. unfold shape. congruence.
  - intros tasks. destruct (autoSchedule_total z now1 now2 tasks) as [r [Hr Hs]].
    exists r. split; [assumption | now apply topoSort_shape].
Qed.

Lemma topoSort_ignores_dates_witness :
  topoSort [tX_sample; tY_scheduled] = topoSort [tX_sample; tY_sample].
Proof.
  apply (proj1 (topoSort_ignores_dates tokyo 0 0)). reflexivity.
Defined.

(** ** The date helpers *)

Lemma inYears_readable (s : DateStr) : inYears s -> readable s.
Proof.
  intros [n [Hn Hf]]. exists n. split; [exact Hn |].
  unfold fourDigits, FIRST_DAY, LAST_DAY in Hf. lia.
Qed.

Lemma inYears_dayNum (s : DateStr) : inYears s -> fourDigits (dayNum s).
Proof. intros [n [Hn Hf]]. unfold dayNum. now rewrite Hn. Qed.

Lemma goodDate_inYears (s : DateStr) : goodDate s -> inYears s.
Proof.
  intros Hg. exists (dayNum s). split; [now apply goodDate_isoDay | apply Hg].
Qed.

Lemma inYears_check (s : DateStr) :
  match isoDay s with
  | Some n => ((FIRST_DAY <=? n) && (n <=? LAST_DAY))%Z
  | None => false
  end = true -> inYears s.
Proof.
  destruct (isoDay s) as [n |] eqn:Hn; [| discriminate].
  intros H. exists n. split; [exact Hn | now apply fourDigits_check].
Qed.

Section DateHelperFacts.

Variable z : Zone.
Hypothesis Hz : regularZone z.

Local Open Scope Z_scope.

Lemma parseDate_inYears (s : DateStr) :
  inYears s -> parseDate z s = Some (midnight z (dayNum s)).
Proof. intros H. apply (readable_parseDate z Hz). now apply inYears_readable. Qed.

Lemma dateToX_inYears (minS : DateStr) (w : Z) (s : DateStr) :
  inYears minS -> inYears s ->
  dateToX z minS w s = Some ((dayNum s - dayNum minS) * w).
Proof.
  intros Hm Hs. unfold dateToX.
  rewrite (parseDate_inYears _ Hm), (parseDate_inYears _ Hs).
  rewrite (diffInDays_midnight z Hz) by now apply inYears_dayNum.
  reflexivity.
Qed.

Lemma xToDate_inYears (minS : DateStr) (w x : Z) :
  inYears minS ->
  - 99999998 <= dayNum minS + Math_round_div x w <= 99999998 ->
  xToDate z minS w (Some x) = dayStr (dayNum minS + Math_round_div x w).
Proof.
  intros Hm Hr. unfold xToDate. rewrite (parseDate_inYears _ Hm).
  cbn [Math_round_num]. now apply (fmt_addDays_midnight z Hz).
Qed.

End DateHelperFacts.

(** C8. In a regular zone, for a date [d] of the data model (as [fmt]
    writes it, year 1000 to 9999), an origin that the engine reads as a day
    of these years, and each zoom preset, the date of the pixel offset of
    [d] is [d]. *)
Theorem xToDate_dateToX_roundtrip
    (z : Zone) (minS : DateStr) (zoom : ZoomKey) (d : DateStr) :
  regularZone z -> inYears minS -> goodDate d ->
  xToDate z minS (ZOOMS zoom) (dateToX z minS (ZOOMS zoom) d) = d.
Proof.
  intros Hz Hm Hd.
  rewrite (dateToX_inYears z Hz) by (assumption || now apply goodDate_inYears).
  pose proof (ZOOMS_pos zoom) as Hw.
  pose proof (proj1 Hd) as Hf.
  assert (Hk : Math_round_div ((dayNum d - dayNum minS) * ZOOMS zoom)
                 (ZOOMS zoom) = (dayNum d - dayNum minS)%Z)
    by now apply Math_round_div_mul.
  rewrite (xToDate_inYears z Hz); rewrite ?Hk.
  - replace (dayNum minS + (dayNum d - dayNum minS))%Z with (dayNum d) by lia.
    symmetry. apply Hd.
  - assumption.
  - unfold fourDigits, FIRST_DAY, LAST_DAY in Hf. lia.
Qed.

Lemma xToDate_dateToX_roundtrip_witness :
  regularZone tokyo /\ inYears "2024-01-25" /\ goodDate "2024-02-05"
  /\ xToDate tokyo "2024-01-25" (ZOOMS week)
       (dateToX tokyo "2024-01-25" (ZOOMS week) "2024-02-05")
     = "2024-02-05".
Proof.
  assert (H1 : inYears "2024-01-25") by (apply inYears_check; reflexivity).
  assert (H2 : goodDate "2024-02-05") by (apply goodDate_check; reflexivity).
  split; [exact tokyo_regular |]. split; [exact H1 |]. split; [exact H2 |].
  apply (xToDate_dateToX_roundtrip tokyo "2024-01-25" week "2024-02-05"
           tokyo_regular H1 H2).
Defined.

(** C8, where the specification fails.  For the date ["0999-12-27"] the
    offset is [NaN] and the date of that offset is ["NaN-NaN-NaN"]: [fmt] writes the
    year 999 on three digits, which [parseDate] does not read.  In a zone
    that skips the local day 2011-12-30 the round trip of ["2011-12-30"]
    gives the day after. *)
Lemma roundtrip_fails_outside_years :
  (isoDay "0999-12-27" = Some (ymd 999 12 27)
   /\ fmt tokyo (parseDate tokyo "0999-12-27") = "999-12-27"
   /\ parseDate tokyo "999-12-27" = None
   /\ dateToX tokyo "2024-01-25" (ZOOMS day) "0999-12-27" = None
   /\ xToDate tokyo "2024-01-25" (ZOOMS day)
        (dateToX tokyo "2024-01-25" (ZOOMS day) "0999-12-27")
      = "NaN-NaN-NaN")
  /\ (goodDate "2011-12-30" /\ goodDate "2011-12-01"
      /\ fmt skippingZone (parseDate skippingZone "2011-12-30") = "2011-12-31"
      /\ dateToX skippingZone "2011-12-01" (ZOOMS day) "2011-12-30"
         = Some (29 * 24)%Z
      /\ xToDate skippingZone "2011-12-01" (ZOOMS day)
           (dateToX skippingZone "2011-12-01" (ZOOMS day) "2011-12-30")
         = "2011-12-31").
Proof.
  split.
  - repeat (split; [vm_compute; reflexivity |]). vm_compute. reflexivity.
  - split; [apply goodDate_check; reflexivity |].
    split; [apply goodDate_check; reflexivity |].
    repeat (split; [vm_compute; reflexivity |]). vm_compute. reflexivity.
Qed.

(** X29. In every regular zone, a date before the year 1000 is read by
    [parseDate] and written back by [fmt] with a year of fewer than four
    digits, which [parseDate] does not read: so the date fields and the
    import store an unreadable date, the offset of the date is [NaN] for
    every origin and day width, and the date of that offset is
    ["NaN-NaN-NaN"]. *)
Theorem dateToX_before_year_1000 (z : Zone) (minS : DateStr) (w : Z) :
  regularZone z ->
  parseDate z "0999-12-27" = Some (midnight z (ymd 999 12 27))
  /\ normalizeDate z "0999-12-27" = "999-12-27"
  /\ parseDate z (normalizeDate z "0999-12-27") = None
  /\ dateToX z minS w "0999-12-27" = None
  /\ xToDate z minS w (dateToX z minS w "0999-12-27") = "NaN-NaN-NaN".
Proof.
  intros Hz.
  assert (H1 : parseDate z "0999-12-27" = Some (midnight z (ymd 999 12 27))).
  { apply (readable_parseDate z Hz). exists (ymd 999 12 27).
    split; [reflexivity |]. vm_compute. split; discriminate. }
  assert (H2 : fmt z (parseDate z "0999-12-27") = "999-12-27").
  { rewrite H1, (fmt_midnight z Hz). reflexivity. }
  assert (H3 : parseDate z "999-12-27" = None) by reflexivity.
  assert (H4 : dateToX z minS w "0999-12-27" = None).
  { unfold dateToX, diffInDays. cbv zeta. rewrite H2, H3. reflexivity. }
  split; [exact H1 |]. unfold normalizeDate.
  split; [exact H2 |]. split; [now rewrite H2 |]. split; [exact H4 |].
  rewrite H4. unfold xToDate. cbn [Math_round_num].
  apply (fmt_addDays_NaN z).
Qed.

Lemma dateToX_before_year_1000_witness :
  regularZone tokyo
  /\ dateToX tokyo "2024-01-25" 24 "0999-12-27" = None.
Proof.
  split; [exact tokyo_regular |].
  apply (dateToX_before_year_1000 tokyo "2024-01-25" 24 tokyo_regular).
Defined.

(** X1. In a regular zone, for bounds of the data model with
    [min <= max]: [clampDateStr] maps a date of the data model to one
    within the bounds, leaves it unchanged exactly when it is within the
    bounds, and changes nothing when applied a second time; in any zone a
    string that is not read as a date is returned as it is, whatever the
    bounds are. *)
Theorem clampDateStr_range (z : Zone) (s min max : DateStr) :
  (regularZone z -> goodDate min -> goodDate max ->
   (dayNum min <= dayNum max)%Z -> goodDate s ->
   let r := clampDateStr z s min max in
   goodDate r
   /\ (dayNum min <= dayNum r <= dayNum max)%Z
   /\ (r = s <-> (dayNum min <= dayNum s <= dayNum max)%Z)
   /\ clampDateStr z r min max = r)
  /\ (parseDate z s = None -> clampDateStr z s min max = s).
Proof.
  split.
  - intros Hz Hmin Hmax Hle Hs r.
    pose proof (proj1 Hs) as Hfs. pose proof (proj1 Hmin) as Hfmin.
    pose proof (proj1 Hmax) as Hfmax.
    assert (Hr : r = dayStr (clampDay (dayNum s) (dayNum min) (dayNum max))).
    { subst r. destruct Hs as [_ Heq]. rewrite Heq at 1.
      now apply (clampDateStr_good z Hz). }
    assert (Hfr : fourDigits (clampDay (dayNum s) (dayNum min) (dayNum max)))
      by now apply clampDay_fourDigits.
    assert (Hdr : dayNum r = clampDay (dayNum s) (dayNum min) (dayNum max))
      by (rewrite Hr; now apply dayNum_dayStr).
    pose proof (clampDay_range (dayNum s) _ _ Hle) as Hrange.
    split; [rewrite Hr; now apply goodDate_dayStr |].
    split; [now rewrite Hdr |]. split.
    + split.
      * intros Heq. rewrite <- Heq, Hdr. exact Hrange.
      * intros Hin. rewrite Hr, clampDay_id by assumption.
        symmetry. apply Hs.
    + rewrite Hr at 1. rewrite (clampDateStr_good z Hz) by assumption.
      rewrite clampDay_id by assumption. now symmetry.
  - intros Hn. unfold clampDateStr. cbv zeta. now rewrite Hn.
Qed.

Lemma clampDateStr_range_witness :
  parseDate tokyo "10000-01-04" = None
  /\ clampDateStr tokyo "10000-01-04" "2024-01-25" "2024-02-27"
     = "10000-01-04".
Proof.
  assert (H : parseDate tokyo "10000-01-04" = None) by reflexivity.
  split; [exact H |].
  apply (proj2 (clampDateStr_range tokyo "10000-01-04" "2024-01-25"
                  "2024-02-27") H).
Defined.



(** X3. In a regular zone: [fmt(parseDate(s)) = s] for every date of the
    data model, so the normalisation of the date fields and of the import
    leaves such a date as it is; a date the engine reads is written as the
    text of its day, whatever its form; for an instant of the years 1000 to
    9999, [parseDate(fmt(d))] is the local midnight of the day of [d] and is
    written as [d] is; a string that is not read as a date is stored as
    ["NaN-NaN-NaN"]. *)
Theorem fmt_parseDate_roundtrip (z : Zone) :
  regularZone z ->
  (forall s, goodDate s -> normalizeDate z s = s)
  /\ (forall s, readable s -> fmt z (parseDate z s) = dayStr (dayNum s))
  /\ (forall d, fourDigits (Day (LocalTime z d)) ->
        parseDate z (fmt z (Some d))
        = Some (midnight z (Day (LocalTime z d)))
        /\ fmt z (parseDate z (fmt z (Some d))) = fmt z (Some d))
  /\ (forall s, parseDate z s = None -> normalizeDate z s = "NaN-NaN-NaN").
Proof.
  intros Hz. split; [| split; [| split]].
  - intros s Hs. unfold normalizeDate.
    rewrite (parseDate_good z Hz s Hs), (fmt_midnight z Hz).
    symmetry. apply Hs.
  - intros s Hs. now rewrite (readable_parseDate z Hz s Hs), (fmt_midnight z Hz).
  - intros d Hd. rewrite fmt_Some, (parseDate_dayStr z Hz _ Hd).
    split; [reflexivity |]. now rewrite (fmt_midnight z Hz).
  - intros s Hs. unfold normalizeDate. now rewrite Hs.
Qed.

Lemma fmt_parseDate_roundtrip_witness :
  regularZone tokyo /\ goodDate "2024-02-05"
  /\ normalizeDate tokyo "2024-02-05" = "2024-02-05".
Proof.
  assert (H : goodDate "2024-02-05") by (apply goodDate_check; reflexivity).
  split; [exact tokyo_regular |]. split; [exact H |].
  apply (proj1 (fmt_parseDate_roundtrip tokyo tokyo_regular) "2024-02-05" H).
Defined.

(** X4. In a regular zone, for a positive day width [w] and an origin the
    engine reads as a day of the years 1000 to 9999, [xToDate] snaps a
    pixel offset [x] to the nearest day, as long as that day is of these
    years: the offset of the date found differs from [x] by at most
    [w / 2]. *)
Theorem xToDate_nearest (z : Zone) (minS : DateStr) (w x : Z) :
  regularZone z -> (0 < w)%Z -> inYears minS ->
  fourDigits (dayNum minS + Math_round_div x w) ->
  exists x',
    dateToX z minS w (xToDate z minS w (Some x)) = Some x'
    /\ (- w <= 2 * (x - x') < w)%Z.
Proof.
  intros Hz Hw Hm Hk.
  rewrite (xToDate_inYears z Hz)
    by (assumption || (unfold fourDigits, FIRST_DAY, LAST_DAY in Hk; lia)).
  rewrite (dateToX_inYears z Hz)
    by (assumption || (apply goodDate_inYears; now apply goodDate_dayStr)).
  rewrite dayNum_dayStr by assumption.
  eexists. split; [reflexivity |].
  unfold Math_round_div.
  pose proof (Z.div_mod (2 * x + w) (2 * w) ltac:(lia)) as Hdm.
  pose proof (Z.mod_pos_bound (2 * x + w) (2 * w) ltac:(lia)) as Hb.
  nia.
Qed.

Lemma xToDate_nearest_witness :
  regularZone tokyo /\ (0 < 24)%Z /\ inYears "2024-01-25"
  /\ exists x',
       dateToX tokyo "2024-01-25" 24 (xToDate tokyo "2024-01-25" 24 (Some 100%Z))
       = Some x'
       /\ (- 24 <= 2 * (100 - x') < 24)%Z.
Proof.
  assert (H1 : inYears "2024-01-25") by (apply inYears_check; reflexivity).
  split; [exact tokyo_regular |]. split; [reflexivity |]. split; [exact H1 |].
  apply (xToDate_nearest tokyo "2024-01-25" 24 100 tokyo_regular eq_refl H1).
  apply fourDigits_check. vm_compute. reflexivity.
Defined.

(** ** The canvas *)

Section Canvas.

Variable z : Zone.
Hypothesis Hz : regularZone z.

Local Open Scope Z_scope.

Lemma totalDays_eq (minS maxS : DateStr) :
  goodDate minS -> goodDate maxS ->
  totalDays z minS maxS = Some (Z.max 1 (dayNum maxS - dayNum minS)).
Proof.
  intros Hmin Hmax. unfold totalDays.
  rewrite (parseDate_good z Hz _ Hmin), (parseDate_good z Hz _ Hmax).
  rewrite (diffInDays_midnight z Hz) by (apply Hmin || apply Hmax).
  reflexivity.
Qed.

Lemma daysArr_eq (minS maxS : DateStr) :
  goodDate minS -> goodDate maxS ->
  exists l,
    daysArr z minS maxS = Some l
    /\ List.length l = Z.to_nat (Z.max 1 (dayNum maxS - dayNum minS) + 1)
    /\ map (fmt z) l
       = map (fun i => dayStr (dayNum minS + Z.of_nat i))
             (seq 0 (Z.to_nat (Z.max 1 (dayNum maxS - dayNum minS) + 1))).
Proof.
  intros Hmin Hmax. unfold daysArr. rewrite (totalDays_eq _ _ Hmin Hmax).
  cbn [num_add].
  pose proof (proj1 Hmin) as Hf1. pose proof (proj1 Hmax) as Hf2.
  unfold fourDigits, FIRST_DAY, LAST_DAY in Hf1, Hf2.
  set (len := Z.max 1 (dayNum maxS - dayNum minS) + 1).
  assert (Hlen : 2 <= len <= 3287183) by (subst len; lia).
  replace ((0 <=? len) && (len <? 4294967296)) with true.
  2:{ symmetry. apply andb_true_intro. split; [apply Z.leb_le | apply Z.ltb_lt]; lia. }
  eexists. split; [reflexivity |]. split.
  - now rewrite length_map, length_seq.
  - rewrite map_map. apply map_ext_in. intros i Hi.
    apply in_seq in Hi. rewrite (parseDate_good z Hz _ Hmin).
    apply (fmt_addDays_midnight z Hz). lia.
Qed.

End Canvas.

(** X5. In a regular zone, for a window whose two ends are dates of the
    data model, the header has one column per day: the days of [daysArr]
    are [minDate], [minDate + 1], ... up to
    [minDate + max(1, maxDate - minDate)].  For the window of a non-empty
    list of tasks of the data model these are the days from [minDateStr] to
    [maxDateStr], at least 29 of them.  When the left end of the window is
    not read as a date, as for a list that starts in the first week of the
    year 1000, [new Array] throws. *)
Theorem daysArr_columns (z : Zone) (now1 now2 : Z) :
  regularZone z ->
  (forall minS maxS, goodDate minS -> goodDate maxS ->
     exists l,
       daysArr z minS maxS = Some l
       /\ map (fmt z) l
          = map (fun i => dayStr (dayNum minS + Z.of_nat i))
                (seq 0 (Z.to_nat (Z.max 1 (dayNum maxS - dayNum minS) + 1))))
  /\ (forall tasks,
        tasks <> [] ->
        (forall t, In t tasks -> startBeforeEnd t) ->
        let minS := minDateStr z now1 now2 tasks in
        let maxS := maxDateStr z now1 now2 tasks in
        goodDate minS -> goodDate maxS ->
        exists l,
          daysArr z minS maxS = Some l
          /\ map (fmt z) l
             = map (fun i => dayStr (dayNum minS + Z.of_nat i))
                   (seq 0 (Z.to_nat (dayNum maxS - dayNum minS + 1)))
          /\ (29 <= List.length l)%nat
          /\ totalDays z minS maxS = Some (dayNum maxS - dayNum minS)%Z)
  /\ (forall minS maxS, parseDate z minS = None ->
        totalDays z minS maxS = None /\ daysArr z minS maxS = None)
  /\ (forall t, In t early_tasks -> startBeforeEnd t)
  /\ minDateStr z now1 now2 early_tasks = "999-12-27"
  /\ daysArr z (minDateStr z now1 now2 early_tasks)
             (maxDateStr z now1 now2 early_tasks) = None.
Proof.
  intros Hz.
  assert (Hnan : forall minS maxS, parseDate z minS = None ->
            totalDays z minS maxS = None /\ daysArr z minS maxS = None).
  { intros minS maxS Hn.
    assert (Ht : totalDays z minS maxS = None).
    { unfold totalDays, diffInDays. cbv zeta. rewrite Hn.
      cbn [fmt]. rewrite (parseDate_NaN z).
      destruct (parseDate z (fmt z (parseDate z maxS))); reflexivity. }
    split; [exact Ht |]. unfold daysArr. now rewrite Ht. }
  assert (Hearly : minDateStr z now1 now2 early_tasks = "999-12-27").
  { unfold minDateStr, early_tasks, dateRangeStr. cbn [fst fold_left start].
    rewrite !(parseDate_good z Hz "1000-01-03")
      by (apply goodDate_check; reflexivity).
    cbn [num_lt]. rewrite Z.ltb_irrefl.
    rewrite (fmt_addDays_midnight z Hz) by (vm_compute; split; discriminate).
    reflexivity. }
  split; [| split; [| split; [exact Hnan | split; [| split]]]].
  - intros minS maxS Hmin Hmax.
    destruct (daysArr_eq z Hz minS maxS Hmin Hmax) as [l [H1 [_ H2]]]. eauto.
  - intros tasks Hne Hinv minS maxS Hmin Hmax.
    destruct tasks as [| t0 rest]; [congruence |].
    destruct (window_around z Hz now1 now2 (t0 :: rest) t0 (or_introl eq_refl))
      as [Hlo Hhi].
    destruct (Hinv t0 (or_introl eq_refl)) as [Hgs [Hge Hse]].
    specialize (Hlo Hmin _ (parseDate_good z Hz _ Hgs)).
    specialize (Hhi Hmax _ (parseDate_good z Hz _ Hge)).
    fold minS in Hlo. fold maxS in Hhi.
    destruct (daysArr_eq z Hz minS maxS Hmin Hmax) as [l [H1 [H2 H3]]].
    rewrite (totalDays_eq z Hz _ _ Hmin Hmax).
    rewrite Z.max_r in * by lia.
    exists l. split; [exact H1 |]. split; [exact H3 |].
    split; [rewrite H2; lia | reflexivity].
  - apply all_startBeforeEnd_check. reflexivity.
  - exact Hearly.
  - apply Hnan. rewrite Hearly. reflexivity.
Qed.

Lemma daysArr_columns_witness :
  regularZone tokyo
  /\ totalDays tokyo (minDateStr tokyo 0 0 [tX_sample; tY_sample])
                     (maxDateStr tokyo 0 0 [tX_sample; tY_sample])
     = Some (dayNum (maxDateStr tokyo 0 0 [tX_sample; tY_sample])
             - dayNum (minDateStr tokyo 0 0 [tX_sample; tY_sample]))%Z.
Proof.
  split; [exact tokyo_regular |].
  destruct (proj1 (proj2 (daysArr_columns tokyo 0 0 tokyo_regular))
              [tX_sample; tY_sample]) as [l [_ [_ [_ H]]]].
  - discriminate.
  - apply all_startBeforeEnd_check. reflexivity.
  - apply goodDate_check. vm_compute. reflexivity.
  - apply goodDate_check. vm_compute. reflexivity.
  - exact H.
Defined.

(** X6. In a regular zone, when the two ends of the window of a list are
    dates of the data model, the bar of a task of the data model lies
    inside the canvas: it begins at least seven day widths from the left
    edge, is at least one pixel wide, and ends at or before the right edge
    [totalDays * dayWidth]. *)
Theorem TaskRow_inside_canvas
    (z : Zone) (now1 now2 : Z) (tasks : list Task) (zoom : ZoomKey) (t : Task) :
  regularZone z ->
  In t tasks -> startBeforeEnd t ->
  let minS := minDateStr z now1 now2 tasks in
  let maxS := maxDateStr z now1 now2 tasks in
  let w := ZOOMS zoom in
  goodDate minS -> goodDate maxS ->
  exists left width total,
    TaskRow_left z minS w t = Some left
    /\ TaskRow_width z minS w t = Some width
    /\ totalDays z minS maxS = Some total
    /\ (7 * w <= left)%Z
    /\ (1 <= width)%Z
    /\ (left + width <= total * w)%Z.
Proof.
  intros Hz Hin [Hgs [Hge Hse]] minS maxS w Hmin Hmax.
  destruct (window_around z Hz now1 now2 tasks t Hin) as [Hlo Hhi].
  specialize (Hlo Hmin _ (parseDate_good z Hz _ Hgs)).
  specialize (Hhi Hmax _ (parseDate_good z Hz _ Hge)).
  fold minS in Hlo. fold maxS in Hhi.
  unfold TaskRow_left, TaskRow_width.
  rewrite !(dateToX_days z Hz) by assumption.
  rewrite (totalDays_eq z Hz _ _ Hmin Hmax).
  cbn [num_sub Math_max_1].
  eexists. eexists. eexists.
  split; [reflexivity |]. split; [reflexivity |]. split; [reflexivity |].
  assert (Hw : (4 <= w)%Z) by (unfold w; destruct zoom; cbn; lia).
  rewrite (Z.max_r 1 (dayNum maxS - dayNum minS)) by lia.
  split; [nia |]. split; [lia |].
  apply Z.max_case_strong; intros; nia.
Qed.

Lemma TaskRow_inside_canvas_witness :
  regularZone tokyo
  /\ In tY_sample [tX_sample; tY_sample] /\ startBeforeEnd tY_sample
  /\ exists left width total,
       TaskRow_left tokyo (minDateStr tokyo 0 0 [tX_sample; tY_sample])
                    (ZOOMS day) tY_sample = Some left
       /\ TaskRow_width tokyo (minDateStr tokyo 0 0 [tX_sample; tY_sample])
                        (ZOOMS day) tY_sample = Some width
       /\ totalDays tokyo (minDateStr tokyo 0 0 [tX_sample; tY_sample])
                    (maxDateStr tokyo 0 0 [tX_sample; tY_sample]) = Some total
       /\ (7 * ZOOMS day <= left)%Z
       /\ (1 <= width)%Z
       /\ (left + width <= total * ZOOMS day)%Z.
Proof.
  assert (H1 : In tY_sample [tX_sample; tY_sample]) by (right; left; reflexivity).
  assert (H2 : startBeforeEnd tY_sample)
    by (apply startBeforeEnd_check; reflexivity).
  split; [exact tokyo_regular |]. split; [exact H1 |]. split; [exact H2 |].
  apply (TaskRow_inside_canvas tokyo 0 0 [tX_sample; tY_sample] day tY_sample
           tokyo_regular H1 H2).
  - apply goodDate_check. vm_compute. reflexivity.
  - apply goodDate_check. vm_compute. reflexivity.
Defined.

(** ** More on the drag reducer *)

(** X7. In a regular zone, with a window and a snapshot of the data model:
    a move that keeps both shifted dates inside the window shifts the start
    and the end of the snapshot by the same whole number of days,
    [round (dx / dayWidth)], so the task keeps the duration it had when the
    pointer went down. *)
Theorem move_keeps_duration
    (z : Zone) (d : Drag) (zoom : ZoomKey) (minS maxS : DateStr)
    (clientX : Z) (prev : list Task) (t : Task) :
  regularZone z ->
  kind d = move -> In t prev -> id t = drag_id d ->
  goodDate minS -> goodDate maxS ->
  goodDate (origStart d) -> goodDate (origEnd d) ->
  let ddays := Math_round_div (clientX - startX d) (ZOOMS zoom) in
  (dayNum minS <= dayNum (origStart d) + ddays <= dayNum maxS)%Z ->
  (dayNum minS <= dayNum (origEnd d) + ddays <= dayNum maxS)%Z ->
  exists t',
    In t' (onMove z (Some d) (ZOOMS zoom) minS maxS clientX prev)
    /\ frame t' = frame t
    /\ start t' = dayStr (dayNum (origStart d) + ddays)
    /\ end_ t' = dayStr (dayNum (origEnd d) + ddays)
    /\ (dayNum (end_ t') - dayNum (start t')
        = dayNum (origEnd d) - dayNum (origStart d))%Z.
Proof.
  intros Hz Hk Hin Hid Hmin Hmax Hos Hoe ddays Hs He.
  pose proof (proj1 Hmin) as Hf1. pose proof (proj1 Hmax) as Hf2.
  assert (Hfs : fourDigits (dayNum (origStart d) + ddays))
    by (unfold fourDigits in *; lia).
  assert (Hfe : fourDigits (dayNum (origEnd d) + ddays))
    by (unfold fourDigits in *; lia).
  exists (onMoveTask z d (ZOOMS zoom) minS maxS ddays t).
  split; [unfold onMove; now apply in_map |].
  rewrite (onMoveTask_days z Hz); try assumption.
  - rewrite Hid, String.eqb_refl, Hk. cbn [negb].
    rewrite !clampDay_id by assumption.
    cbn [frame start end_ set_start_end id name color deps].
    split; [reflexivity |]. split; [reflexivity |]. split; [reflexivity |].
    rewrite !dayNum_dayStr by assumption. lia.
  - apply ZOOMS_pos.
  - unfold pointedDays. rewrite Hk.
    apply Forall_cons; [assumption |].
    apply Forall_cons; [assumption | apply Forall_nil].
  - rewrite Hk. discriminate.
  - rewrite Hk. discriminate.
Qed.

Lemma move_keeps_duration_witness :
  regularZone tokyo
  /\ exists t',
    In t' (onMove tokyo (Some (mkDrag "Y" move 100 "2024-02-02" "2024-02-06"))
             24 "2024-01-25" "2024-02-27" 172 [tX_sample; tY_sample])
    /\ frame t' = frame tY_sample
    /\ start t' = "2024-02-05"
    /\ end_ t' = "2024-02-09".
Proof.
  split; [exact tokyo_regular |].
  destruct (move_keeps_duration tokyo
              (mkDrag "Y" move 100 "2024-02-02" "2024-02-06") day
              "2024-01-25" "2024-02-27" 172 [tX_sample; tY_sample] tY_sample
              tokyo_regular eq_refl (or_intror (or_introl eq_refl)) eq_refl)
    as [t' [H1 [H2 [H3 [H4 _]]]]].
  - apply goodDate_check. reflexivity.
  - apply goodDate_check. reflexivity.
  - apply goodDate_check. reflexivity.
  - apply goodDate_check. reflexivity.
  - vm_compute. split; discriminate.
  - vm_compute. split; discriminate.
  - exists t'. split; [exact H1 |]. split; [exact H2 |].
    split; [exact H3 | exact H4].
Defined.

(** X8. In a regular zone, with a window and an ordered snapshot of the
    data model, as long as the two shifted dates are of the years 1000 to
    9999: a move whose shifted start falls before the window puts the start
    on the left end of the window; the end stays in the window, not before
    the start, and the task is not longer than the snapshot was.  The same
    holds at the right end of the window for the end. *)
Theorem move_clamps_at_edges
    (z : Zone) (d : Drag) (zoom : ZoomKey) (minS maxS : DateStr)
    (ddays : Z) (t : Task) :
  regularZone z ->
  kind d = move -> id t = drag_id d ->
  goodDate minS -> goodDate maxS ->
  goodDate (origStart d) -> goodDate (origEnd d) ->
  (dayNum minS <= dayNum maxS)%Z ->
  (dayNum (origStart d) <= dayNum (origEnd d))%Z ->
  fourDigits (dayNum (origStart d) + ddays) ->
  fourDigits (dayNum (origEnd d) + ddays) ->
  let t' := onMoveTask z d (ZOOMS zoom) minS maxS ddays t in
  goodDate (start t') /\ goodDate (end_ t')
  /\ ((dayNum (origStart d) + ddays < dayNum minS)%Z ->
        start t' = minS
        /\ (dayNum minS <= dayNum (end_ t') <= dayNum maxS)%Z)
  /\ ((dayNum maxS < dayNum (origEnd d) + ddays)%Z ->
        end_ t' = maxS
        /\ (dayNum minS <= dayNum (start t') <= dayNum maxS)%Z)
  /\ (0 <= dayNum (end_ t') - dayNum (start t')
      <= dayNum (origEnd d) - dayNum (origStart d))%Z.
Proof.
  intros Hz Hk Hid Hmin Hmax Hos Hoe Hmm Hord Hfs Hfe t'. subst t'.
  rewrite (onMoveTask_days z Hz); try assumption.
  2:{ apply ZOOMS_pos. }
  2:{ unfold pointedDays. rewrite Hk.
    apply Forall_cons; [assumption |].
    apply Forall_cons; [assumption | apply Forall_nil]. }
  2:{ rewrite Hk. discriminate. }
  2:{ rewrite Hk. discriminate. }
  rewrite Hid, String.eqb_refl, Hk. cbn [negb start end_ set_start_end].
  pose proof (proj1 Hmin) as Hf1. pose proof (proj1 Hmax) as Hf2.
  assert (Hc1 : fourDigits (clampDay (dayNum (origStart d) + ddays)
                              (dayNum minS) (dayNum maxS)))
    by now apply clampDay_fourDigits.
  assert (Hc2 : fourDigits (clampDay (dayNum (origEnd d) + ddays)
                              (dayNum minS) (dayNum maxS)))
    by now apply clampDay_fourDigits.
  rewrite !dayNum_dayStr by assumption.
  split; [now apply goodDate_dayStr |]. split; [now apply goodDate_dayStr |].
  destruct Hmin as [_ Hmin]. destruct Hmax as [_ Hmax].
  unfold clampDay. rewrite !Z.gtb_ltb.
  repeat match goal with
         | |- context [(?a <? ?b)%Z] => destruct (Z.ltb_spec a b)
         end;
    (split; [intros; split; [congruence || lia | lia] |]);
    (split; [intros; split; [congruence || lia | lia] |]); lia.
Qed.

Lemma move_clamps_at_edges_witness :
  regularZone tokyo
  /\ start (onMoveTask tokyo (mkDrag "Y" move 100 "2024-02-02" "2024-02-06")
              24 "2024-01-25" "2024-02-27" (-30) tY_sample)
     = "2024-01-25".
Proof.
  split; [exact tokyo_regular |].
  apply (move_clamps_at_edges tokyo
           (mkDrag "Y" move 100 "2024-02-02" "2024-02-06") day
           "2024-01-25" "2024-02-27" (-30) tY_sample tokyo_regular
           eq_refl eq_refl).
  - apply goodDate_check. reflexivity.
  - apply goodDate_check. reflexivity.
  - apply goodDate_check. reflexivity.
  - apply goodDate_check. reflexivity.
  - vm_compute. discriminate.
  - vm_compute. discriminate.
  - apply fourDigits_check. reflexivity.
  - apply fourDigits_check. reflexivity.
  - vm_compute. reflexivity.
Defined.

(** ** More on gestures *)

Lemma Math_round_div_small (dx w : Z) :
  (- w <= 2 * dx < w)%Z -> Math_round_div dx w = 0%Z.
Proof.
  intros H. unfold Math_round_div. apply Z.div_small. lia.
Qed.

(** X27. A click does not move a task.  In a regular zone, on a list with
    distinct ids whose window has two ends of the data model, when the
    pointer goes down on a task of the data model and the next pointer
    event is less than half a day width away, the list is left as it is,
    provided the task has [start <= end] for a move and [start < end] for a
    resize. *)
Theorem small_drag_changes_nothing
    (z : Zone) (now1 now2 : Z) (tasks : list Task) (x0 : Z) (i : string)
    (k : DragKind) (d : Drag) (zoom : ZoomKey) (clientX : Z) :
  regularZone z ->
  NoDup (map id tasks) ->
  onMouseDownBar tasks x0 i k = Some d ->
  goodDate (minDateStr z now1 now2 tasks) ->
  goodDate (maxDateStr z now1 now2 tasks) ->
  (forall t, In t tasks -> id t = i ->
     startBeforeEnd t
     /\ (k <> move -> dayNum (start t) < dayNum (end_ t))%Z) ->
  (- ZOOMS zoom <= 2 * (clientX - x0) < ZOOMS zoom)%Z ->
  updateEdit z now1 now2 (Some d) zoom clientX tasks = tasks.
Proof.
  intros Hz Hnd Hdown Hgmin Hgmax Hpre Hdx. unfold onMouseDownBar in Hdown.
  destruct (find _ tasks) as [task |] eqn:Hfind; [| discriminate].
  injection Hdown as <-.
  unfold updateEdit, onMove. cbn [startX].
  rewrite (Math_round_div_small _ _ Hdx).
  transitivity (map (fun x : Task => x) tasks); [| apply map_id].
  apply map_ext_in. intros t Ht.
  destruct (String.eqb_spec (id t) i) as [Hid | Hne].
  2:{ unfold onMoveTask. cbn [drag_id].
      destruct (String.eqb_spec (id t) i); [contradiction | reflexivity]. }
  assert (t = task) by (eapply find_id_unique; eassumption). subst task.
  destruct (Hpre t Ht Hid) as [[Hgs [Hge Hle]] Hlt].
  destruct (window_around z Hz now1 now2 tasks t Ht) as [Hlo Hhi].
  specialize (Hlo Hgmin _ (parseDate_good z Hz _ Hgs)).
  specialize (Hhi Hgmax _ (parseDate_good z Hz _ Hge)).
  set (mn := minDateStr z now1 now2 tasks) in *.
  set (mx := maxDateStr z now1 now2 tasks) in *.
  pose proof (proj1 Hgs) as Hfs. pose proof (proj1 Hge) as Hfe.
  pose proof (proj1 Hgmin) as Hfmin. pose proof (proj1 Hgmax) as Hfmax.
  rewrite (onMoveTask_days z Hz); cbn [drag_id kind origStart origEnd];
    try assumption; try apply ZOOMS_pos.
  - rewrite Hid, String.eqb_refl. cbn [negb].
    destruct Hgs as [_ Hs]. destruct Hge as [_ He].
    destruct k.
    + rewrite !Z.add_0_r, !clampDay_id by lia. rewrite <- Hs, <- He.
      destruct t; reflexivity.
    + assert (Hs' : (dayNum (start t) < dayNum (end_ t))%Z)
        by (apply Hlt; discriminate).
      rewrite Z.add_0_r.
      assert (Hv : (if (dayNum (start t) >=? dayNum (end_ t) + -1)%Z
                    then (dayNum (end_ t) + -1)%Z else dayNum (start t))
                   = dayNum (start t)).
      { rewrite Z.geb_leb.
        destruct (Z.leb_spec (dayNum (end_ t) + -1) (dayNum (start t))); lia. }
      rewrite Hv, clampDay_id by lia. rewrite <- Hs. destruct t; reflexivity.
    + assert (Hs' : (dayNum (start t) < dayNum (end_ t))%Z)
        by (apply Hlt; discriminate).
      rewrite Z.add_0_r.
      assert (Hv : (if (dayNum (end_ t) <=? dayNum (start t) + 1)%Z
                    then (dayNum (start t) + 1)%Z else dayNum (end_ t))
                   = dayNum (end_ t)).
      { destruct (Z.leb_spec (dayNum (end_ t)) (dayNum (start t) + 1)); lia. }
      rewrite Hv, clampDay_id by lia. rewrite <- He. destruct t; reflexivity.
  - unfold pointedDays. cbn [kind origStart origEnd]. rewrite !Z.add_0_r.
    destruct k; repeat (apply Forall_cons; [assumption |]); apply Forall_nil.
  - intros _. unfold fourDigits, FIRST_DAY, LAST_DAY in *. lia.
  - intros _. unfold fourDigits, FIRST_DAY, LAST_DAY in *. lia.
Qed.

Lemma small_drag_changes_nothing_witness :
  regularZone tokyo
  /\ updateEdit tokyo 0 0
       (Some (mkDrag "Y" resize_right 100 "2024-02-02" "2024-02-06"))
       day 111 [tX_sample; tY_sample]
     = [tX_sample; tY_sample].
Proof.
  split; [exact tokyo_regular |].
  apply (small_drag_changes_nothing tokyo 0 0 [tX_sample; tY_sample] 100 "Y"
           resize_right).
  - exact tokyo_regular.
  - repeat constructor; cbn; intuition discriminate.
  - reflexivity.
  - apply goodDate_check. vm_compute. reflexivity.
  - apply goodDate_check. vm_compute. reflexivity.
  - intros t [<- | [<- | []]] H; [discriminate H |].
    split; [apply startBeforeEnd_check; reflexivity |].
    intros _. vm_compute. reflexivity.
  - cbn. lia.
Defined.

(** A click on the edge of a task that starts and ends the same day does
    change it: the edge is pushed a day away. *)
Example click_on_one_day_task :
  updateEdit tokyo 0 0
    (onMouseDownBar [mkTask "Z" "z" "2024-02-01" "2024-02-01" None []] 0 "Z"
                    resize_left)
    day 0 [mkTask "Z" "z" "2024-02-01" "2024-02-01" None []]
  = [mkTask "Z" "z" "2024-01-31" "2024-02-01" None []].
Proof. vm_compute. reflexivity. Qed.

(** X28. A resize follows the pointer.  In a regular zone, with a window
    and a snapshot of the data model: while the dragged edge stays inside
    the window and at least a day away from the fixed edge, a resize of the
    left edge puts the start at the snapshot start shifted by
    [round (dx / dayWidth)] days and keeps the end, and a resize of the
    right edge does the same for the end and keeps the start. *)
Theorem resize_follows_pointer
    (z : Zone) (d : Drag) (zoom : ZoomKey) (minS maxS : DateStr)
    (ddays : Z) (t : Task) :
  regularZone z ->
  id t = drag_id d ->
  goodDate minS -> goodDate maxS ->
  goodDate (origStart d) -> goodDate (origEnd d) ->
  let t' := onMoveTask z d (ZOOMS zoom) minS maxS ddays t in
  (kind d = resize_left ->
   (dayNum minS <= dayNum (origStart d) + ddays <= dayNum maxS)%Z ->
   (dayNum (origStart d) + ddays < dayNum (origEnd d))%Z ->
   t' = set_start t (dayStr (dayNum (origStart d) + ddays)))
  /\ (kind d = resize_right ->
      (dayNum minS <= dayNum (origEnd d) + ddays <= dayNum maxS)%Z ->
      (dayNum (origStart d) < dayNum (origEnd d) + ddays)%Z ->
      t' = set_end t (dayStr (dayNum (origEnd d) + ddays))).
Proof.
  intros Hz Hid Hmin Hmax Hos Hoe t'. subst t'.
  pose proof (proj1 Hmin) as Hf1. pose proof (proj1 Hmax) as Hf2.
  pose proof (proj1 Hos) as Hf3. pose proof (proj1 Hoe) as Hf4.
  split; intros Hk Hin Hfar.
  - rewrite (onMoveTask_days z Hz); try assumption; try apply ZOOMS_pos.
    + rewrite Hid, String.eqb_refl, Hk. cbn [negb].
      assert (Hv : (if (dayNum (origStart d) + ddays
                        >=? dayNum (origEnd d) + -1)%Z
                    then (dayNum (origEnd d) + -1)%Z
                    else (dayNum (origStart d) + ddays)%Z)
                   = (dayNum (origStart d) + ddays)%Z).
      { rewrite Z.geb_leb.
        destruct (Z.leb_spec (dayNum (origEnd d) + -1)
                             (dayNum (origStart d) + ddays)); lia. }
      now rewrite Hv, clampDay_id.
    + unfold pointedDays. rewrite Hk.
      apply Forall_cons; [| apply Forall_nil].
      unfold fourDigits in *. lia.
    + intros _. unfold fourDigits, FIRST_DAY, LAST_DAY in *. lia.
    + rewrite Hk. discriminate.
  - rewrite (onMoveTask_days z Hz); try assumption; try apply ZOOMS_pos.
    + rewrite Hid, String.eqb_refl, Hk. cbn [negb].
      assert (Hv : (if (dayNum (origEnd d) + ddays
                        <=? dayNum (origStart d) + 1)%Z
                    then (dayNum (origStart d) + 1)%Z
                    else (dayNum (origEnd d) + ddays)%Z)
                   = (dayNum (origEnd d) + ddays)%Z).
      { destruct (Z.leb_spec (dayNum (origEnd d) + ddays)
                             (dayNum (origStart d) + 1)); lia. }
      now rewrite Hv, clampDay_id.
    + unfold pointedDays. rewrite Hk.
      apply Forall_cons; [| apply Forall_nil].
      unfold fourDigits in *. lia.
    + rewrite Hk. discriminate.
    + intros _. unfold fourDigits, FIRST_DAY, LAST_DAY in *. lia.
Qed.

Lemma resize_follows_pointer_witness :
  regularZone tokyo
  /\ onMoveTask tokyo (mkDrag "Y" resize_left 100 "2024-02-02" "2024-02-06")
       24 "2024-01-25" "2024-02-27" 2 tY_sample
     = set_start tY_sample "2024-02-04".
Proof.
  split; [exact tokyo_regular |].
  apply (proj1 (resize_follows_pointer tokyo
           (mkDrag "Y" resize_left 100 "2024-02-02" "2024-02-06") day
           "2024-01-25" "2024-02-27" 2 tY_sample tokyo_regular eq_refl
           ltac:(apply goodDate_check; reflexivity)
           ltac:(apply goodDate_check; reflexivity)
           ltac:(apply goodDate_check; reflexivity)
           ltac:(apply goodDate_check; reflexivity))).
  - reflexivity.
  - vm_compute. split; discriminate.
  - vm_compute. reflexivity.
Defined.

(** ** [addTask] *)

Section AddTask.

Variables (z : Zone) (now1 now2 : Z) (uid palette : string) (prev : list Task).

Local Abbreviation newTask :=
  (mkTask uid "新規タスク" (fmt z (addDays z (Some now1) (Some 1%Z)))
          (fmt z (addDays z (Some now2) (Some 4%Z))) (Some palette) []).




End AddTask.



(** With the two reads of the clock on either side of a local midnight the
    new task is a day longer. *)
Example addTask_across_midnight :
  addTask tokyo (midnight tokyo (ymd 2024 1 2) - 1)
          (midnight tokyo (ymd 2024 1 2)) "N" "#60a5fa" []
  = [mkTask "N" "新規タスク" "2024-01-02" "2024-01-06" (Some "#60a5fa") []].
Proof. vm_compute. reflexivity. Qed.

(** *** What [autoSchedule] does to each task *)

Lemma topo_no_back_edge (tasks : list Task) (done todo : list string)
    (i j : string) :
  NoDup (done ++ i :: todo) ->
  topoOrdered tasks (done ++ i :: todo) ->
  In j (done ++ [i]) -> ~ edge tasks i j.
Proof.
  intros Hnd Htopo Hj He.
  apply In_nth_error in Hj. destruct Hj as [k Hk].
  assert (Hklt : (k < List.length (done ++ [i]))%nat).
  { apply nth_error_Some. congruence. }
  assert (Hj' : nth_error (done ++ i :: todo) k = Some j).
  { change (i :: todo) with ([i] ++ todo). rewrite app_assoc.
    now rewrite nth_error_app1. }
  assert (Hi' : nth_error (done ++ i :: todo) (List.length done) = Some i).
  { rewrite nth_error_app2, Nat.sub_diag by lia. reflexivity. }
  pose proof (topoOrdered_index tasks _ Hnd Htopo _ _ i j He Hi' Hj') as Hlt.
  rewrite length_app in Hklt. cbn in Hklt. lia.
Qed.

Lemma Forall2_store_set {A} (R : A -> Task -> Prop) (a : list A)
    (store : list Task) (r : nat) (t t' : Task) :
  Forall2 R a store -> nth_error store r = Some t ->
  (forall x, R x t -> R x t') ->
  Forall2 R a (store_set store r t').
Proof.
  intros HF. revert r. induction HF as [| x u a store Hxu HF IH]; intros r Hn Hstep.
  - constructor.
  - destruct r as [| r]; cbn in *.
    + injection Hn as ->. constructor; auto.
    + constructor; auto.
Qed.

Lemma Forall2_nth {A B} (R : A -> B -> Prop) (a : list A) (b : list B)
    (k : nat) (x : A) :
  Forall2 R a b -> nth_error a k = Some x ->
  exists y, nth_error b k = Some y /\ R x y.
Proof.
  intros HF. revert k. induction HF as [| x0 y0 a b Hxy HF IH]; intros k Hk.
  - destruct k; discriminate.
  - destruct k as [| k]; cbn in *.
    + injection Hk as ->. eauto.
    + auto.
Qed.

Lemma Forall2_refl_list {A} (R : A -> A -> Prop) (l : list A) :
  (forall x, R x x) -> Forall2 R l l.
Proof. intros H. induction l; constructor; auto. Qed.

Section ScheduleDaysForm.

Variables (tasks : list Task) (mx : Z).

Local Open Scope Z_scope.

Local Abbreviation stepDays :=
  (scheduleStepDays (nextMap tasks) (idToTask tasks) mx).

(** What a step of the scheduler on day numbers does to a store of the data
    model. *)
Lemma scheduleStepDays_form (store : list Task) (i : string) :
  map shape store = map shape tasks ->
  In i (map id tasks) ->
  storeInYears mx store ->
  exists r t,
    nth_error store r = Some t /\ id t = i
    /\ let L := latestDaySched (nextMap tasks) (idToTask tasks) store
                  (deps t) (dayNum (start t)) in
       (forall pid p, In pid (deps t) -> lastWithId pid store = Some p ->
          dayNum (end_ p) <= L)
       /\ ((L = dayNum (start t) /\ stepDays (Some store) i = Some store)
           \/ (dayNum (start t) < L <= mx
               /\ fourDigits L
               /\ (exists pid p, In pid (deps t)
                     /\ lastWithId pid store = Some p
                     /\ end_ p = dayStr L)
               /\ stepDays (Some store) i
                  = Some (store_set store r
                            (set_start_end t (dayStr L)
                               (dayStr (Z.min (L + (dayNum (end_ t)
                                                    - dayNum (start t)))
                                              mx))))
               /\ storeInYears mx
                    (store_set store r
                       (set_start_end t (dayStr L)
                          (dayStr (Z.min (L + (dayNum (end_ t)
                                               - dayNum (start t)))
                                         mx)))))).
Proof.
  intros Hshape Hi Hinv.
  pose proof (shape_ids _ _ Hshape) as Hids.
  destruct (nextMap_object tasks store i Hids Hi) as [r [t [Hr [Ht [Hid _]]]]].
  exists r, t. split; [assumption |]. split; [assumption |]. cbv zeta.
  destruct (latestDaySched_bounds (nextMap tasks) (idToTask tasks) store
              (deps t) (dayNum (start t))) as [Hge [Hpred Hatt]].
  set (L := latestDaySched (nextMap tasks) (idToTask tasks) store
              (deps t) (dayNum (start t))) in *.
  split.
  { intros pid p Hpid Hp. apply (Hpred pid p Hpid).
    now rewrite lookupPred_lastWithId. }
  unfold scheduleStepDays. rewrite Hr, Ht. cbv zeta. fold L.
  rewrite Z.gtb_ltb. destruct (Z.ltb_spec (dayNum (start t)) L) as [Hlt | Hle];
    [| left; split; [lia | reflexivity]].
  right.
  assert (Htin : In t store) by (eapply nth_error_In; eassumption).
  destruct (Hinv t Htin) as [[Hgs [Hgd Hse]] [Hemx Hroom]].
  destruct Hatt as [Heq | [pid [p [Hpid [Hp Heq]]]]]; [lia |].
  rewrite lookupPred_lastWithId in Hp by assumption.
  pose proof (lastWithId_In _ _ _ Hp) as [Hpin _].
  destruct (Hinv p Hpin) as [[_ [Hgp _]] [Hpmx _]].
  pose proof (proj1 Hgs) as Hfs. pose proof (proj1 Hgp) as Hfp.
  assert (HfL : fourDigits L) by (rewrite Heq; exact Hfp).
  assert (HLmx : L <= mx) by (rewrite Heq; exact Hpmx).
  split; [lia |]. split; [exact HfL |]. split.
  { exists pid, p. split; [assumption |]. split; [assumption |].
    rewrite Heq. apply Hgp. }
  split; [reflexivity |].
  set (X := Z.min (L + (dayNum (end_ t) - dayNum (start t))) mx).
  assert (HfX : fourDigits X)
    by (unfold fourDigits, FIRST_DAY, LAST_DAY in *; subst X; lia).
  intros u Hu. destruct (store_set_In _ _ _ _ Hu) as [-> | Hu']; [| auto].
  unfold startBeforeEnd. cbn [start end_ set_start_end].
  rewrite !dayNum_dayStr by assumption.
  split; [| subst X; lia].
  split; [now apply goodDate_dayStr |].
  split; [now apply goodDate_dayStr | subst X; lia].
Qed.

Lemma scheduleStepDays_notEarlier (store : list Task) (i : string) :
  map shape store = map shape tasks ->
  In i (map id tasks) ->
  storeInYears mx store ->
  Forall2 notEarlier tasks store ->
  exists store',
    stepDays (Some store) i = Some store'
    /\ map shape store' = map shape tasks
    /\ storeInYears mx store'
    /\ Forall2 notEarlier tasks store'.
Proof.
  intros Hshape Hi Hinv HF.
  destruct (scheduleStepDays_form store i Hshape Hi Hinv)
    as [r [t [Ht [Hid [_ [[_ Hs]
         | [Hlt [HfL [_ [Hs Hinv']]]]]]]]]].
  - exists store. auto.
  - eexists. split; [exact Hs |].
    assert (Htin : In t store) by (eapply nth_error_In; eassumption).
    destruct (Hinv t Htin) as [[Hgs [Hgd Hse]] [Hemx Hroom]].
    split; [| split; [exact Hinv' |]].
    + rewrite <- Hshape. now apply store_set_map with (t := t).
    + apply (Forall2_store_set notEarlier tasks store r t); try assumption.
      intros x [Hf [Hx1 Hx2]]. unfold notEarlier.
      cbn [start end_ set_start_end].
      assert (HfX : fourDigits (Z.min (dayNum (dayStr
                (latestDaySched (nextMap tasks) (idToTask tasks) store
                   (deps t) (dayNum (start t))))
                + (dayNum (end_ t) - dayNum (start t))) mx)).
      { rewrite dayNum_dayStr by assumption.
        pose proof (proj1 Hgs). unfold fourDigits, FIRST_DAY, LAST_DAY in *. lia. }
      rewrite dayNum_dayStr in HfX by assumption.
      rewrite !dayNum_dayStr by assumption.
      split; [exact Hf | lia].
Qed.

Lemma scheduleFoldDays_notEarlier (order : list string) :
  (forall i, In i order -> In i (map id tasks)) ->
  forall store,
    map shape store = map shape tasks ->
    storeInYears mx store ->
    Forall2 notEarlier tasks store ->
    exists r,
      fold_left stepDays order (Some store) = Some r
      /\ Forall2 notEarlier tasks r.
Proof.
  induction order as [| i order IH]; intros Hord store Hshape Hinv HF.
  - cbn. eauto.
  - cbn [fold_left].
    destruct (scheduleStepDays_notEarlier store i) as [store' [Hs [H1 [H2 H3]]]];
      auto.
    { apply Hord. now left. }
    rewrite Hs. apply IH; auto. intros j Hj. apply Hord. now right.
Qed.

Lemma scheduleStepDays_trace (done : list string) (store : list Task)
    (i : string) :
  map shape store = map shape tasks ->
  storeInYears mx store ->
  schedTrace tasks mx done store ->
  In i (map id tasks) -> ~ In i done ->
  (forall j, In j (done ++ [i]) -> ~ edge tasks i j) ->
  exists store',
    stepDays (Some store) i = Some store'
    /\ map shape store' = map shape tasks
    /\ storeInYears mx store'
    /\ schedTrace tasks mx (done ++ [i]) store'.
Proof.
  intros Hshape Hinv Htr Hi Hfresh Hnoedge.
  pose proof (shape_ids _ _ Hshape) as Hids.
  destruct (scheduleStepDays_form store i Hshape Hi Hinv)
    as [r [u [Hu [Hid [Hall [[_ Hs]
         | [Hlt [HfL [[pid [p [Hpid [Hp HL]]]] [Hs Hinv']]]]]]]]]].
  - exists store. split; [assumption |]. split; [assumption |].
    split; [assumption |].
    intros k t v Hk Hv. destruct (Htr k t v Hk Hv) as [H1 H2].
    split; [| assumption]. intros Hn. apply H1. intros Hd. apply Hn.
    apply in_or_app. now left.
  - set (L := latestDaySched (nextMap tasks) (idToTask tasks) store
                (deps u) (dayNum (start u))) in *.
    (* the object found is the task given at that position *)
    assert (Hu0 : nth_error tasks r = Some u).
    { assert (Hr : nth_error (map id tasks) r = Some i).
      { rewrite <- Hids, nth_error_map, Hu. cbn. now rewrite Hid. }
      rewrite nth_error_map in Hr.
      destruct (nth_error tasks r) as [t0 |] eqn:Ht0; [| discriminate].
      cbn in Hr. injection Hr as Hr.
      destruct (Htr r t0 u Ht0 Hu) as [H1 _].
      rewrite H1; [reflexivity |]. now rewrite Hr. }
    assert (Huin : In u store) by (eapply nth_error_In; eassumption).
    destruct (Hinv u Huin) as [[Hgs [Hgd Hse]] [Hemx Hroom]].
    set (X := Z.min (L + (dayNum (end_ u) - dayNum (start u))) mx) in *.
    assert (HfX : fourDigits X).
    { pose proof (proj1 Hgs).
      unfold fourDigits, FIRST_DAY, LAST_DAY in *; subst X; lia. }
    set (u' := set_start_end u (dayStr L) (dayStr X)) in *.
    assert (Hother : forall q, q <> i ->
              lastWithId q (store_set store r u') = lastWithId q store).
    { intros q Hq. apply (lastWithId_store_set_other store r u u' q Hu);
        [reflexivity | congruence]. }
    eexists. split; [exact Hs |]. split; [| split; [exact Hinv' |]].
    { rewrite <- Hshape. now apply store_set_map with (t := u). }
    intros k t v Hk Hv.
    destruct (Nat.eq_dec r k) as [<- | Hrk].
    + rewrite (store_set_nth store r u u' Hu) in Hv. injection Hv as <-.
      rewrite Hu0 in Hk. injection Hk as <-.
      split.
      * intros Hn. exfalso. apply Hn. rewrite Hid. apply in_or_app. right. now left.
      * right. unfold u'. cbn [frame id name color deps start end_ set_start_end].
        rewrite !dayNum_dayStr by assumption.
        split; [reflexivity |]. split; [lia |].
        split; [| reflexivity].
        exists pid, p. split; [assumption |]. split; [| exact HL].
        rewrite Hother; [assumption |].
        intros ->. apply (Hnoedge i).
        -- apply in_or_app. right. now left.
        -- exists u. split; [eapply nth_error_In; eassumption |]. auto.
    + rewrite store_set_nth_other in Hv by assumption.
      destruct (Htr k t v Hk Hv) as [H1 H2]. split.
      * intros Hn. apply H1. intros Hd. apply Hn. apply in_or_app. now left.
      * destruct H2 as [-> | [Hf [Hst [[q [pq [Hq [Hpq Heq]]]] Hen]]]];
          [now left |].
        right. split; [assumption |]. split; [assumption |].
        split; [| assumption].
        exists q, pq. split; [assumption |]. split; [| assumption].
        rewrite Hother; [assumption |].
        intros ->.
        assert (Hjd : In (id t) done).
        { destruct (in_dec string_dec (id t) done) as [Hd | Hd]; [assumption |].
          specialize (H1 Hd). subst v. lia. }
        apply (Hnoedge (id t)).
        -- apply in_or_app. now left.
        -- exists t. split; [eapply nth_error_In; eassumption |].
           split; [reflexivity |]. split; [| assumption].
           assert (Hdeps : deps v = deps t) by (now injection Hf).
           now rewrite <- Hdeps.
Qed.

Lemma scheduleFoldDays_trace (todo : list string) :
  forall (done : list string) (store : list Task),
  NoDup (done ++ todo) ->
  topoOrdered tasks (done ++ todo) ->
  (forall i, In i todo -> In i (map id tasks)) ->
  map shape store = map shape tasks ->
  storeInYears mx store ->
  schedTrace tasks mx done store ->
  exists r,
    fold_left stepDays todo (Some store) = Some r
    /\ schedTrace tasks mx (done ++ todo) r.
Proof.
  induction todo as [| i todo IH];
    intros done store Hnd Htopo Hids Hshape Hinv Htr.
  - cbn. rewrite app_nil_r. eauto.
  - cbn [fold_left].
    assert (Hi : In i (map id tasks)) by (apply Hids; now left).
    assert (Hfresh : ~ In i done).
    { apply NoDup_remove_2 in Hnd. intros H. apply Hnd.
      apply in_or_app. now left. }
    assert (Hne : forall j, In j (done ++ [i]) -> ~ edge tasks i j).
    { intros j Hj. eapply topo_no_back_edge; eassumption. }
    destruct (scheduleStepDays_trace done store i Hshape Hinv Htr Hi Hfresh Hne)
      as [store' [Hs [Hsh' [Hinv' Htr']]]].
    rewrite Hs.
    change (i :: todo) with ([i] ++ todo) in *. rewrite app_assoc in *.
    apply IH; try assumption.
    intros j Hj. apply Hids. apply in_or_app. now right.
Qed.

End ScheduleDaysForm.

(** X21. [autoSchedule] never moves a task earlier.  In a regular zone, on
    a list of tasks of the data model with room to schedule, with or
    without cycles or repeated ids, it returns a list of the same length
    whose task at each position has the id, name, colour and dependencies
    of the task given at that position, and a start and an end on or after
    the ones given. *)
Theorem autoSchedule_never_earlier
    (z : Zone) (now1 now2 : Z) (tasks : list Task) :
  regularZone z ->
  (forall t, In t tasks -> startBeforeEnd t) ->
  roomToSchedule tasks ->
  exists r,
    autoSchedule z now1 now2 tasks = Some r
    /\ List.length r = List.length tasks
    /\ forall k t, nth_error tasks k = Some t ->
         exists t', nth_error r k = Some t'
           /\ frame t' = frame t
           /\ (dayNum (start t) <= dayNum (start t'))%Z
           /\ (dayNum (end_ t) <= dayNum (end_ t'))%Z.
Proof.
  intros Hz Hinv Hroom.
  destruct (autoSchedule_days z now1 now2 tasks Hz Hinv Hroom) as [Heq _].
  rewrite Heq. unfold autoScheduleDays.
  destruct (topoSort_total tasks) as [order Ho]. rewrite Ho.
  destruct tasks as [| t0 rest] eqn:Htasks.
  { injection Ho as <-. exists []. split; [reflexivity |].
    split; [reflexivity |]. intros [| k] t Hk; discriminate. }
  rewrite <- Htasks in *.
  destruct (window_right z now1 now2 tasks Hz) as [_ [HfM Hstore]];
    try assumption; [rewrite Htasks; discriminate |].
  destruct (scheduleFoldDays_notEarlier tasks (lastEnd tasks + 21) order
              (topoSort_ids tasks order Ho) tasks eq_refl Hstore)
    as [r [Hr HF]].
  { apply Forall2_refl_list. intros x. unfold notEarlier.
    split; [reflexivity | lia]. }
  exists r. split; [assumption |]. split.
  - symmetry. eapply Forall2_length; eassumption.
  - intros k t Hk.
    destruct (Forall2_nth _ _ _ _ _ HF Hk) as [t' [Hk' [H1 [H2 H3]]]].
    eauto.
Qed.

Lemma autoSchedule_never_earlier_witness :
  regularZone tokyo
  /\ (forall t, In t cycle_tasks -> startBeforeEnd t)
  /\ roomToSchedule cycle_tasks
  /\ exists r,
       autoSchedule tokyo 0 0 cycle_tasks = Some r
       /\ List.length r = List.length cycle_tasks
       /\ forall k t, nth_error cycle_tasks k = Some t ->
            exists t', nth_error r k = Some t'
              /\ frame t' = frame t
              /\ (dayNum (start t) <= dayNum (start t'))%Z
              /\ (dayNum (end_ t) <= dayNum (end_ t'))%Z.
Proof.
  assert (H : forall t, In t cycle_tasks -> startBeforeEnd t)
    by (apply all_startBeforeEnd_check; reflexivity).
  assert (H' : roomToSchedule cycle_tasks)
    by (apply roomToSchedule_check; reflexivity).
  split; [exact tokyo_regular |]. split; [exact H |]. split; [exact H' |].
  apply (autoSchedule_never_earlier tokyo 0 0 cycle_tasks tokyo_regular H H').
Defined.

(** X23. What [autoSchedule] does to each task, in a regular zone, of a
    list of tasks of the data model with distinct ids, without cycle and
    with room to schedule.  The task at a position is either returned as
    given, or moved later to start exactly at the end of one of its
    predecessors in the returned list; a moved task keeps its duration
    unless that would pass the end of the window, where its end is cut: its
    new duration is the smaller of the old one and the room left in the
    window, and is not negative. *)
Theorem autoSchedule_moved_tasks
    (z : Zone) (now1 now2 : Z) (tasks : list Task) :
  regularZone z ->
  NoDup (map id tasks) -> acyclic tasks ->
  (forall t, In t tasks -> startBeforeEnd t) ->
  roomToSchedule tasks ->
  exists r,
    autoSchedule z now1 now2 tasks = Some r
    /\ forall k t t', nth_error tasks k = Some t -> nth_error r k = Some t' ->
         t' = t
         \/ (frame t' = frame t
             /\ startBeforeEnd t'
             /\ (dayNum (start t) < dayNum (start t'))%Z
             /\ (exists p, In p r /\ In (id p) (deps t')
                           /\ end_ p = start t')
             /\ (dayNum (end_ t') - dayNum (start t')
                 = Z.min (dayNum (end_ t) - dayNum (start t))
                         (dayNum (maxDateStr z now1 now2 tasks)
                          - dayNum (start t')))%Z).
Proof.
  intros Hz Hnd Hac Hord Hroom.
  destruct (autoSchedule_days z now1 now2 tasks Hz Hord Hroom)
    as [Heq [r0 [Hr0 [_ Hgood]]]].
  rewrite Heq.
  destruct tasks as [| t0 rest] eqn:Htasks.
  { exists []. split; [reflexivity |]. intros [| k] t t' Hk; discriminate. }
  rewrite <- Htasks in *.
  destruct (window_right z now1 now2 tasks Hz) as [Hmaxs [HfM Hstore]];
    try assumption; [rewrite Htasks; discriminate |].
  destruct (topoSort_acyclic_ordered tasks Hnd Hac)
    as [order [Ho [Hond [Hoall Hotopo]]]].
  destruct (scheduleFoldDays_trace tasks (lastEnd tasks + 21) order []
              tasks) as [r [Hr Htr]]; try assumption.
  { intros i Hi. now apply Hoall. }
  { reflexivity. }
  { intros k t v Hk Hv. assert (v = t) by congruence. subst v.
    split; [reflexivity | now left]. }
  assert (Hrr : autoScheduleDays tasks = Some r).
  { unfold autoScheduleDays. rewrite Ho. exact Hr. }
  assert (r0 = r) by congruence. subst r0.
  exists r. split; [exact Hrr |].
  intros k t t' Hk Hk'. destruct (Htr k t t' Hk Hk') as [_ H].
  destruct H as [-> | [Hf [Hst [[pid [p [Hpid [Hp Hpe]]]] Hen]]]]; [now left |].
  right. split; [assumption |].
  split; [apply Hgood; eapply nth_error_In; eassumption |].
  split; [lia |]. split.
  - apply lastWithId_In in Hp. destruct Hp as [Hp Hpi]. exists p.
    rewrite Hpi. auto.
  - rewrite Hmaxs, dayNum_dayStr by assumption.
    assert (Hte : startBeforeEnd t).
    { apply Hord. eapply nth_error_In; eassumption. }
    destruct Hte as [_ [_ Hte]]. lia.
Qed.

Lemma autoSchedule_moved_tasks_witness :
  regularZone tokyo
  /\ NoDup (map id chain_tasks) /\ acyclic chain_tasks
  /\ (forall t, In t chain_tasks -> startBeforeEnd t)
  /\ roomToSchedule chain_tasks
  /\ exists r, autoSchedule tokyo 0 0 chain_tasks = Some r.
Proof.
  assert (Hnd : NoDup (map id chain_tasks)).
  { repeat constructor; cbn; intuition discriminate. }
  assert (Hord : forall t, In t chain_tasks -> startBeforeEnd t)
    by (apply all_startBeforeEnd_check; reflexivity).
  assert (Hroom : roomToSchedule chain_tasks)
    by (apply roomToSchedule_check; reflexivity).
  split; [exact tokyo_regular |].
  split; [exact Hnd |]. split; [exact chain_tasks_acyclic |].
  split; [exact Hord |]. split; [exact Hroom |].
  destruct (autoSchedule_moved_tasks tokyo 0 0 chain_tasks tokyo_regular Hnd
              chain_tasks_acyclic Hord Hroom) as [r [Hr _]].
  exists r. exact Hr.
Defined.

(** ** Zones with a change of offset *)

(** A zone with summer time is regular: the hour skipped in spring is read
    as the hour after it, on the same calendar day. *)
Lemma dstZone_regular : regularZone dstZone.
Proof.
  assert (H1 : (ymd 2024 3 31 * MS_PER_DAY + 3600000 = 1711846800000)%Z)
    by reflexivity.
  assert (H2 : (ymd 2024 10 27 * MS_PER_DAY + 3600000 = 1729990800000)%Z)
    by reflexivity.
  constructor; unfold dstZone; cbv zeta; rewrite ?H1, ?H2;
    cbn [LocalTime UTC]; unfold Day, MS_PER_DAY.
  - intros l.
    destruct (Z.ltb_spec l (1711846800000 + 2 * 3600000));
      [| destruct (Z.ltb_spec l (1729990800000 + 2 * 3600000))];
      match goal with
      | |- context [(?a <=? ?b)%Z && (?c <? ?d)%Z] =>
          destruct (Z.leb_spec a b); destruct (Z.ltb_spec c d); cbn [andb]
      end;
      try (f_equal; lia); try lia.
    Z.div_mod_to_equations. lia.
  - intros l.
    destruct (Z.ltb_spec l (1711846800000 + 2 * 3600000));
      [| destruct (Z.ltb_spec l (1729990800000 + 2 * 3600000))];
      match goal with
      | |- context [(?a <=? ?b)%Z && (?c <? ?d)%Z] =>
          destruct (Z.leb_spec a b); destruct (Z.ltb_spec c d); cbn [andb]
      end; change (1000 * 60 * 60 * 24 / 2)%Z with 43200000%Z; lia.
  - intros l l'.
    change (1000 * 60 * 60 * 24 / 2)%Z with 43200000%Z.
    destruct (Z.ltb_spec l (1711846800000 + 2 * 3600000));
      [| destruct (Z.ltb_spec l (1729990800000 + 2 * 3600000))];
      (destruct (Z.ltb_spec l' (1711846800000 + 2 * 3600000));
       [| destruct (Z.ltb_spec l' (1729990800000 + 2 * 3600000))]); lia.
  - intros l.
    destruct (Z.ltb_spec l (1711846800000 + 2 * 3600000));
      [| destruct (Z.ltb_spec l (1729990800000 + 2 * 3600000))]; lia.
Qed.

(** Across the change to summer time the days are counted on the calendar:
    the three days from 2024-03-30 to 2024-04-02 last 71 hours. *)
Example days_across_summer_time :
  num_sub (parseDate dstZone "2024-04-02") (parseDate dstZone "2024-03-30")
  = Some (71 * 3600000)%Z
  /\ diffInDays dstZone (parseDate dstZone "2024-04-02")
                (parseDate dstZone "2024-03-30") = Some 3%Z
  /\ fmt dstZone (addDays dstZone (parseDate dstZone "2024-03-30") (Some 3%Z))
     = "2024-04-02"
  /\ autoSchedule dstZone 0 0
       [ mkTask "A" "a" "2024-03-25" "2024-03-30" None [];
         mkTask "B" "b" "2024-03-26" "2024-03-29" None ["A"] ]
     = Some [ mkTask "A" "a" "2024-03-25" "2024-03-30" None [];
              mkTask "B" "b" "2024-03-30" "2024-04-02" None ["A"] ].
Proof.
  repeat (split; [vm_compute; reflexivity |]). vm_compute. reflexivity.
Qed.

(** In the zone that skips a whole local day, the date of the day
    skipped is written as the day after, and the zone is not regular. *)
Example skipped_day :
  normalizeDate skippingZone "2011-12-30" = "2011-12-31"
  /\ ~ regularZone skippingZone.
Proof.
  split; [vm_compute; reflexivity |].
  intros H. pose proof (zone_day _ H (ymd 2011 12 30 * MS_PER_DAY)) as Hd.
  vm_compute in Hd. discriminate Hd.
Qed.
